(** * Remote command orchestration engine of media-hub-setup

    A shallow embedding of the SSH session layer ([SSHService]), the HTTP
    server's session registry and provisioning pipeline ([server/index.js])
    and the two stand-alone provisioning scripts (the one driving the hub
    over SSH and the one running on the hub itself), together with the
    properties of retry, session reuse, progress events and fail-fast
    behaviour that their specification states.

    Conventions of the embedding.
    - JavaScript strings are [string]s; every character is one code unit in
      the range U+0000..U+00FF.
    - A request field that is [undefined] and one that is the empty string
      are both falsy and are used by the code only after a truthiness test,
      so both are the empty string here.
    - The [node-ssh] client and the [zx] shell are external libraries: their
      behaviour is a parameter ([NodeSSHLib], [ZxShell]) threaded through
      an abstract state of the outside world.
    - An asynchronous function is a state transformer that either returns a
      value or throws; the state reached when it throws is kept, as in
      JavaScript. *)

From Stdlib Require Import String Ascii List Arith Bool Lia.
From stdpp Require Import gmap strings pretty.
Import ListNotations.

Local Open Scope string_scope.
Local Open Scope list_scope.

(* ===================================================================== *)
(** ** JavaScript string primitives used by the code *)
(* ===================================================================== *)

Module Js.

(** [hay.includes(needle)] *)
Fixpoint includes (hay needle : string) : bool :=
    if String.prefix needle hay then true
    else match hay with
         | EmptyString => false
         | String _ rest => includes rest needle
         end.

(** White space in the sense of [String.prototype.trim], for code units
    below U+0100: TAB, LF, VT, FF, CR, SPACE and NBSP. *)
Definition is_white_space (c : ascii) : bool :=
    let n := nat_of_ascii c in
    (((9 <=? n) && (n <=? 13)) || (n =? 32) || (n =? 160))%nat.

Fixpoint trimStart (s : string) : string :=
    match s with
    | EmptyString => EmptyString
    | String c rest => if is_white_space c then trimStart rest else s
    end.

Fixpoint trimEnd (s : string) : string :=
    match s with
    | EmptyString => EmptyString
    | String c rest =>
        match trimEnd rest with
        | EmptyString => if is_white_space c then EmptyString
                         else String c EmptyString
        | r => String c r
        end
    end.

(** [s.trim()] *)
Definition trim (s : string) : string := trimEnd (trimStart s).

(** Truthiness of a string value: only the empty string is falsy. *)
Definition truthy (s : string) : bool :=
    match s with EmptyString => false | _ => true end.

(** [a || b] on strings. *)
Definition or_else (a b : string) : string := if truthy a then a else b.

(** String conversion of a non-negative integer in a template literal. *)
Definition of_nat (n : nat) : string := pretty n.

End Js.

(* ===================================================================== *)
(** ** Computations that may throw *)
(* ===================================================================== *)

(** Outcome of an awaited call: a value, or a thrown [Error] with its
    [message]. *)
Inductive Res (A : Type) : Type :=
| Ok (a : A)
| Throw (message : string).
Arguments Ok {A} a.
Arguments Throw {A} message.

(** A computation over state [S]. *)
Definition M (S A : Type) : Type := S -> S * Res A.

#[global] Instance M_ret {S} : MRet (M S) := fun A a s => (s, Ok a).

#[global] Instance M_bind {S} : MBind (M S) :=
  fun A B k m s =>
    match m s with
    | (s1, Ok a) => k a s1
    | (s1, Throw e) => (s1, Throw e)
    end.

(** [throw new Error(message)] *)
#[global] Instance M_throw {S} : MThrow string (M S) :=
  fun A message s => (s, Throw message).

(** [try { m } catch (error) { h error.message }] *)
Definition try_catch {S A} (m : M S A) (h : string -> M S A) : M S A :=
  fun s => match m s with
           | (s1, Ok a) => (s1, Ok a)
           | (s1, Throw e) => h e s1
           end.

(** A statement that only changes the state. *)
Definition act {S} (f : S -> S) : M S unit := fun s => (f s, Ok tt).

(** A read of the state. *)
Definition gets {S A} (f : S -> A) : M S A := fun s => (s, Ok (f s)).

(* ===================================================================== *)
(** ** The node-ssh client library (external) *)
(* ===================================================================== *)

(** Result of [NodeSSH.execCommand]. *)
Record CommandResult : Type := mkResult {
  stdout : string;
  stderr : string;
  code : Z;
}.

(** Argument of [NodeSSH.connect]. *)
Record ConnectConfig : Type := mkConfig {
  cfg_host : string;
  cfg_username : string;
  cfg_password : string;
  cfg_readyTimeout : option Z;
}.

(** Behaviour of the [NodeSSH] objects over the state [Net] of the outside
    world (transports, network and remote hosts).  A client object is named
    by the number it received when it was constructed. *)
Class NodeSSHLib (Net : Type) : Type := {
  nssh_connect : nat -> ConnectConfig -> M Net unit;
  nssh_isConnected : nat -> Net -> bool;
  nssh_execCommand : nat -> string -> option string -> M Net CommandResult;
  nssh_dispose : nat -> Net -> Net;
}.

(** Ghost record of the calls that leave the process, in the order they are
    made. *)
Inductive Effect : Type :=
| SshConnect (client : nat) (config : ConnectConfig)
| SshExec (client : nat) (command : string) (cwd : option string)
| SshDispose (client : nat)
| Sleep (ms : Z).

(* ===================================================================== *)
(** ** Progress events and the HTTP response *)
(* ===================================================================== *)

(** The JSON records written to the event stream ([type] is the
    constructor). *)
Inductive Event : Type :=
| EvConnected (message : string)
| EvInfo (message : string)
| EvStep (step : nat) (message : string)
| EvStdout (data : string)
| EvStderr (data : string)
| EvSuccess (message : string)
| EvError (error : string)
| EvDone (message : string).

(** Body of a JSON reply. *)
Inductive Json : Type :=
| JsonError (error : string)
| JsonSuccess (message : string).

(** The Express response object of one request. *)
Record Response : Type := mkResponse {
  statusCode : nat;
  headers : list (string * string);
  json : option Json;
  written : list Event;
  ended : bool;
}.

Definition fresh_response : Response :=
  {| statusCode := 200; headers := []; json := None; written := []; ended := false |}.

(* ===================================================================== *)
(** ** State of the server process *)
(* ===================================================================== *)

(** Fields of an [SSHService] object. *)
Record SSHService : Type := mkService {
  ssh : nat;                         (* this.ssh: a NodeSSH object *)
  connections : gmap string nat;     (* this.connections: key -> NodeSSH *)
}.

Record Server (Net : Type) : Type := mkServer {
  activeConnections : gmap string nat;   (* key -> SSHService object *)
  heap : gmap nat SSHService;            (* the SSHService objects *)
  nextId : nat;                          (* next object identity *)
  net : Net;
  effects : list Effect;
  res : Response;
}.
Arguments mkServer {Net}.
Arguments activeConnections {Net}.
Arguments heap {Net}.
Arguments nextId {Net}.
Arguments net {Net}.
Arguments effects {Net}.
Arguments res {Net}.

Section ServerState.
Context {Net : Type}.
Implicit Type s : Server Net.

Definition with_activeConnections (f : gmap string nat -> gmap string nat) s : Server Net :=
    mkServer (f (activeConnections s)) (heap s) (nextId s) (net s) (effects s) (res s).

Definition with_heap (f : gmap nat SSHService -> gmap nat SSHService) s : Server Net :=
    mkServer (activeConnections s) (f (heap s)) (nextId s) (net s) (effects s) (res s).

Definition with_nextId (n : nat) s : Server Net :=
    mkServer (activeConnections s) (heap s) n (net s) (effects s) (res s).

Definition with_net (n : Net) s : Server Net :=
    mkServer (activeConnections s) (heap s) (nextId s) n (effects s) (res s).

Definition record_effect (e : Effect) s : Server Net :=
    mkServer (activeConnections s) (heap s) (nextId s) (net s) (effects s ++ [e]) (res s).

Definition with_res (f : Response -> Response) s : Server Net :=
    mkServer (activeConnections s) (heap s) (nextId s) (net s) (effects s) (f (res s)).

(** Runs a library call on the outside world. *)
Definition lift_net {A} (m : M Net A) : M (Server Net) A :=
    fun s => let '(n, r) := m (net s) in (with_net n s, r).

(** The state after one more record on the event stream. *)
Definition write (e : Event) s : Server Net :=
  with_res (fun r =>
    mkResponse (statusCode r) (headers r) (json r) (written r ++ [e]) (ended r)) s.

(** The state after the response has been ended. *)
Definition close s : Server Net :=
  with_res (fun r =>
    mkResponse (statusCode r) (headers r) (json r) (written r) true) s.

(** [res.write(`data: ${JSON.stringify(event)}\n\n`)] *)
Definition res_write (e : Event) : M (Server Net) unit := act (write e).

(** [res.end()] *)
Definition res_end : M (Server Net) unit := act close.

(** [res.setHeader(name, value)] *)
Definition res_setHeader (name value : string) : M (Server Net) unit :=
    act (with_res (fun r =>
      mkResponse (statusCode r) (headers r ++ [(name, value)]) (json r) (written r) (ended r))).

(** [res.status(code).json(body)] *)
Definition res_status_json (status : nat) (body : Json) : M (Server Net) unit :=
    act (with_res (fun r =>
      mkResponse status (headers r) (Some body) (written r) true)).

(** The state after a JSON reply has been sent. *)
Definition reply (body : Json) s : Server Net :=
  with_res (fun r =>
    mkResponse (statusCode r) (headers r) (Some body) (written r) true) s.

(** [res.json(body)] *)
Definition res_json (body : Json) : M (Server Net) unit := act (reply body).

(** The three header lines that open an event stream. *)
Definition set_sse_headers : M (Server Net) unit :=
    res_setHeader "Content-Type" "text/event-stream";;
    res_setHeader "Cache-Control" "no-cache";;
    res_setHeader "Connection" "keep-alive".

(** [await new Promise(resolve => setTimeout(resolve, ms))] *)
Definition sleep (ms : Z) : M (Server Net) unit :=
    act (record_effect (Sleep ms)).

End ServerState.

(* ===================================================================== *)
(** ** [ssh-service.js]: class SSHService *)
(* ===================================================================== *)

Section SSHServiceClass.
Context {Net : Type} {lib : NodeSSHLib Net}.

Abbreviation Srv := (M (Server Net)).

(** Calls on a [NodeSSH] object, each recorded in [effects]. *)
Definition client_connect (c : nat) (config : ConnectConfig) : Srv unit :=
    act (record_effect (SshConnect c config));;
    lift_net (nssh_connect c config).

Definition client_isConnected (c : nat) : Srv bool :=
    gets (fun s => nssh_isConnected c (net s)).

Definition client_execCommand (c : nat) (command : string) (cwd : option string)
    : Srv CommandResult :=
    act (record_effect (SshExec c command cwd));;
    lift_net (nssh_execCommand c command cwd).

Definition client_dispose (c : nat) : Srv unit :=
    act (record_effect (SshDispose c));;
    act (fun s => with_net (nssh_dispose c (net s)) s).

(** Reading the fields of the object [this]. *)
Definition deref (this : nat) : Srv SSHService :=
    fun s => match heap s !! this with
             | Some o => (s, Ok o)
             | None => (s, Throw "TypeError: Cannot read properties of undefined")
             end.

(** [this.ssh = c] *)
Definition set_ssh (this c : nat) : Srv unit :=
    act (with_heap (alter (fun o => mkService c (connections o)) this)).

(** [this.connections.set(key, c)] *)
Definition connections_set (this : nat) (key : string) (c : nat) : Srv unit :=
    act (with_heap (alter (fun o => mkService (ssh o) (<[key:=c]> (connections o))) this)).

(** [this.connections.delete(key)] *)
Definition connections_delete (this : nat) (key : string) : Srv unit :=
    act (with_heap (alter (fun o => mkService (ssh o) (delete key (connections o))) this)).

(** [new SSHService()]: a fresh [NodeSSH] client and an empty map. *)
Definition new_SSHService : Srv nat :=
    fun s =>
      let c := nextId s in
      let this := S c in
      (with_nextId (S this)
         (with_heap (insert this (mkService c ∅)) s), Ok this).

Definition _getConnectionKey (ip username : string) : string :=
    ip +:+ ":" +:+ username.

(** The [while (attempts < retries)] loop of [connect].  [fuel] bounds the
    number of iterations; [connect] starts it with [retries], which is
    never exhausted before the loop condition fails. *)
Fixpoint connect_loop (this : nat) (key ip username password : string)
           (retries fuel attempts : nat) : Srv unit :=
    match fuel with
    | 0 => mret tt
    | S fuel' =>
        if (attempts <? retries)%nat then
          next ← try_catch
            (o ← deref this;
             client_connect (ssh o)
               {| cfg_host := ip; cfg_username := username;
                  cfg_password := password; cfg_readyTimeout := Some 20000%Z |};;
             connections_set this key (ssh o);;
             mret None)
            (fun error =>
               let attempts := S attempts in
               if (retries <=? attempts)%nat then
                 mthrow ("Failed to connect after " +:+ Js.of_nat retries
                           +:+ " attempts: " +:+ error)
               else
                 sleep 2000%Z;; mret (Some attempts));
          match next with
          | None => mret tt
          | Some attempts => connect_loop this key ip username password retries fuel' attempts
          end
        else mret tt
    end.

(** [async connect(ip, username, password, retries = 3)] *)
Definition connect (this : nat) (ip username password : string) (retries : nat)
    : Srv unit :=
    let key := _getConnectionKey ip username in
    o ← deref this;
    reused ← (match connections o !! key with
              | Some existingSsh =>
                  alive ← client_isConnected existingSsh;
                  if (alive : bool) then set_ssh this existingSsh;; mret true
                  else mret false
              | None => mret false
              end : Srv bool);
    if (reused : bool) then mret tt
    else connect_loop this key ip username password retries retries 0.

(** [async executeCommand(command, { cwd })] *)
Definition executeCommand (this : nat) (command : string) (cwd : option string)
    : Srv CommandResult :=
    o ← deref this;
    result ← client_execCommand (ssh o) command cwd;
    mret (mkResult (stdout result) (stderr result) (code result)).

(** The [if (callback && text) callback(text)] of the stream executor. *)
Definition deliver (callback : option (string -> Srv unit)) (text : string)
    : Srv unit :=
    match callback with
    | Some f => if Js.truthy text then f text else mret tt
    | None => mret tt
    end.

(** [async executeCommandWithStream(command, { cwd, onStdout, onStderr })];
    resolves with the exit code. *)
Definition executeCommandWithStream (this : nat) (command : string)
             (cwd : option string) (onStdout onStderr : option (string -> Srv unit))
    : Srv Z :=
    o ← deref this;
    result ← client_execCommand (ssh o) command cwd;
    deliver onStdout (stdout result);;
    deliver onStderr (stderr result);;
    mret (code result).

(** [isConnected()] *)
Definition isConnected (this : nat) : Srv bool :=
    o ← deref this;
    client_isConnected (ssh o).

(** [async disconnect()] *)
Definition disconnect (this : nat) : Srv unit :=
    o ← deref this;
    alive ← client_isConnected (ssh o);
    if (alive : bool) then client_dispose (ssh o) else mret tt.

(** [async disconnectConnection(ip, username)] *)
Definition disconnectConnection (this : nat) (ip username : string) : Srv unit :=
    let key := _getConnectionKey ip username in
    o ← deref this;
    match connections o !! key with
    | Some c =>
        alive ← client_isConnected c;
        if (alive : bool) then client_dispose c;; connections_delete this key
        else mret tt
    | None => mret tt
    end.

End SSHServiceClass.

(* ===================================================================== *)
(** ** [github-service.js]: command and URL strings *)
(* ===================================================================== *)

Module GithubService.

(** The double-quote character of the shell commands. *)
Definition dq : string := String (ascii_of_nat 34) EmptyString.

Definition getBranchArchiveUrl (owner repo branch : string) : string :=
    "https://github.com/" +:+ owner +:+ "/" +:+ repo
      +:+ "/archive/refs/heads/" +:+ branch +:+ ".tar.gz".

Definition generateCurlCommand (url outputPath : string) : string :=
    "curl -L " +:+ dq +:+ url +:+ dq +:+ " -o " +:+ dq +:+ outputPath +:+ dq.

Definition generateWgetCommand (url outputPath : string) : string :=
    "wget -O " +:+ dq +:+ outputPath +:+ dq +:+ " " +:+ dq +:+ url +:+ dq.

Definition generateDownloadCommand (url outputPath tool : string) : string :=
    if String.eqb tool "curl" then generateCurlCommand url outputPath
    else if String.eqb tool "wget" then generateWgetCommand url outputPath
    else generateWgetCommand url outputPath.

Definition generateExtractCommand (archivePath extractTo : string) : string :=
    "tar -xzf " +:+ dq +:+ archivePath +:+ dq +:+ " -C " +:+ dq +:+ extractTo +:+ dq.

Definition generateMkdirCommand (dirPath : string) : string :=
    "mkdir -p " +:+ dq +:+ dirPath +:+ dq.

Record RepoConfig : Type := mkRepoConfig {
    cfg_owner : string;
    cfg_repo : string;
    cfg_branch : string;
    cfg_basePath : string;
  }.

Definition getDefaultRepoConfig : RepoConfig :=
    {| cfg_owner := "rahul-keus"; cfg_repo := "media-hub-setup";
       cfg_branch := "main"; cfg_basePath := "/data/hub-setup" |}.

(** The existence probe of the server: a [test -f] on the quoted path
    followed by an [echo] of the word exists. *)
Definition test_f_command (path : string) : string :=
    "test -f " +:+ dq +:+ path +:+ dq +:+ " && echo " +:+ dq +:+ "exists" +:+ dq.

End GithubService.
Import GithubService.

(* ===================================================================== *)
(** ** [server/index.js] *)
(* ===================================================================== *)

(** The fields of [req.body] that the handlers read, for a request whose
    body has been parsed into an object.  A required field that is missing
    reads as [undefined]; it is the empty string here, since the handlers
    only test it for truthiness before using it.  A request for which
    [req.body] itself is undefined is not a [Request]: there the
    destructuring at the head of the handler throws before any field is
    read. *)
Record Request : Type := mkRequest {
  ip : string;
  username : string;
  password : string;
  command : string;
  cwd : option string;
  owner : string;
  repo : string;
  branch : string;
  basePath : string;
}.

Section ServerHandlers.
Context {Net : Type} {lib : NodeSSHLib Net}.

Abbreviation Srv := (M (Server Net)).

(** [function getSSHService(ip, username, password)] *)
Definition getSSHService (ip username password : string) : Srv nat :=
    let key := ip +:+ ":" +:+ username in
    existing ← gets (fun s => activeConnections s !! key);
    match existing : option nat with
    | Some _ => mret tt
    | None =>
        sshService ← new_SSHService;
        act (with_activeConnections (insert key sshService))
    end;;
    found ← gets (fun s => activeConnections s !! key);
    match found : option nat with
    | Some sshService => mret sshService
    | None => mthrow "TypeError: Cannot read properties of undefined"
    end.

(** [sshService.executeCommand(cmd).catch(() => null)] *)
Definition executeCommand_or_null (sshService : nat) (cmd : string)
    : Srv (option CommandResult) :=
    try_catch (r ← executeCommand sshService cmd None; mret (Some r))
              (fun _ => mret None).

(** [check && check.code === 0 && check.stdout.trim()] *)
Definition tool_found (check : option CommandResult) : bool :=
    match check with
    | Some r => Z.eqb (code r) 0 && Js.truthy (Js.trim (stdout r))
    | None => false
    end.

(** [async function detectDownloadTool(sshService)] *)
Definition detectDownloadTool (sshService : nat) : Srv (option string) :=
    curlCheck ← executeCommand_or_null sshService "which curl";
    if tool_found curlCheck then mret (Some "curl")
    else
      wgetCheck ← executeCommand_or_null sshService "which wget";
      if tool_found wgetCheck then mret (Some "wget")
      else mret None.

(** The probe is run with [executeCommand]; a rejection is replaced by a
    result whose [stdout] is empty; the answer is
    [stdout.includes('exists')]. *)
Definition file_exists (sshService : nat) (path : string) : Srv bool :=
    out ← try_catch (r ← executeCommand sshService (test_f_command path) None;
                     mret (stdout r))
                    (fun _ => mret EmptyString);
    mret (Js.includes out "exists").

(** The two callbacks every streaming handler passes. *)
Definition onStdout : option (string -> Srv unit) :=
    Some (fun chunk => res_write (EvStdout chunk)).
Definition onStderr : option (string -> Srv unit) :=
    Some (fun chunk => res_write (EvStderr chunk)).

(** [if (!sshService.isConnected()) await sshService.connect(ip, username, password)] *)
Definition ensure_connected (sshService : nat) (ip username password : string)
    : Srv unit :=
    alive ← isConnected sshService;
    if (alive : bool) then mret tt else connect sshService ip username password 3.

(** *** POST /api/setup/download-and-run *)

(** The values computed from the request before the pipeline starts. *)
Record Run : Type := mkRun {
    sshService : nat;
    hubBasePath : string;
    repoOwner : string;
    repoName : string;
    repoBranch : string;
  }.

Definition archivePath (r : Run) : string := hubBasePath r +:+ "/repo.tar.gz".
Definition extractedDir (r : Run) : string :=
    hubBasePath r +:+ "/" +:+ repoName r +:+ "-" +:+ repoBranch r.
Definition downloadCmd (r : Run) (downloadTool : string) : string :=
    generateDownloadCommand
      (getBranchArchiveUrl (repoOwner r) (repoName r) (repoBranch r))
      (archivePath r) downloadTool.
Definition extractCmd (r : Run) : string :=
    generateExtractCommand (archivePath r) (hubBasePath r).
Definition installCmd (r : Run) : string :=
    "cd " +:+ dq +:+ extractedDir r +:+ dq +:+ " && npm install".
Definition runCmd (r : Run) : string :=
    "cd " +:+ dq +:+ extractedDir r +:+ dq +:+ " && node hub-setup.js".

(** Step 1: create directory. *)
Definition create_target_directory (r : Run) : Srv unit :=
    res_write (EvStep 1 "Creating directory...");;
    executeCommand (sshService r) (generateMkdirCommand (hubBasePath r)) None;;
    mret tt.

(** Step 2, first half: detect the download tool. *)
Definition detect_transfer_tool (r : Run) : Srv string :=
    res_write (EvStep 2 "Checking for download tools...");;
    downloadTool ← detectDownloadTool (sshService r);
    match downloadTool : option string with
    | None =>
        mthrow "Neither curl nor wget is available on the hub. Please install one of them."
    | Some tool =>
        res_write (EvInfo ("Using " +:+ tool +:+ " for download..."));;
        mret tool
    end.

(** Step 2, second half: download the archive. *)
Definition fetch_archive (r : Run) (downloadTool : string) : Srv unit :=
    res_write (EvStep 2 "Downloading repository...");;
    executeCommandWithStream (sshService r) (downloadCmd r downloadTool) None
      onStdout onStderr;;
    mret tt.

(** Verify download was successful. *)
Definition verify_archive (r : Run) : Srv unit :=
    found ← file_exists (sshService r) (archivePath r);
    if (found : bool) then mret tt
    else mthrow "Download failed - archive file not found after download".

(** Step 3: extract archive. *)
Definition extract_archive (r : Run) : Srv unit :=
    res_write (EvStep 3 "Extracting archive...");;
    executeCommandWithStream (sshService r) (extractCmd r) None onStdout onStderr;;
    mret tt.

(** Step 4: install dependencies. *)
Definition install_dependencies (r : Run) : Srv unit :=
    res_write (EvStep 4 "Installing dependencies...");;
    found ← file_exists (sshService r) (extractedDir r +:+ "/package.json");
    if (found : bool) then
      res_write (EvInfo "Found package.json, installing dependencies...");;
      executeCommandWithStream (sshService r) (installCmd r) None onStdout onStderr;;
      res_write (EvInfo "Dependencies installed successfully")
    else
      res_write (EvInfo "No package.json found, skipping dependency installation").

(** Step 5: run hub-setup.js. *)
Definition execute_setup_script (r : Run) : Srv unit :=
    res_write (EvStep 5 "Running hub-setup.js...");;
    executeCommandWithStream (sshService r) (runCmd r) None onStdout onStderr;;
    mret tt.

(** The stages of the inner [try], up to the last command. *)
Definition stages (r : Run) : Srv unit :=
    create_target_directory r;;
    downloadTool ← detect_transfer_tool r;
    fetch_archive r downloadTool;;
    verify_archive r;;
    extract_archive r;;
    install_dependencies r;;
    execute_setup_script r.

(** The body of the inner [try]. *)
Definition pipeline_body (r : Run) : Srv unit :=
    create_target_directory r;;
    downloadTool ← detect_transfer_tool r;
    fetch_archive r downloadTool;;
    verify_archive r;;
    extract_archive r;;
    install_dependencies r;;
    execute_setup_script r;;
    res_write (EvSuccess "Setup completed successfully!");;
    res_end.

(** The inner [try ... catch (error)]. *)
Definition run_pipeline (r : Run) : Srv unit :=
    try_catch (pipeline_body r)
              (fun error => res_write (EvError error);; res_end).

Definition download_and_run (req : Request) : Srv unit :=
    try_catch
      (if negb (Js.truthy (ip req)) || negb (Js.truthy (username req))
          || negb (Js.truthy (password req))
       then res_status_json 400 (JsonError "IP, username, and password are required")
       else
         let config := getDefaultRepoConfig in
         sshService ← getSSHService (ip req) (username req) (password req);
         ensure_connected sshService (ip req) (username req) (password req);;
         set_sse_headers;;
         run_pipeline
           {| sshService := sshService;
              hubBasePath := Js.or_else (basePath req) (cfg_basePath config);
              repoOwner := Js.or_else (owner req) (cfg_owner config);
              repoName := Js.or_else (repo req) (cfg_repo config);
              repoBranch := Js.or_else (branch req) (cfg_branch config) |})
      (fun error => res_status_json 500 (JsonError error)).

(** *** POST /api/ssh/execute-stream *)

(** The inner [try ... catch] and the [res.end()] after it. *)
Definition stream_command (sshService : nat) (command : string) (cwd : option string)
    : Srv unit :=
    try_catch
      (executeCommandWithStream sshService command cwd onStdout onStderr;;
       res_write (EvDone "Command completed"))
      (fun error => res_write (EvError error));;
    res_end.

Definition execute_stream (req : Request) : Srv unit :=
    try_catch
      (if negb (Js.truthy (ip req)) || negb (Js.truthy (username req))
          || negb (Js.truthy (password req)) || negb (Js.truthy (command req))
       then res_status_json 400
              (JsonError "IP, username, password, and command are required")
       else
         sshService ← getSSHService (ip req) (username req) (password req);
         ensure_connected sshService (ip req) (username req) (password req);;
         set_sse_headers;;
         res_write (EvConnected "Connected to hub");;
         stream_command sshService (command req) (cwd req))
      (fun error => res_status_json 500 (JsonError error)).

(** *** POST /api/ssh/connect *)

Definition ssh_connect (req : Request) : Srv unit :=
    try_catch
      (if negb (Js.truthy (ip req)) || negb (Js.truthy (username req))
          || negb (Js.truthy (password req))
       then res_status_json 400 (JsonError "IP, username, and password are required")
       else
         sshService ← getSSHService (ip req) (username req) (password req);
         connect sshService (ip req) (username req) (password req) 3;;
         res_json (JsonSuccess "Connected successfully"))
      (fun error => res_status_json 500 (JsonError error)).

(** *** POST /api/ssh/disconnect *)

Definition ssh_disconnect (req : Request) : Srv unit :=
    try_catch
      (if negb (Js.truthy (ip req)) || negb (Js.truthy (username req))
       then res_status_json 400 (JsonError "IP and username are required")
       else
         let key := ip req +:+ ":" +:+ username req in
         existing ← gets (fun s => activeConnections s !! key);
         match existing : option nat with
         | Some sshService =>
             disconnect sshService;;
             act (with_activeConnections (delete key))
         | None => mret tt
         end;;
         res_json (JsonSuccess "Disconnected successfully"))
      (fun error => res_status_json 500 (JsonError error)).

(** A request is served on a response object of its own. *)
Definition serve (handler : Request -> Srv unit) (req : Request) (s : Server Net)
    : Server Net :=
    fst (handler req (with_res (fun _ => fresh_response) s)).

End ServerHandlers.

(* ===================================================================== *)
(** ** The provisioning scripts *)
(* ===================================================================== *)

(** What both scripts use of the JavaScript runtime.
    [console_error_with label message] is [console.error(label, error)]
    for an [Error] object with the given message: the runtime prints the
    label, a space and the object as it renders it (its name, its message
    and its stack). *)
Class Runtime (St : Type) : Type := {
  console_log : string -> St -> St;
  console_error : string -> St -> St;
  console_error_with : string -> string -> St -> St;
  setTimeout_wait : Z -> St -> St;
}.

Definition RETRY_LIMIT : nat := 5.
Definition RETRY_DELAY_MS : Z := 3000.

(** *** The script that provisions the hub over SSH *)

Module Remote.

Section Retry.
Context {St : Type} {rt : Runtime St}.

    (** [reconnectIfNeeded], which [retry] calls before each new attempt.
        It is a parameter here because it calls [connectToRaspberryPi],
        which is itself a [retry]. *)
Variable reconnectIfNeeded : M St unit.

    (** The [catch (error)] block of [retry]: either rethrows or yields the
        incremented attempt counter. *)
Definition on_failure (retries attempts : nat) (error : string) : M St nat :=
      let attempts := S attempts in
      act (console_error_with ("Error occurred on attempt " +:+ Js.of_nat attempts
                                 +:+ ":") error);;
      if (retries <=? attempts)%nat then
        act (console_error "Max retry limit reached. Exiting.");;
        mthrow error
      else
        reconnectIfNeeded;;
        act (console_log ("Retrying in " +:+ pretty (RETRY_DELAY_MS / 1000)%Z
                            +:+ " seconds..."));;
        act (setTimeout_wait RETRY_DELAY_MS);;
        mret attempts.

    (** The [while (attempts < retries)] loop; [fuel] bounds its iterations.
        The result is [None] when the loop ends without running [fn]
        (the function then returns [undefined]). *)
Fixpoint retry_loop {A} (fn : M St A) (retries fuel attempts : nat)
      : M St (option A) :=
      match fuel with
      | 0 => mret None
      | S fuel' =>
          if (attempts <? retries)%nat then
            next ← try_catch (v ← fn; mret (inl v))
                             (fun error =>
                                attempts ← on_failure retries attempts error;
                                mret (inr attempts));
            match next : A + nat with
            | inl v => mret (Some v)
            | inr attempts => retry_loop fn retries fuel' attempts
            end
          else mret None
      end.

    (** [async function retry(fn, retries = RETRY_LIMIT)] *)
Definition retry {A} (fn : M St A) (retries : nat) : M St (option A) :=
      retry_loop fn retries retries 0.

End Retry.

(** State of the script: the outside world and what it printed and
    waited for. *)
Inductive Output : Type :=
  | Log (text : string)
  | Error (text : string)
  | Wait (ms : Z).

Record Script (Net : Type) : Type := mkScript {
    net : Net;
    output : list Output;
  }.
Arguments mkScript {Net}.
Arguments net {Net}.
Arguments output {Net}.

(** Of an [Error] object printed after a label, the record keeps the first
    line of its rendering, [Error: <message>]; the lines of the stack that
    follow it depend on the installation and are not recorded. *)
#[global] Instance script_runtime {Net} : Runtime (Script Net) := {
    console_log text s := mkScript (net s) (output s ++ [Log text]);
    console_error text s := mkScript (net s) (output s ++ [Error text]);
    console_error_with label message s :=
      mkScript (net s) (output s ++ [Error (label +:+ " Error: " +:+ message)]);
    setTimeout_wait ms s := mkScript (net s) (output s ++ [Wait ms]);
  }.

Section Script.
Context {Net : Type} {lib : NodeSSHLib Net}.

Abbreviation Scr := (M (Script Net)).

    (** The module-level [const ssh = new NodeSSH()]. *)
Definition ssh : nat := 0.

Definition lift_net {A} (m : M Net A) : Scr A :=
      fun s => let '(n, r) := m (net s) in (mkScript n (output s), r).

Definition MEDIA_HUB_IP : string := "10.1.4.215".

    (** [async function reconnectIfNeeded()], over the
        [connectToRaspberryPi] it calls. *)
Definition reconnectIfNeeded (connectToRaspberryPi : Scr unit) : Scr unit :=
      alive ← gets (fun s => nssh_isConnected ssh (net s));
      if (alive : bool) then mret tt
      else
        act (console_log "SSH connection lost. Attempting to reconnect...");;
        connectToRaspberryPi.

    (** The operation that [connectToRaspberryPi] retries. *)
Definition connect_operation : Scr unit :=
      act (console_log ("Connecting to Raspberry Pi at " +:+ MEDIA_HUB_IP +:+ "..."));;
      lift_net (nssh_connect ssh {| cfg_host := MEDIA_HUB_IP; cfg_username := "root";
                                    cfg_password := "keus123"; cfg_readyTimeout := None |});;
      act (console_log "Successfully connected to Raspberry Pi").

    (** [async function connectToRaspberryPi()].  The source nests these
        calls without bound ([retry] calls [reconnectIfNeeded], which calls
        [connectToRaspberryPi]); [depth] nestings are unfolded here and
        [beyond] stands for the calls nested deeper. *)
Fixpoint connectToRaspberryPi (beyond : Scr unit) (depth : nat) : Scr unit :=
      match depth with
      | 0 => beyond
      | S d =>
          retry (reconnectIfNeeded (connectToRaspberryPi beyond d))
                connect_operation RETRY_LIMIT;;
          mret tt
      end.

    (** The operation that [execCommandWithRetries] retries. *)
Definition exec_operation (command : string) (cwd : option string) : Scr string :=
      result ← lift_net (nssh_execCommand ssh command cwd);
      if Js.truthy (stderr result) then mthrow (stderr result)
      else mret (stdout result).

    (** [async function execCommandWithRetries(command, cwd = null)] *)
Definition execCommandWithRetries (reconnect : Scr unit)
               (command : string) (cwd : option string) : Scr (option string) :=
      retry reconnect (exec_operation command cwd) RETRY_LIMIT.

End Script.

End Remote.

(** *** The script that runs on the hub *)

Module Local.

(** Result of a [zx] command. *)
Record ProcessOutput : Type := mkOutput {
    stdout : string;
    stderr : string;
    exitCode : Z;
  }.

(** [$`sh -c ${command}`.nothrow()]: runs the command line in a shell and
    resolves with its output whatever the exit code. *)
Class ZxShell (Sh : Type) : Type := {
    sh_c_nothrow : string -> Sh -> Sh * ProcessOutput;
  }.

Section Retry.
Context {St : Type} {rt : Runtime St}.

Definition on_failure (retries attempts : nat) (error : string) : M St nat :=
      let attempts := S attempts in
      act (console_error_with ("Error occurred on attempt " +:+ Js.of_nat attempts
                                 +:+ ":") error);;
      if (retries <=? attempts)%nat then
        act (console_error "Max retry limit reached. Exiting.");;
        mthrow error
      else
        act (console_log ("Retrying in " +:+ pretty (RETRY_DELAY_MS / 1000)%Z
                            +:+ " seconds..."));;
        act (setTimeout_wait RETRY_DELAY_MS);;
        mret attempts.

Fixpoint retry_loop {A} (fn : M St A) (retries fuel attempts : nat)
      : M St (option A) :=
      match fuel with
      | 0 => mret None
      | S fuel' =>
          if (attempts <? retries)%nat then
            next ← try_catch (v ← fn; mret (inl v))
                             (fun error =>
                                attempts ← on_failure retries attempts error;
                                mret (inr attempts));
            match next : A + nat with
            | inl v => mret (Some v)
            | inr attempts => retry_loop fn retries fuel' attempts
            end
          else mret None
      end.

    (** [async function retry(fn, retries = RETRY_LIMIT)] *)
Definition retry {A} (fn : M St A) (retries : nat) : M St (option A) :=
      retry_loop fn retries retries 0.

End Retry.

Section Script.
Context {St : Type} {rt : Runtime St} {zx : ZxShell St}.

    (** The operation that [execCommandWithRetries] retries. *)
Definition exec_operation (command : string) (cwd : option string) : M St string :=
      fun s =>
        let '(s1, result) :=
          match cwd with
          | Some dir =>
              if Js.truthy dir then
                let fullCommand := "cd " +:+ dir +:+ " && " +:+ command in
                sh_c_nothrow fullCommand s
              else sh_c_nothrow command s
          | None => sh_c_nothrow command s
          end in
        if Js.truthy (stderr result) && negb (Z.eqb (exitCode result) 0)
        then (s1, Throw (stderr result))
        else (s1, Ok (stdout result)).

    (** [async function execCommandWithRetries(command, cwd = null)] *)
Definition execCommandWithRetries (command : string) (cwd : option string)
      : M St (option string) :=
      retry (exec_operation command cwd) RETRY_LIMIT.

End Script.

End Local.

(* ===================================================================== *)
(** ** A small concrete outside world, for running the model *)
(* ===================================================================== *)

Module Sim.

(** The state of the simulated world is the list of connected clients.  A
    connection is accepted when [accept] says so; a connected client gets
    [respond command] for every command; a client that is not connected is
    refused, as node-ssh does. *)
Definition sim_lib (accept : ConnectConfig -> bool) (respond : string -> Res CommandResult)
  : NodeSSHLib (list nat) :=
  {| nssh_connect c config net :=
       if accept config then (c :: net, Ok tt)
       else (List.filter (fun x => negb (Nat.eqb x c)) net,
             Throw "All configured authentication methods failed");
     nssh_isConnected c net := existsb (Nat.eqb c) net;
     nssh_execCommand c command cwd net :=
       if existsb (Nat.eqb c) net then (net, respond command)
       else (net, Throw "Not connected to server");
     nssh_dispose c net := List.filter (fun x => negb (Nat.eqb x c)) net |}.

Definition empty_server : Server (list nat) :=
  mkServer ∅ ∅ 0 [] [] fresh_response.

Definition nl : string := String (ascii_of_nat 10) EmptyString.

Definition request (ip username password : string) : Request :=
  mkRequest ip username password EmptyString None EmptyString EmptyString
            EmptyString EmptyString.

(** A hub on which every command succeeds silently and both probes
    answer. *)
Definition capable_hub (command : string) : Res CommandResult :=
  if String.eqb command "which curl" then Ok (mkResult ("/usr/bin/curl" +:+ nl) EmptyString 0)
  else if String.prefix "test -f" command then Ok (mkResult ("exists" +:+ nl) EmptyString 0)
  else Ok (mkResult EmptyString EmptyString 0).

End Sim.

(* ===================================================================== *)
(** ** Notions used in the statements *)
(* ===================================================================== *)

(** The state right after the library ran [command] on client [c] and left
    the outside world in [n]. *)
Definition exec_state {Net} (c : nat) (command : string) (cwd : option string)
           (n : Net) (s : Server Net) : Server Net :=
  with_net n (record_effect (SshExec c command cwd) s).

(** The chunks the stream executor hands to its callbacks for a library
    outcome: nothing when the call was rejected, otherwise the whole
    standard output, if not empty, then the whole standard error, if not
    empty. *)
Definition chunk_events (out : Res CommandResult) : list Event :=
  match out with
  | Ok r => (if Js.truthy (stdout r) then [EvStdout (stdout r)] else [])
            ++ (if Js.truthy (stderr r) then [EvStderr (stderr r)] else [])
  | Throw _ => []
  end.

Definition is_stdout (e : Event) : bool :=
  match e with EvStdout _ => true | _ => false end.

Definition is_stderr (e : Event) : bool :=
  match e with EvStderr _ => true | _ => false end.

(** Writes a list of events in order. *)
Definition write_all {Net} (evs : list Event) (s : Server Net) : Server Net :=
  fold_left (fun s e => write e s) evs s.

(** The events that close a run. *)
Definition is_terminal (e : Event) : bool :=
  match e with
  | EvSuccess _ | EvError _ | EvDone _ => true
  | _ => false
  end.

(** In a sequence of events, nothing follows a terminal event. *)
Definition terminal_is_last (evs : list Event) : Prop :=
  forall pre e post, evs = pre ++ e :: post -> is_terminal e = true -> post = [].

(** From [s] to [s'] the event stream only grew, by events that are not
    terminal. *)
Definition appends {Net} (s s' : Server Net) : Prop :=
  exists evs, written (res s') = written (res s) ++ evs
              /\ Forall (fun e => is_terminal e = false) evs.

(** A computation that writes no terminal event, whatever its outcome. *)
Definition progress {Net A} (m : M (Server Net) A) : Prop :=
  forall s, appends s (fst (m s)).

(** From [s0] to [s'] the stream grew by events that are not terminal and
    then by exactly one terminal event. *)
Definition closed_once {Net} (s0 s' : Server Net) : Prop :=
  exists evs t, written (res s') = written (res s0) ++ evs ++ [t]
                /\ Forall (fun e => is_terminal e = false) evs
                /\ is_terminal t = true.

(** A computation that, when it returns, has either written no terminal
    event or closed the stream once, and that has written no terminal event
    when it throws. *)
Definition finishes {Net A} (m : M (Server Net) A) : Prop :=
  forall s, match m s with
            | (s', Ok _) => appends s s' \/ closed_once s s'
            | (s', Throw _) => appends s s'
            end.

(** What the server concludes from the outcome of an existence probe: the
    file is there when the probe completed and its standard output contains
    the word exists; a rejected probe counts as an absent file. *)
Definition probe_says_exists (out : Res CommandResult) : bool :=
  match out with
  | Ok r => Js.includes (stdout r) "exists"
  | Throw _ => false
  end.

Section Prefixes.
Context {Net : Type} {lib : NodeSSHLib Net}.

(** The stages that come before the download, the verification, the
    extraction, the installation and the setup script. *)
Definition reach_fetch (r : Run) : M (Server Net) string :=
  create_target_directory r;; detect_transfer_tool r.

Definition reach_verify (r : Run) : M (Server Net) unit :=
  downloadTool ← reach_fetch r; fetch_archive r downloadTool.

Definition reach_extract (r : Run) : M (Server Net) unit :=
  reach_verify r;; verify_archive r.

Definition reach_install (r : Run) : M (Server Net) unit :=
  reach_extract r;; extract_archive r.

Definition reach_setup (r : Run) : M (Server Net) unit :=
  reach_install r;; install_dependencies r.

(** [aborted r s s' e]: in a run from [s], some stage threw [e] and left the
    state [s'], all stages before it having returned. *)
Inductive aborted (r : Run) (s : Server Net) : Server Net -> string -> Prop :=
| abort_create s' e :
    create_target_directory r s = (s', Throw e) -> aborted r s s' e
| abort_detect s0 s' e :
    create_target_directory r s = (s0, Ok tt) ->
    detect_transfer_tool r s0 = (s', Throw e) -> aborted r s s' e
| abort_fetch s0 tool s' e :
    reach_fetch r s = (s0, Ok tool) ->
    fetch_archive r tool s0 = (s', Throw e) -> aborted r s s' e
| abort_verify s0 s' e :
    reach_verify r s = (s0, Ok tt) ->
    verify_archive r s0 = (s', Throw e) -> aborted r s s' e
| abort_extract s0 s' e :
    reach_extract r s = (s0, Ok tt) ->
    extract_archive r s0 = (s', Throw e) -> aborted r s s' e
| abort_install s0 s' e :
    reach_install r s = (s0, Ok tt) ->
    install_dependencies r s0 = (s', Throw e) -> aborted r s s' e
| abort_setup s0 s' e :
    reach_setup r s = (s0, Ok tt) ->
    execute_setup_script r s0 = (s', Throw e) -> aborted r s s' e.

End Prefixes.

Section Sessions.
Context {Net : Type} {lib : NodeSSHLib Net}.

(** The first lines of every handler that runs a command: get the session
    of the key, and connect it unless it reports to be connected.  This is
    how the handlers obtain the session they use. *)
Definition acquire_session (ip username password : string) : M (Server Net) nat :=
  sshService ← getSSHService ip username password;
  ensure_connected sshService ip username password;;
  mret sshService.

(** The same for the handler of POST /api/ssh/connect, which calls
    [connect] whatever the session reports. *)
Definition open_session (ip username password : string) : M (Server Net) nat :=
  sshService ← getSSHService ip username password;
  connect sshService ip username password 3;;
  mret sshService.

(** The liveness probe of the session object [this] reports a connected
    client. *)
Definition healthy (s : Server Net) (this : nat) : Prop :=
  exists o, heap s !! this = Some o /\ nssh_isConnected (ssh o) (net s) = true.

End Sessions.

(** The state right after the client [c] has been disposed. *)
Definition disposed {Net} {lib : NodeSSHLib Net} (c : nat) (s : Server Net)
  : Server Net :=
  with_net (nssh_dispose c (net s)) (record_effect (SshDispose c) s).

(** The state after [this.connections.delete(key)]. *)
Definition forgotten {Net} (this : nat) (key : string) (s : Server Net) : Server Net :=
  with_heap (alter (fun o => mkService (ssh o) (delete key (connections o))) this) s.

(** Counting the calls of [retry]: the state is paired with the number of
    times the operation and the recovery hook have been entered.  The
    operation and the hook still act on the state alone; the runtime of the
    pair prints and waits on its first component. *)
Module Spy.

Section Counting.
Context {St : Type} {rt : Runtime St}.

Record Calls : Type := mkCalls { operations : nat; recoveries : nat }.

#[global] Instance counted_runtime : Runtime (St * Calls) := {
  console_log text sc := (console_log text (fst sc), snd sc);
  console_error text sc := (console_error text (fst sc), snd sc);
  console_error_with label message sc :=
    (console_error_with label message (fst sc), snd sc);
  setTimeout_wait ms sc := (setTimeout_wait ms (fst sc), snd sc);
}.

Definition counted_operation {A} (fn : M St A) : M (St * Calls) A :=
  fun sc =>
    let '(s1, r) := fn (fst sc) in
    ((s1, mkCalls (S (operations (snd sc))) (recoveries (snd sc))), r).

Definition counted_hook (hook : M St unit) : M (St * Calls) unit :=
  fun sc =>
    let '(s1, r) := hook (fst sc) in
    ((s1, mkCalls (operations (snd sc)) (S (recoveries (snd sc)))), r).

End Counting.

End Spy.

(** A second simulated world, for the provisioning script: one client whose
    connection attempts succeed or fail as a script of booleans says (and
    fail once the script is used up), and a hub that answers every command
    of a connected client with the same result.  A failed attempt leaves
    the client disconnected. *)
Module Flaky.

Record World : Type := mkWorld {
  up : bool;
  attempts_to_come : list bool;
}.

Definition flaky_lib (answer : CommandResult) : NodeSSHLib World :=
  {| nssh_connect c config w :=
       match attempts_to_come w with
       | true :: rest => (mkWorld true rest, Ok tt)
       | false :: rest => (mkWorld false rest, Throw "connect ETIMEDOUT")
       | [] => (mkWorld false [], Throw "connect ETIMEDOUT")
       end;
     nssh_isConnected c w := up w;
     nssh_execCommand c command cwd w :=
       if up w then (w, Ok answer) else (w, Throw "Not connected to server");
     nssh_dispose c w := mkWorld false (attempts_to_come w) |}.

End Flaky.

(** Concrete runs in the simulated world. *)
Module Scenario.

(** The library in which every connection is accepted and the hub answers
    as [respond] says. *)
Definition lib_of (respond : string -> Res CommandResult) : NodeSSHLib (list nat) :=
  Sim.sim_lib (fun _ => true) respond.

(** The run of a request with the default repository. *)
Definition run0 : Run :=
  {| sshService := 1; hubBasePath := "/data/hub-setup"; repoOwner := "rahul-keus";
     repoName := "media-hub-setup"; repoBranch := "main" |}.

Definition silent : Res CommandResult := Ok (mkResult EmptyString EmptyString 0).

(** A capable hub, except for the commands listed in [special]. *)
Definition hub (special : list (string * Res CommandResult)) (command : string)
  : Res CommandResult :=
  match find (fun p => String.eqb (fst p) command) special with
  | Some p => snd p
  | None => Sim.capable_hub command
  end.

(** The download tool exits with 0 but leaves no archive. *)
Definition hub_without_archive : string -> Res CommandResult :=
  hub [(test_f_command (archivePath run0), Ok (mkResult EmptyString EmptyString 1))].

(** The extracted directory has no [package.json]. *)
Definition hub_without_manifest : string -> Res CommandResult :=
  hub [(test_f_command (extractedDir run0 +:+ "/package.json"),
        Ok (mkResult EmptyString EmptyString 1))].



(** Every command prints a listing and a warning. *)
Definition hub_chatty (command : string) : Res CommandResult :=
  Ok (mkResult "bin etc usr" "warning: locale not set" 0).

Definition req0 : Request := Sim.request "10.1.4.215" "root" "x".

(** The server after a first request has obtained its session. *)
Definition connected (respond : string -> Res CommandResult) : Server (list nat) :=
  fst (acquire_session (lib := lib_of respond) "10.1.4.215" "root" "x" Sim.empty_server).

(** The server after a request to the connect handler followed by a call of
    the [disconnect] method of the session object. *)
Definition dropped : Server (list nat) :=
  fst (disconnect (lib := lib_of Sim.capable_hub) 1
         (fst (open_session (lib := lib_of Sim.capable_hub)
                 "10.1.4.215" "root" "x" Sim.empty_server))).

(** A state of the provisioning script whose connection is lost and whose
    next connection attempts fail and succeed in turn. *)
Definition flapping : Remote.Script Flaky.World :=
  Remote.mkScript
    (Flaky.mkWorld false [false; true; false; true; false; true; false; true; false])
    [].

(** A hub that answers every command with a warning on standard error and
    exit code 0. *)
Definition warning_answer : CommandResult :=
  mkResult "added 1 package" "npm WARN deprecated" 0.

(** A runtime that only keeps what is printed. *)
#[global] Instance printing : Runtime (list string) := {
  console_log text out := out ++ [text];
  console_error text out := out ++ [text];
  console_error_with label message out := out ++ [label +:+ " Error: " +:+ message];
  setTimeout_wait ms out := out;
}.

End Scenario.



Definition is_connect (e : Effect) : bool :=
  match e with SshConnect _ _ => true | _ => false end.

Definition is_sleep (e : Effect) : bool :=
  match e with Sleep _ => true | _ => false end.

(* ===================================================================== *)
(** ** Further notions: probes, step ordinals, objects *)
(* ===================================================================== *)

(** What [detectDownloadTool] concludes from the outcome of a [which]
    probe: the tool is there when the probe completed with exit code 0 and
    a standard output that is not blank. *)
Definition probe_found (out : Res CommandResult) : bool :=
  match out with
  | Ok r => Z.eqb (code r) 0 && Js.truthy (Js.trim (stdout r))
  | Throw _ => false
  end.

(** The state a handler leaves when it answers with a status and a JSON
    body. *)
Definition answered {Net} (status : nat) (body : Json) (s : Server Net) : Server Net :=
  with_res (fun r => mkResponse status (headers r) (Some body) (written r) true) s.

(** No entry of the session object can be reused for the key: there is
    none, or its client is not connected. *)
Definition nothing_to_reuse {Net} {lib : NodeSSHLib Net}
           (o : SSHService) (key : string) (n : Net) : Prop :=
  match connections o !! key with
  | Some c => nssh_isConnected c n = false
  | None => True
  end.

(** Further concrete runs. *)
Module Scenario2.

(** The library of a hub that rejects every connection. *)
Definition unreachable : NodeSSHLib (list nat) :=
  Sim.sim_lib (fun _ => false) Sim.capable_hub.

(** The server with a session object for the key that has never been
    connected. *)
Definition registered : Server (list nat) :=
  fst (getSSHService "10.1.4.215" "root" "x" Sim.empty_server).

End Scenario2.

(** The ordinals of the step events of a sequence, in order. *)
Definition steps_of (evs : list Event) : list nat :=
  List.flat_map (fun e => match e with EvStep n _ => [n] | _ => [] end) evs.

(** A computation that adds to the event stream only events that satisfy
    [P], whatever its outcome. *)
Definition only_writes {Net A} (P : Event -> Prop) (m : M (Server Net) A) : Prop :=
  forall s, exists evs, written (res (fst (m s))) = written (res s) ++ evs
                        /\ Forall P evs.

(** The events of the standard streams of a command. *)
Definition is_chunk (e : Event) : Prop :=
  match e with EvStdout _ | EvStderr _ => True | _ => False end.

(** The events that are neither a step nor terminal. *)
Definition is_note (e : Event) : Prop :=
  match e with
  | EvStep _ _ | EvSuccess _ | EvError _ | EvDone _ => False
  | _ => True
  end.

(** A computation that announces the steps [l]: it adds notes and, in
    order, step events whose ordinals are [l] when it returns, and a
    beginning of [l] when it throws. *)
Definition announces {Net A} (l : list nat) (m : M (Server Net) A) : Prop :=
  forall s, exists evs rest,
    written (res (fst (m s))) = written (res s) ++ evs
    /\ Forall (fun e => is_terminal e = false) evs
    /\ l = steps_of evs ++ rest
    /\ (forall a, snd (m s) = Ok a -> rest = []).

(** A computation of a handler whose step events are a beginning of [l],
    and all of [l] when the last event it wrote is the success event. *)
Definition reports {Net A} (l : list nat) (m : M (Server Net) A) : Prop :=
  forall s, exists evs rest,
    written (res (fst (m s))) = written (res s) ++ evs
    /\ l = steps_of evs ++ rest
    /\ (last evs = Some (EvSuccess "Setup completed successfully!") -> rest = []).

(** Every entry of the session object holds the client of the object: the
    constructor makes one client, and [connect] only ever records
    [this.ssh]. *)
Definition aliased (o : SSHService) : Prop :=
  forall key c, connections o !! key = Some c -> c = ssh o.

(** The registry and the session objects fit together: every registered
    session exists, identities are below the next fresh one, no session is
    registered under two keys, no client belongs to two sessions, and the
    entries of every session are its own client. *)
Record registry_ok {Net} (s : Server Net) : Prop := mkRegistryOk {
  ok_registered :
    forall key this, activeConnections s !! key = Some this -> is_Some (heap s !! this);
  ok_fresh :
    forall this o, heap s !! this = Some o -> this < nextId s /\ ssh o < nextId s;
  ok_one_key :
    forall k1 k2 this,
      activeConnections s !! k1 = Some this -> activeConnections s !! k2 = Some this ->
      k1 = k2;
  ok_one_session :
    forall t1 t2 o1 o2,
      heap s !! t1 = Some o1 -> heap s !! t2 = Some o2 -> ssh o1 = ssh o2 -> t1 = t2;
  ok_aliased :
    forall this o, heap s !! this = Some o -> aliased o;
}.

(** From [s] to [s'] the registry and the identities are the same, and
    every session object is still there; an object whose entries were its
    own client has kept that client and all its entries. *)
Definition evolves {Net} (s s' : Server Net) : Prop :=
  activeConnections s' = activeConnections s
  /\ nextId s' = nextId s
  /\ forall this,
      match heap s !! this with
      | Some o =>
          exists o', heap s' !! this = Some o'
                     /\ (aliased o ->
                         ssh o' = ssh o /\ aliased o'
                         /\ forall key c, connections o !! key = Some c ->
                                          connections o' !! key = Some c)
      | None => heap s' !! this = None
      end.

Definition evolving {Net A} (m : M (Server Net) A) : Prop :=
  forall s, evolves s (fst (m s)).

(** A computation that keeps the registry well formed. *)
Definition keeps_ok {Net A} (m : M (Server Net) A) : Prop :=
  forall s, registry_ok s -> registry_ok (fst (m s)).

(** The endpoints of the server that use the session registry. *)
Inductive endpoint {Net} {lib : NodeSSHLib Net} : (Request -> M (Server Net) unit) -> Prop :=
| endpoint_download_and_run : endpoint download_and_run
| endpoint_execute_stream : endpoint execute_stream
| endpoint_ssh_connect : endpoint ssh_connect
| endpoint_ssh_disconnect : endpoint ssh_disconnect.

(** The states of a server that started with [const activeConnections = new
    Map()] and has since served requests on those endpoints, while the
    network changed as it liked between them. *)
Inductive reachable {Net} {lib : NodeSSHLib Net} : Server Net -> Prop :=
| reachable_start (net0 : Net) :
    reachable (mkServer ∅ ∅ 0 net0 [] fresh_response)
| reachable_serve (handler : Request -> M (Server Net) unit) (req : Request) (s : Server Net) :
    reachable s -> endpoint handler -> reachable (serve handler req s)
| reachable_network (n : Net) (s : Server Net) :
    reachable s -> reachable (with_net n s).

Module Scenario3.

(** A second hub on the same network. *)
Definition req1 : Request := Sim.request "10.1.4.216" "pi" "y".

(** The server after the connect handler has served a request for each of
    two hubs. *)
Definition two_hubs : Server (list nat) :=
  serve (ssh_connect (lib := Scenario.lib_of Sim.capable_hub)) req1
    (serve (ssh_connect (lib := Scenario.lib_of Sim.capable_hub)) Scenario.req0
       Sim.empty_server).

End Scenario3.

(** A runtime that adds up the pauses of the script, whatever else the
    runtime under it does with them. *)
Module Meter.

Section Metering.
Context {St : Type} {rt : Runtime St}.

#[global] Instance metered_runtime : Runtime (St * Z) := {
  console_log text sw := (console_log text (fst sw), snd sw);
  console_error text sw := (console_error text (fst sw), snd sw);
  console_error_with label message sw :=
    (console_error_with label message (fst sw), snd sw);
  setTimeout_wait ms sw := (setTimeout_wait ms (fst sw), (snd sw + ms)%Z);
}.

Definition metered {A} (fn : M St A) : M (St * Z) A :=
  fun sw => let '(s1, r) := fn (fst sw) in ((s1, snd sw), r).

End Metering.

End Meter.

(** A computation every run of which stays within the relation [R] between
    the state before and the state after, whatever its outcome. *)
Definition within {Net A} (R : Server Net -> Server Net -> Prop)
           (m : M (Server Net) A) : Prop :=
  forall s, R s (fst (m s)).

(** Relations between states that only look at the response. *)
Class ResOnly {Net} (R : Server Net -> Server Net -> Prop) : Prop :=
  res_only : forall s s', res s' = res s -> R s s'.

(** Relations that allow an event to be written. *)
Class Streaming {Net} (R : Server Net -> Server Net -> Prop) : Prop :=
  streaming : forall e s, R s (write e s).

(** The response is as it was. *)
Definition same_res {Net} (s s' : Server Net) : Prop := res s' = res s.

(** The response is as it was, but for the events written. *)
Definition same_head {Net} (s s' : Server Net) : Prop :=
  statusCode (res s') = statusCode (res s)
  /\ headers (res s') = headers (res s)
  /\ json (res s') = json (res s)
  /\ ended (res s') = ended (res s).

(** The headers of an event stream. *)
Definition sse_headers : list (string * string) :=
  [("Content-Type", "text/event-stream"); ("Cache-Control", "no-cache");
   ("Connection", "keep-alive")].

(** A response that has been ended in one of the two forms of the server:
    with a JSON body and status 200, 400 or 500, no header of the handler
    and no event; or as an event stream with status 200 and the stream
    headers, in which exactly one event is terminal, the last one. *)
Definition ended_in_one_form (r : Response) : Prop :=
  ended r = true
  /\ ((exists body, json r = Some body /\ written r = [] /\ headers r = []
                    /\ (statusCode r = 200 \/ statusCode r = 400 \/ statusCode r = 500))
      \/ (json r = None /\ statusCode r = 200 /\ headers r = sse_headers
          /\ exists evs t, written r = evs ++ [t] /\ is_terminal t = true
                           /\ Forall (fun e => is_terminal e = false) evs)).

(** The session object [this] has the client [c], under all its keys. *)
Definition serves {Net} (c this : nat) (s : Server Net) : Prop :=
  exists o, heap s !! this = Some o /\ ssh o = c /\ aliased o.

(** A call of the library on the client [c], or no call of the library. *)
Definition uses (c : nat) (e : Effect) : Prop :=
  match e with
  | SshConnect c' _ | SshExec c' _ _ | SshDispose c' => c' = c
  | Sleep _ => True
  end.

(** A computation that, run on a session object with client [c], keeps
    that client and calls the library on that client only. *)
Definition on_client {Net A} (c this : nat) (m : M (Server Net) A) : Prop :=
  forall s, serves c this s ->
            serves c this (fst (m s))
            /\ exists effs, effects (fst (m s)) = effects s ++ effs
                            /\ Forall (uses c) effs.

(** The client of the session that a request for [key] gets in state [s]:
    the client of the registered session, or the next fresh client. *)
Definition session_client {Net} (s : Server Net) (key : string) : nat :=
  match activeConnections s !! key with
  | Some this => match heap s !! this with
                 | Some o => ssh o
                 | None => nextId s
                 end
  | None => nextId s
  end.

(** More of JavaScript's strings, for the provisioning script. *)
Module JsString.

(** The line feed of ['\n']. *)
Definition LF : ascii := ascii_of_nat 10.

(** [s.split(sep)] for a separator of one character. *)
Fixpoint split (sep : ascii) (s : string) : list string :=
  match s with
  | EmptyString => [EmptyString]
  | String c rest =>
      if Ascii.eqb c sep then EmptyString :: split sep rest
      else match split sep rest with
           | l :: ls => String c l :: ls
           | [] => [String c EmptyString]
           end
  end.

(** [array.includes(x)] on strings. *)
Definition array_includes (l : list string) (x : string) : bool :=
  existsb (String.eqb x) l.

(** [lines.join('\n')] *)
Fixpoint join (lines : list string) : string :=
  match lines with
  | [] => EmptyString
  | [l] => l
  | l :: rest => l +:+ String LF (join rest)
  end.

(** A string without a line feed. *)
Fixpoint single_line (s : string) : bool :=
  match s with
  | EmptyString => true
  | String c rest => negb (Ascii.eqb c LF) && single_line rest
  end.

(** [`${error}`] for an [Error] with the given message. *)
Definition error_text (message : string) : string :=
  if Js.truthy message then "Error: " +:+ message else "Error".

End JsString.

(** The probes and the network set-up of the provisioning script. *)
Module RemoteTools.

Section Tools.
Context {Net : Type} {lib : NodeSSHLib Net}.

(** [reconnectIfNeeded], as in [Remote]. *)
Variable reconnectIfNeeded : M (Remote.Script Net) unit.

Definition package_probe (packageName : string) : M (Remote.Script Net) bool :=
  result ← Remote.lift_net
             (nssh_execCommand Remote.ssh
                ("npm list -g --depth=0 | grep " +:+ packageName) None);
  mret (Js.includes (stdout result) packageName).

(** [async function checkPackageInstalled(packageName)] *)
Definition checkPackageInstalled (packageName : string)
  : M (Remote.Script Net) (option bool) :=
  Remote.retry reconnectIfNeeded (package_probe packageName) RETRY_LIMIT.

Definition file_probe (remotePath : string) : M (Remote.Script Net) bool :=
  result ← Remote.lift_net
             (nssh_execCommand Remote.ssh
                ("test -f " +:+ remotePath +:+ " && echo " +:+ dq +:+ "File exists" +:+ dq)
                None);
  mret (Js.includes (stdout result) "File exists").

(** [async function checkFileExists(remotePath)] *)
Definition checkFileExists (remotePath : string)
  : M (Remote.Script Net) (option bool) :=
  Remote.retry reconnectIfNeeded (file_probe remotePath) RETRY_LIMIT.

Definition list_networks : string :=
  "podman network ls --format " +:+ dq +:+ "{{.Name}}" +:+ dq.

(** [async function createNetworkIfNotExists(networkName)] *)
Definition createNetworkIfNotExists (networkName : string) : M (Remote.Script Net) unit :=
  try_catch
    (existingNetworks ← Remote.lift_net (nssh_execCommand Remote.ssh list_networks None);
     if JsString.array_includes
          (JsString.split JsString.LF (stdout existingNetworks)) networkName
     then
       act (console_log ("Network " +:+ dq +:+ networkName +:+ dq +:+ " already exists."))
     else
       act (console_log ("Creating network " +:+ dq +:+ networkName +:+ dq +:+ "..."));;
       Remote.execCommandWithRetries reconnectIfNeeded
         ("podman network create " +:+ networkName) None;;
       act (console_log ("Network " +:+ dq +:+ networkName +:+ dq
                           +:+ " created successfully.")))
    (fun error =>
       act (console_error ("Failed to create or check network: "
                             +:+ JsString.error_text error))).

End Tools.

End RemoteTools.

Module Scenario4.

(** A hub that lists two networks and answers every other command
    silently. *)
Definition podman_hub : string -> Res CommandResult :=
  Scenario.hub
    [(RemoteTools.list_networks,
      Ok (mkResult ("podman" +:+ Sim.nl +:+ "kiotp-network") EmptyString 0))].

(** The provisioning script with its client connected. *)
Definition online : Remote.Script (list nat) := Remote.mkScript [0] [].

End Scenario4.


(* ===================================================================== *)
(** * Properties *)
(* ===================================================================== *)

Example includes_exists :
  Js.includes ("exists" +:+ String (ascii_of_nat 10) EmptyString) "exists" = true.
Proof. reflexivity. Qed.

Example includes_empty : Js.includes EmptyString "exists" = false.
Proof. reflexivity. Qed.

Example trim_blank :
  Js.truthy (Js.trim ("  " +:+ String (ascii_of_nat 10) EmptyString)) = false.
Proof. reflexivity. Qed.

Example trim_path : Js.trim " /usr/bin/curl " = "/usr/bin/curl".
Proof. reflexivity. Qed.

Example of_nat_5 : Js.of_nat 5 = "5".
Proof. reflexivity. Qed.

Example mkdir_command :
  generateMkdirCommand "/data/hub-setup"
  = "mkdir -p " +:+ String (ascii_of_nat 34) ("/data/hub-setup" +:+ dq).
Proof. reflexivity. Qed.

(* ===================================================================== *)
(** ** Reasoning about computations *)
(* ===================================================================== *)

Section Monad.
Context {S : Type}.

Lemma bind_ok {A B} (m : M S A) (k : A -> M S B) s s1 a :
  m s = (s1, Ok a) -> (m ≫= k) s = k a s1.
Proof. intros H. unfold mbind, M_bind. now rewrite H. Qed.

Lemma bind_throw {A B} (m : M S A) (k : A -> M S B) s s1 e :
  m s = (s1, Throw e) -> (m ≫= k) s = (s1, Throw e).
Proof. intros H. unfold mbind, M_bind. now rewrite H. Qed.

Lemma bind_act {B} (f : S -> S) (k : unit -> M S B) s :
  (act f ≫= k) s = k tt (f s).
Proof. reflexivity. Qed.

Lemma bind_gets {A B} (f : S -> A) (k : A -> M S B) s :
  (gets f ≫= k) s = k (f s) s.
Proof. reflexivity. Qed.

Lemma bind_ret {A B} (a : A) (k : A -> M S B) s :
  (mret a ≫= k) s = k a s.
Proof. reflexivity. Qed.

Lemma bind_assoc {A B C} (m : M S A) (k : A -> M S B) (h : B -> M S C) s :
  ((m ≫= k) ≫= h) s = (m ≫= (fun a => k a ≫= h)) s.
Proof. unfold mbind, M_bind. destruct (m s) as [s1 [a|e]]; reflexivity. Qed.

Lemma try_catch_ok {A} (m : M S A) h s s1 a :
  m s = (s1, Ok a) -> try_catch m h s = (s1, Ok a).
Proof. intros H. unfold try_catch. now rewrite H. Qed.

Lemma try_catch_throw {A} (m : M S A) h s s1 e :
  m s = (s1, Throw e) -> try_catch m h s = h e s1.
Proof. intros H. unfold try_catch. now rewrite H. Qed.

End Monad.

(** Unfolds the monad operations so that a run on a known state computes. *)
Ltac run_m :=
  unfold mbind, M_bind, mret, M_ret, mthrow, M_throw, act, gets, try_catch; simpl.

(* ===================================================================== *)
(** ** The methods of SSHService *)
(* ===================================================================== *)

Section SSHServiceFacts.
Context {Net : Type} {lib : NodeSSHLib Net}.
Implicit Type s : Server Net.

Lemma deref_run s this o :
  heap s !! this = Some o -> deref this s = (s, Ok o).
Proof. intros H. unfold deref. now rewrite H. Qed.

Lemma client_execCommand_run s c command cwd n out :
  nssh_execCommand c command cwd (net s) = (n, out) ->
  client_execCommand c command cwd s = (exec_state c command cwd n s, out).
Proof.
  intros H. unfold client_execCommand, lift_net. run_m. now rewrite H.
Qed.

Lemma executeCommand_run s this o command cwd n out :
  heap s !! this = Some o ->
  nssh_execCommand (ssh o) command cwd (net s) = (n, out) ->
  executeCommand this command cwd s = (exec_state (ssh o) command cwd n s, out).
Proof.
  intros Ho Hx. unfold executeCommand.
  rewrite (bind_ok _ _ _ _ _ (deref_run _ _ _ Ho)).
  destruct out as [[so se c]|e].
  - now rewrite (bind_ok _ _ _ _ _ (client_execCommand_run _ _ _ _ _ _ Hx)).
  - now rewrite (bind_throw _ _ _ _ _ (client_execCommand_run _ _ _ _ _ _ Hx)).
Qed.

Lemma executeCommandWithStream_run s this o command cwd n out :
  heap s !! this = Some o ->
  nssh_execCommand (ssh o) command cwd (net s) = (n, out) ->
  executeCommandWithStream this command cwd onStdout onStderr s
  = (write_all (chunk_events out) (exec_state (ssh o) command cwd n s),
     match out with Ok r => Ok (code r) | Throw e => Throw e end).
Proof.
  intros Ho Hx. unfold executeCommandWithStream.
  rewrite (bind_ok _ _ _ _ _ (deref_run _ _ _ Ho)).
  destruct out as [r|e].
  - rewrite (bind_ok _ _ _ _ _ (client_execCommand_run _ _ _ _ _ _ Hx)).
    unfold chunk_events, deliver, onStdout, onStderr, res_write.
    destruct (Js.truthy (stdout r)), (Js.truthy (stderr r)); reflexivity.
  - now rewrite (bind_throw _ _ _ _ _ (client_execCommand_run _ _ _ _ _ _ Hx)).
Qed.

End SSHServiceFacts.

(* ===================================================================== *)
(** ** Writing to the event stream *)
(* ===================================================================== *)

Section EventStream.
Context {Net : Type}.
Implicit Type s : Server Net.

Lemma written_write_all evs s :
  written (res (write_all evs s)) = written (res s) ++ evs.
Proof.
  revert s. induction evs as [|e evs IH]; intros s; simpl.
  - now rewrite app_nil_r.
  - rewrite IH. simpl. now rewrite <- app_assoc.
Qed.

Lemma effects_write_all evs s : effects (write_all evs s) = effects s.
Proof. revert s. induction evs as [|e evs IH]; intros s; simpl; [|rewrite IH]; reflexivity. Qed.

Lemma heap_write_all evs s : heap (write_all evs s) = heap s.
Proof. revert s. induction evs as [|e evs IH]; intros s; simpl; [|rewrite IH]; reflexivity. Qed.

Lemma net_write_all evs s : net (write_all evs s) = net s.
Proof. revert s. induction evs as [|e evs IH]; intros s; simpl; [|rewrite IH]; reflexivity. Qed.

Lemma activeConnections_write_all evs s :
  activeConnections (write_all evs s) = activeConnections s.
Proof. revert s. induction evs as [|e evs IH]; intros s; simpl; [|rewrite IH]; reflexivity. Qed.

Lemma ended_write_all evs s : ended (res (write_all evs s)) = ended (res s).
Proof. revert s. induction evs as [|e evs IH]; intros s; simpl; [|rewrite IH]; reflexivity. Qed.

End EventStream.

Section StreamExecutor.
Context {Net : Type} {lib : NodeSSHLib Net}.

(** C9.  The stream executor calls [onStdout] and [onStderr] at most once
    each, and only once the library call for the command has completed:
    from the state the completed call leaves, it hands the whole standard
    output to [onStdout] if that text is not empty, then the whole standard
    error to [onStderr] if that text is not empty, and resolves with the
    exit code.  When the call is rejected no callback runs.  With the
    callbacks of the server, the events added to the stream are therefore at
    most one [stdout] and at most one [stderr] record. *)
Theorem C9_stream_callbacks_once_after_completion :
  forall (this : nat) (command : string) (cwd : option string)
         (f g : string -> M (Server Net) unit) (s : Server Net)
         (o : SSHService) (n : Net) (out : Res CommandResult),
    heap s !! this = Some o ->
    nssh_execCommand (ssh o) command cwd (net s) = (n, out) ->
    let s1 := exec_state (ssh o) command cwd n s in
    executeCommandWithStream this command cwd (Some f) (Some g) s
    = match out with
      | Throw e => (s1, Throw e)
      | Ok r =>
          ((if Js.truthy (stdout r) then f (stdout r) else mret tt);;
           (if Js.truthy (stderr r) then g (stderr r) else mret tt);;
           mret (code r)) s1
      end
    /\ written (res (fst (executeCommandWithStream this command cwd onStdout onStderr s)))
       = written (res s) ++ chunk_events out
    /\ length (List.filter is_stdout (chunk_events out)) <= 1
    /\ length (List.filter is_stderr (chunk_events out)) <= 1.
Proof.
  intros this command cwd f g s o n out Ho Hx s1. split; [|split; [|split]].
  - unfold executeCommandWithStream.
    rewrite (bind_ok _ _ _ _ _ (deref_run _ _ _ Ho)).
    destruct out as [r|e].
    + now rewrite (bind_ok _ _ _ _ _ (client_execCommand_run _ _ _ _ _ _ Hx)).
    + now rewrite (bind_throw _ _ _ _ _ (client_execCommand_run _ _ _ _ _ _ Hx)).
  - rewrite (executeCommandWithStream_run _ _ _ _ _ _ _ Ho Hx). simpl.
    now rewrite written_write_all.
  - destruct out as [r|e]; simpl; [|lia].
    destruct (Js.truthy (stdout r)), (Js.truthy (stderr r)); simpl; lia.
  - destruct out as [r|e]; simpl; [|lia].
    destruct (Js.truthy (stdout r)), (Js.truthy (stderr r)); simpl; lia.
Qed.

End StreamExecutor.

(* ===================================================================== *)
(** ** Computations that write no terminal event *)
(* ===================================================================== *)

Section Progress.
Context {Net : Type} {lib : NodeSSHLib Net}.
Implicit Type s : Server Net.

Lemma appends_refl s : appends s s.
Proof. exists []. split; [now rewrite app_nil_r | constructor]. Qed.

Lemma appends_trans s1 s2 s3 : appends s1 s2 -> appends s2 s3 -> appends s1 s3.
Proof.
  intros (e1 & H1 & F1) (e2 & H2 & F2). exists (e1 ++ e2). split.
  - rewrite H2, H1. now rewrite <- app_assoc.
  - apply Forall_app; auto.
Qed.

Lemma appends_same s s' : written (res s') = written (res s) -> appends s s'.
Proof. intros H. exists []. split; [now rewrite app_nil_r | constructor]. Qed.

Lemma progress_bind {A B} (m : M (Server Net) A) (k : A -> M (Server Net) B) :
  progress m -> (forall a, progress (k a)) -> progress (m ≫= k).
Proof.
  intros Hm Hk s. specialize (Hm s). unfold mbind, M_bind.
  destruct (m s) as [s1 [a|e]]; simpl in *; auto.
  eapply appends_trans; [exact Hm | apply Hk].
Qed.

Lemma progress_try_catch {A} (m : M (Server Net) A) h :
  progress m -> (forall e, progress (h e)) -> progress (try_catch m h).
Proof.
  intros Hm Hh s. specialize (Hm s). unfold try_catch.
  destruct (m s) as [s1 [a|e]]; simpl in *; auto.
  eapply appends_trans; [exact Hm | apply Hh].
Qed.

Lemma progress_ret {A} (a : A) : progress (mret a : M (Server Net) A).
Proof. intros s. apply appends_refl. Qed.

Lemma progress_throw {A} (e : string) : progress (mthrow e : M (Server Net) A).
Proof. intros s. apply appends_refl. Qed.

Lemma progress_gets {A} (f : Server Net -> A) : progress (gets f).
Proof. intros s. apply appends_refl. Qed.

Lemma progress_act (f : Server Net -> Server Net) :
  (forall s, written (res (f s)) = written (res s)) -> progress (act f).
Proof. intros H s. apply appends_same, H. Qed.

Lemma progress_lift_net {A} (m : M Net A) : progress (lift_net m).
Proof.
  intros s. unfold lift_net. destruct (m (net s)) as [n r]. now apply appends_same.
Qed.

Lemma progress_res_write e :
  is_terminal e = false -> progress (res_write (Net := Net) e).
Proof.
  intros H s. exists [e]. split; [reflexivity | now constructor].
Qed.

Lemma progress_deref this : progress (deref (Net := Net) this).
Proof. intros s. unfold deref. destruct (heap s !! this); apply appends_refl. Qed.

End Progress.

(** Splits a goal [progress m] along the structure of [m]. *)
Ltac progress_step :=
  match goal with
  | |- progress (mbind _ _) => apply progress_bind; [|intros ?]
  | |- progress (try_catch _ _) => apply progress_try_catch; [|intros ?]
  | |- progress (mret _) => apply progress_ret
  | |- progress (mthrow _) => apply progress_throw
  | |- progress (gets _) => apply progress_gets
  | |- progress (lift_net _) => apply progress_lift_net
  | |- progress (deref _) => apply progress_deref
  | |- progress (res_write _) => apply progress_res_write; reflexivity
  | |- progress (act _) => apply progress_act; intros ?; reflexivity
  | |- progress (if ?b then _ else _) => destruct b
  | |- progress (match ?x with _ => _ end) => destruct x
  end.

Section ProgressOfTheCode.
Context {Net : Type} {lib : NodeSSHLib Net}.

Lemma progress_connect_loop this key ip username password retries fuel attempts :
  progress (connect_loop this key ip username password retries fuel attempts).
Proof.
  revert attempts. induction fuel as [|fuel IH]; intros attempts; simpl.
  - apply progress_ret.
  - destruct (attempts <? retries)%nat; [|apply progress_ret].
    apply progress_bind.
    + unfold client_connect, connections_set, sleep. repeat progress_step.
    + intros [a|]; [apply IH | apply progress_ret].
Qed.

Lemma progress_connect this ip username password retries :
  progress (connect this ip username password retries).
Proof.
  unfold connect, client_isConnected, set_ssh. repeat progress_step.
  apply progress_connect_loop.
Qed.

Lemma progress_executeCommand this command cwd :
  progress (executeCommand this command cwd).
Proof. unfold executeCommand, client_execCommand. repeat progress_step. Qed.

Lemma progress_executeCommandWithStream this command cwd :
  progress (executeCommandWithStream this command cwd onStdout onStderr).
Proof.
  unfold executeCommandWithStream, client_execCommand, deliver, onStdout, onStderr.
  repeat progress_step.
Qed.

Lemma progress_isConnected this : progress (isConnected this).
Proof. unfold isConnected, client_isConnected. repeat progress_step. Qed.

Lemma progress_getSSHService ip username password :
  progress (getSSHService (Net := Net) ip username password).
Proof.
  unfold getSSHService. repeat progress_step.
  intros s. now apply appends_same.
Qed.

Lemma progress_ensure_connected this ip username password :
  progress (ensure_connected this ip username password).
Proof.
  unfold ensure_connected. apply progress_bind; [apply progress_isConnected|].
  intros [|]; [apply progress_ret | apply progress_connect].
Qed.

Lemma progress_set_sse_headers : progress (set_sse_headers (Net := Net)).
Proof. unfold set_sse_headers, res_setHeader. repeat progress_step. Qed.

Lemma progress_detectDownloadTool this : progress (detectDownloadTool this).
Proof.
  unfold detectDownloadTool, executeCommand_or_null.
  repeat (progress_step || apply progress_executeCommand).
Qed.

Lemma progress_file_exists this path : progress (file_exists this path).
Proof.
  unfold file_exists. repeat (progress_step || apply progress_executeCommand).
Qed.

End ProgressOfTheCode.

(* ===================================================================== *)
(** ** The event stream of a run is closed by its terminal event *)
(* ===================================================================== *)

Section TerminalEvent.
Context {Net : Type} {lib : NodeSSHLib Net}.
Implicit Type s : Server Net.

Lemma progress_create_target_directory r : progress (create_target_directory r).
Proof.
  unfold create_target_directory. repeat (progress_step || apply progress_executeCommand).
Qed.

Lemma progress_detect_transfer_tool r : progress (detect_transfer_tool r).
Proof.
  unfold detect_transfer_tool.
  repeat (progress_step || apply progress_detectDownloadTool).
Qed.

Lemma progress_fetch_archive r tool : progress (fetch_archive r tool).
Proof.
  unfold fetch_archive.
  repeat (progress_step || apply progress_executeCommandWithStream).
Qed.

Lemma progress_verify_archive r : progress (verify_archive r).
Proof. unfold verify_archive. repeat (progress_step || apply progress_file_exists). Qed.

Lemma progress_extract_archive r : progress (extract_archive r).
Proof.
  unfold extract_archive.
  repeat (progress_step || apply progress_executeCommandWithStream).
Qed.

Lemma progress_install_dependencies r : progress (install_dependencies r).
Proof.
  unfold install_dependencies.
  repeat (progress_step || apply progress_file_exists
          || apply progress_executeCommandWithStream).
Qed.

Lemma progress_execute_setup_script r : progress (execute_setup_script r).
Proof.
  unfold execute_setup_script.
  repeat (progress_step || apply progress_executeCommandWithStream).
Qed.

Lemma progress_stages r : progress (stages r).
Proof.
  unfold stages.
  repeat (progress_step
          || apply progress_create_target_directory
          || apply progress_detect_transfer_tool
          || apply progress_fetch_archive
          || apply progress_verify_archive
          || apply progress_extract_archive
          || apply progress_install_dependencies
          || apply progress_execute_setup_script).
Qed.

(** The body of the pipeline is its stages followed by the success event
    and the end of the response. *)
Lemma pipeline_body_stages r s :
  pipeline_body r s
  = (stages r;; res_write (EvSuccess "Setup completed successfully!");; res_end) s.
Proof.
  unfold pipeline_body, stages, mbind, M_bind.
  repeat match goal with
         | |- context [match ?m ?x with _ => _ end] =>
             destruct (m x) as [? [?|?]]
         end; reflexivity.
Qed.

(** What a run of the pipeline leaves, by the outcome of its stages. *)
Lemma run_pipeline_result r s :
  run_pipeline r s
  = match stages r s with
    | (s1, Ok _) => (close (write (EvSuccess "Setup completed successfully!") s1), Ok tt)
    | (s1, Throw e) => (close (write (EvError e) s1), Ok tt)
    end.
Proof.
  unfold run_pipeline, try_catch. rewrite pipeline_body_stages.
  unfold mbind at 1. unfold M_bind.
  destruct (stages r s) as [s1 [[]|e]]; reflexivity.
Qed.

Lemma appends_closed_once s s1 s2 : appends s s1 -> closed_once s1 s2 -> closed_once s s2.
Proof.
  intros (e1 & H1 & F1) (e2 & t & H2 & F2 & T). exists (e1 ++ e2), t.
  split; [|split; auto].
  - rewrite H2, H1. now rewrite <- !app_assoc.
  - apply Forall_app; auto.
Qed.

Lemma closed_once_write_close s s1 t :
  appends s s1 -> is_terminal t = true -> closed_once s (close (write t s1)).
Proof.
  intros (e1 & H1 & F1) T. exists e1, t. split; [|split; auto].
  simpl. rewrite H1. now rewrite <- app_assoc.
Qed.

Lemma run_pipeline_closed_once r s :
  closed_once s (fst (run_pipeline r s)) /\ snd (run_pipeline r s) = Ok tt.
Proof.
  rewrite run_pipeline_result. pose proof (progress_stages r s) as H.
  destruct (stages r s) as [s1 [[]|e]]; simpl in *;
    (split; [apply closed_once_write_close; auto | reflexivity]).
Qed.

Lemma stream_command_closed_once this command cwd s :
  closed_once s (fst (stream_command this command cwd s))
  /\ snd (stream_command this command cwd s) = Ok tt.
Proof.
  pose proof (progress_executeCommandWithStream this command cwd s) as H.
  unfold stream_command, try_catch, mbind, M_bind.
  destruct (executeCommandWithStream this command cwd onStdout onStderr s)
    as [s1 [z|e]]; simpl in *.
  - destruct H as (e1 & H1 & F1). split; [|reflexivity].
    exists e1, (EvDone "Command completed"). simpl. rewrite H1, <- app_assoc. auto.
  - destruct H as (e1 & H1 & F1). split; [|reflexivity].
    exists e1, (EvError e). simpl. rewrite H1, <- app_assoc. auto.
Qed.

Lemma finishes_progress {A} (m : M (Server Net) A) : progress m -> finishes m.
Proof.
  intros H s. specialize (H s). destruct (m s) as [s1 [a|e]]; simpl in *; auto.
Qed.

Lemma finishes_bind {A B} (m : M (Server Net) A) (k : A -> M (Server Net) B) :
  progress m -> (forall a, finishes (k a)) -> finishes (m ≫= k).
Proof.
  intros Hm Hk s. specialize (Hm s). unfold mbind, M_bind.
  destruct (m s) as [s1 [a|e]]; simpl in *; auto.
  specialize (Hk a s1). destruct (k a s1) as [s2 [b|e]].
  - destruct Hk as [Hk|Hk]; [left; eapply appends_trans; eauto
                            | right; eapply appends_closed_once; eauto].
  - eapply appends_trans; eauto.
Qed.

Lemma finishes_try_catch {A} (m : M (Server Net) A) h :
  finishes m -> (forall e, progress (h e)) -> finishes (try_catch m h).
Proof.
  intros Hm Hh s. specialize (Hm s). unfold try_catch.
  destruct (m s) as [s1 [a|e]]; auto.
  specialize (Hh e s1). destruct (h e s1) as [s2 [b|e']]; simpl in *.
  - left. eapply appends_trans; eauto.
  - eapply appends_trans; eauto.
Qed.

Lemma finishes_run_pipeline r : finishes (run_pipeline r).
Proof.
  intros s. destruct (run_pipeline_closed_once r s) as [H1 H2].
  destruct (run_pipeline r s) as [s1 out]; simpl in *. subst out. now right.
Qed.

Lemma finishes_stream_command this command cwd :
  finishes (stream_command this command cwd).
Proof.
  intros s. destruct (stream_command_closed_once this command cwd s) as [H1 H2].
  destruct (stream_command this command cwd s) as [s1 out]; simpl in *.
  subst out. now right.
Qed.

Lemma progress_res_status_json status body :
  progress (res_status_json (Net := Net) status body).
Proof. unfold res_status_json. progress_step. Qed.

Lemma finishes_download_and_run req : finishes (download_and_run req).
Proof.
  unfold download_and_run.
  apply finishes_try_catch; [|intros e; apply progress_res_status_json].
  destruct (_ || _).
  - apply finishes_progress, progress_res_status_json.
  - apply finishes_bind; [apply progress_getSSHService|intros this].
    apply finishes_bind; [apply progress_ensure_connected|intros _].
    apply finishes_bind; [apply progress_set_sse_headers|intros _].
    apply finishes_run_pipeline.
Qed.

Lemma finishes_execute_stream req : finishes (execute_stream req).
Proof.
  unfold execute_stream.
  apply finishes_try_catch; [|intros e; apply progress_res_status_json].
  destruct (_ || _).
  - apply finishes_progress, progress_res_status_json.
  - apply finishes_bind; [apply progress_getSSHService|intros this].
    apply finishes_bind; [apply progress_ensure_connected|intros _].
    apply finishes_bind; [apply progress_set_sse_headers|intros _].
    apply finishes_bind; [apply progress_res_write; reflexivity|intros _].
    apply finishes_stream_command.
Qed.

Lemma terminal_is_last_progress evs :
  Forall (fun e => is_terminal e = false) evs -> terminal_is_last evs.
Proof.
  intros F pre e post -> T. apply Forall_app in F as [_ F].
  inversion F; subst. congruence.
Qed.

Lemma terminal_is_last_snoc evs t :
  Forall (fun e => is_terminal e = false) evs -> terminal_is_last (evs ++ [t]).
Proof.
  intros F pre e post E T.
  destruct post as [|x post] using rev_ind; [reflexivity|]. exfalso.
  clear IHpost.
  change (pre ++ e :: post ++ [x]) with (pre ++ (e :: post) ++ [x]) in E.
  rewrite app_assoc in E. apply app_inj_tail in E as [E _]. subst evs.
  apply Forall_app in F as [_ F]. inversion F; subst. congruence.
Qed.

Lemma finishes_terminal_is_last (handler : Request -> M (Server Net) unit) req s :
  finishes (handler req) -> terminal_is_last (written (res (serve handler req s))).
Proof.
  intros H. unfold serve.
  specialize (H (with_res (fun _ => fresh_response) s)).
  destruct (handler req _) as [s1 [a|e]]; simpl in *.
  - destruct H as [(evs & -> & F)|(evs & t & -> & F & T)]; simpl.
    + now apply terminal_is_last_progress.
    + now apply terminal_is_last_snoc.
  - destruct H as (evs & -> & F). now apply terminal_is_last_progress.
Qed.

(** C7.  In the event stream of every request to the one-click setup
    endpoint and to the streaming command endpoint, nothing follows an
    [error], [success] or [done] event: such an event is the last one
    written. *)
Theorem C7_terminal_event_is_last :
  forall (req : Request) (s : Server Net),
    terminal_is_last (written (res (serve download_and_run req s)))
    /\ terminal_is_last (written (res (serve execute_stream req s))).
Proof.
  intros req s. split; apply finishes_terminal_is_last.
  - apply finishes_download_and_run.
  - apply finishes_execute_stream.
Qed.

End TerminalEvent.

(* ===================================================================== *)
(** ** The stages of the pipeline *)
(* ===================================================================== *)

(** Case analysis on every run that is the scrutinee of a match. *)
Ltac split_runs :=
  repeat match goal with
         | |- context [match ?m ?x with _ => _ end] =>
             destruct (m x) as [? [?|?]]
         end.

Section Stages.
Context {Net : Type} {lib : NodeSSHLib Net}.
Implicit Type s : Server Net.

Lemma file_exists_run s this o path n out :
  heap s !! this = Some o ->
  nssh_execCommand (ssh o) (test_f_command path) None (net s) = (n, out) ->
  file_exists this path s
  = (exec_state (ssh o) (test_f_command path) None n s, Ok (probe_says_exists out)).
Proof.
  intros Ho Hx. unfold file_exists, try_catch.
  unfold mbind at 1. unfold M_bind. unfold mbind at 1. unfold M_bind.
  rewrite (executeCommand_run _ _ _ _ _ _ _ Ho Hx).
  destruct out as [r|e]; reflexivity.
Qed.


Lemma stages_reach_extract r s :
  stages r s = (reach_extract r;; extract_archive r;;
                install_dependencies r;; execute_setup_script r) s.
Proof.
  unfold stages, reach_extract, reach_verify, reach_fetch, mbind, M_bind.
  split_runs; reflexivity.
Qed.


Lemma stages_reach_setup r s :
  stages r s = (reach_setup r;; execute_setup_script r) s.
Proof.
  unfold stages, reach_setup, reach_install, reach_extract, reach_verify,
    reach_fetch, mbind, M_bind.
  split_runs; reflexivity.
Qed.

Lemma fetch_archive_run r tool s o n out :
  heap s !! sshService r = Some o ->
  nssh_execCommand (ssh o) (downloadCmd r tool) None (net s) = (n, out) ->
  fetch_archive r tool s
  = (write_all (chunk_events out)
       (exec_state (ssh o) (downloadCmd r tool) None n
          (write (EvStep 2 "Downloading repository...") s)),
     match out with Ok _ => Ok tt | Throw e => Throw e end).
Proof.
  intros Ho Hx. unfold fetch_archive, res_write. rewrite bind_act.
  unfold mbind, M_bind.
  rewrite (executeCommandWithStream_run _ _ o _ _ n out); [|exact Ho|exact Hx].
  destruct out; reflexivity.
Qed.

Lemma extract_archive_run r s o n out :
  heap s !! sshService r = Some o ->
  nssh_execCommand (ssh o) (extractCmd r) None (net s) = (n, out) ->
  extract_archive r s
  = (write_all (chunk_events out)
       (exec_state (ssh o) (extractCmd r) None n
          (write (EvStep 3 "Extracting archive...") s)),
     match out with Ok _ => Ok tt | Throw e => Throw e end).
Proof.
  intros Ho Hx. unfold extract_archive, res_write. rewrite bind_act.
  unfold mbind, M_bind.
  rewrite (executeCommandWithStream_run _ _ o _ _ n out); [|exact Ho|exact Hx].
  destruct out; reflexivity.
Qed.

Lemma execute_setup_script_run r s o n out :
  heap s !! sshService r = Some o ->
  nssh_execCommand (ssh o) (runCmd r) None (net s) = (n, out) ->
  execute_setup_script r s
  = (write_all (chunk_events out)
       (exec_state (ssh o) (runCmd r) None n
          (write (EvStep 5 "Running hub-setup.js...") s)),
     match out with Ok _ => Ok tt | Throw e => Throw e end).
Proof.
  intros Ho Hx. unfold execute_setup_script, res_write. rewrite bind_act.
  unfold mbind, M_bind.
  rewrite (executeCommandWithStream_run _ _ o _ _ n out); [|exact Ho|exact Hx].
  destruct out; reflexivity.
Qed.

Lemma verify_archive_run r s o n out :
  heap s !! sshService r = Some o ->
  nssh_execCommand (ssh o) (test_f_command (archivePath r)) None (net s) = (n, out) ->
  verify_archive r s
  = (exec_state (ssh o) (test_f_command (archivePath r)) None n s,
     if probe_says_exists out then Ok tt
     else Throw "Download failed - archive file not found after download").
Proof.
  intros Ho Hx. unfold verify_archive, mbind, M_bind.
  rewrite (file_exists_run _ _ _ _ _ _ Ho Hx).
  destruct (probe_says_exists out); reflexivity.
Qed.

End Stages.

(* ===================================================================== *)
(** ** The archive is verified after the download *)
(* ===================================================================== *)

Section VerifyArchive.
Context {Net : Type} {lib : NodeSSHLib Net}.
Implicit Type s : Server Net.

Lemma reach_verify_run r s s1 tool o n out :
  reach_fetch r s = (s1, Ok tool) ->
  heap s1 !! sshService r = Some o ->
  nssh_execCommand (ssh o) (downloadCmd r tool) None (net s1) = (n, out) ->
  reach_verify r s
  = (write_all (chunk_events out)
       (exec_state (ssh o) (downloadCmd r tool) None n
          (write (EvStep 2 "Downloading repository...") s1)),
     match out with Ok _ => Ok tt | Throw e => Throw e end).
Proof.
  intros H1 Ho Hx. unfold reach_verify.
  rewrite (bind_ok _ _ _ _ _ H1). now apply fetch_archive_run.
Qed.

(** C3.  Once the download command has completed, with any exit code and
    so also with exit code 0, the pipeline runs a separate existence probe
    on the archive path; when that probe does not report the file, the run
    ends with the error event of a failed download and nothing else is
    executed. *)
Theorem C3_missing_archive_fails_the_run :
  forall (r : Run) (s s1 : Server Net) (tool : string) (o : SSHService)
         (n2 n3 : Net) (dl : CommandResult) (probe : Res CommandResult),
    reach_fetch r s = (s1, Ok tool) ->
    heap s1 !! sshService r = Some o ->
    nssh_execCommand (ssh o) (downloadCmd r tool) None (net s1) = (n2, Ok dl) ->
    nssh_execCommand (ssh o) (test_f_command (archivePath r)) None n2 = (n3, probe) ->
    probe_says_exists probe = false ->
    let s2 := write_all (chunk_events (Ok dl))
                (exec_state (ssh o) (downloadCmd r tool) None n2
                   (write (EvStep 2 "Downloading repository...") s1)) in
    let s3 := exec_state (ssh o) (test_f_command (archivePath r)) None n3 s2 in
    reach_verify r s = (s2, Ok tt)
    /\ effects s3
       = effects s1 ++ [SshExec (ssh o) (downloadCmd r tool) None;
                        SshExec (ssh o) (test_f_command (archivePath r)) None]
    /\ run_pipeline r s
       = (close (write (EvError "Download failed - archive file not found after download") s3),
          Ok tt).
Proof.
  intros r s s1 tool o n2 n3 dl probe H1 Ho Hdl Hprobe Habsent s2 s3.
  assert (Hv : reach_verify r s = (s2, Ok tt)).
  { now rewrite (reach_verify_run _ _ _ _ _ _ _ H1 Ho Hdl). }
  assert (Ho2 : heap s2 !! sshService r = Some o).
  { subst s2. now rewrite heap_write_all. }
  assert (Hn2 : net s2 = n2).
  { subst s2. now rewrite net_write_all. }
  split; [exact Hv|split].
  - subst s3 s2. simpl. rewrite effects_write_all. simpl. now rewrite <- app_assoc.
  - rewrite run_pipeline_result, stages_reach_extract.
    assert (Hx : reach_extract r s = (s3, Throw "Download failed - archive file not found after download")).
    { unfold reach_extract. rewrite (bind_ok _ _ _ _ _ Hv).
      rewrite <- Hn2 in Hprobe.
      now rewrite (verify_archive_run _ _ _ _ _ Ho2 Hprobe), Habsent. }
    now rewrite (bind_throw _ _ _ _ _ Hx).
Qed.

End VerifyArchive.

(* ===================================================================== *)
(** ** Installation is skipped when there is no manifest *)
(* ===================================================================== *)

Section InstallDependencies.
Context {Net : Type} {lib : NodeSSHLib Net}.
Implicit Type s : Server Net.

Lemma install_dependencies_skip r s o n probe :
  heap s !! sshService r = Some o ->
  nssh_execCommand (ssh o) (test_f_command (extractedDir r +:+ "/package.json")) None
                   (net s) = (n, probe) ->
  probe_says_exists probe = false ->
  install_dependencies r s
  = (write (EvInfo "No package.json found, skipping dependency installation")
       (exec_state (ssh o) (test_f_command (extractedDir r +:+ "/package.json")) None n
          (write (EvStep 4 "Installing dependencies...") s)),
     Ok tt).
Proof.
  intros Ho Hx Habsent. unfold install_dependencies, res_write. rewrite bind_act.
  unfold mbind, M_bind.
  rewrite (file_exists_run _ _ o _ n probe); [|exact Ho|exact Hx].
  now rewrite Habsent.
Qed.

(** C6.  When the probe for [package.json] in the extracted directory does
    not report the file, the install stage executes nothing but that probe,
    writes the step event and the info event of the skip, and returns; the
    next thing the run does is step 5, the setup script, and when that
    command completes the run ends with the success event. *)
Theorem C6_missing_manifest_skips_install :
  forall (r : Run) (s s4 : Server Net) (o : SSHService) (n5 n6 : Net)
         (probe out : Res CommandResult),
    reach_install r s = (s4, Ok tt) ->
    heap s4 !! sshService r = Some o ->
    nssh_execCommand (ssh o) (test_f_command (extractedDir r +:+ "/package.json")) None
                     (net s4) = (n5, probe) ->
    probe_says_exists probe = false ->
    nssh_execCommand (ssh o) (runCmd r) None n5 = (n6, out) ->
    let s5 := write (EvInfo "No package.json found, skipping dependency installation")
                (exec_state (ssh o)
                   (test_f_command (extractedDir r +:+ "/package.json")) None n5
                   (write (EvStep 4 "Installing dependencies...") s4)) in
    let s6 := write_all (chunk_events out)
                (exec_state (ssh o) (runCmd r) None n6
                   (write (EvStep 5 "Running hub-setup.js...") s5)) in
    install_dependencies r s4 = (s5, Ok tt)
    /\ stages r s = (s6, match out with Ok _ => Ok tt | Throw e => Throw e end)
    /\ effects s6
       = effects s4
         ++ [SshExec (ssh o) (test_f_command (extractedDir r +:+ "/package.json")) None;
             SshExec (ssh o) (runCmd r) None]
    /\ written (res s6)
       = written (res s4)
         ++ [EvStep 4 "Installing dependencies...";
             EvInfo "No package.json found, skipping dependency installation";
             EvStep 5 "Running hub-setup.js..."]
         ++ chunk_events out
    /\ (forall done, out = Ok done ->
        run_pipeline r s
        = (close (write (EvSuccess "Setup completed successfully!") s6), Ok tt)).
Proof.
  intros r s s4 o n5 n6 probe out H4 Ho Hprobe Habsent Hrun s5 s6.
  assert (Hi : install_dependencies r s4 = (s5, Ok tt)).
  { now apply (install_dependencies_skip r s4 o n5 probe). }
  assert (Hst : stages r s = (s6, match out with Ok _ => Ok tt | Throw e => Throw e end)).
  { rewrite stages_reach_setup. unfold reach_setup.
    rewrite (bind_ok _ _ s s5 tt).
    - apply execute_setup_script_run; [exact Ho | exact Hrun].
    - rewrite (bind_ok _ _ _ _ _ H4). exact Hi. }
  split; [exact Hi|split; [exact Hst|split; [|split]]].
  - subst s6 s5. rewrite effects_write_all. simpl. now rewrite <- app_assoc.
  - subst s6 s5. rewrite written_write_all. simpl. now rewrite <- !app_assoc.
  - intros done ->. now rewrite run_pipeline_result, Hst.
Qed.

End InstallDependencies.

(* ===================================================================== *)
(** ** A stage that throws stops the run *)
(* ===================================================================== *)

Section FailFast.
Context {Net : Type} {lib : NodeSSHLib Net}.
Implicit Type s : Server Net.



(** A rejected extraction command makes the extraction stage throw. *)
Lemma extract_rejected_aborts r s s3 o n e :
  reach_extract r s = (s3, Ok tt) ->
  heap s3 !! sshService r = Some o ->
  nssh_execCommand (ssh o) (extractCmd r) None (net s3) = (n, Throw e) ->
  aborted r s (exec_state (ssh o) (extractCmd r) None n
                 (write (EvStep 3 "Extracting archive...") s3)) e.
Proof.
  intros H3 Ho Hx. eapply abort_extract; [exact H3|].
  now rewrite (extract_archive_run r s3 o n (Throw e) Ho Hx).
Qed.





End FailFast.

(* ===================================================================== *)
(** ** Sessions are reused while they are connected *)
(* ===================================================================== *)

Section SessionReuse.
Context {Net : Type} {lib : NodeSSHLib Net}.
Implicit Type s : Server Net.

Lemma with_heap_same (s : Server Net) f : f (heap s) = heap s -> with_heap f s = s.
Proof. intros H. destruct s. unfold with_heap. simpl in *. now rewrite H. Qed.

Lemma set_ssh_same s this o :
  heap s !! this = Some o -> set_ssh this (ssh o) s = (s, Ok tt).
Proof.
  intros Ho. unfold set_ssh, act. f_equal. apply with_heap_same.
  apply alter_id. intros x Hx. rewrite Ho in Hx. injection Hx as <-. now destruct o.
Qed.

Lemma getSSHService_existing s ip username password this :
  activeConnections s !! (ip +:+ ":" +:+ username) = Some this ->
  getSSHService ip username password s = (s, Ok this).
Proof.
  intros H. unfold getSSHService. rewrite bind_gets, H.
  rewrite bind_ret, bind_gets, H. reflexivity.
Qed.

Lemma getSSHService_registered s s1 ip username password this :
  getSSHService ip username password s = (s1, Ok this) ->
  activeConnections s1 !! (ip +:+ ":" +:+ username) = Some this.
Proof.
  unfold getSSHService. rewrite bind_gets.
  destruct (activeConnections s !! (ip +:+ ":" +:+ username)) as [x|] eqn:E.
  - rewrite bind_ret, bind_gets, E. intros [= <- <-]. exact E.
  - unfold new_SSHService. run_m. rewrite lookup_insert_eq.
    intros [= <- <-]. simpl. apply lookup_insert_eq.
Qed.

Lemma isConnected_run s this o :
  heap s !! this = Some o ->
  isConnected this s = (s, Ok (nssh_isConnected (ssh o) (net s))).
Proof.
  intros Ho. unfold isConnected. now rewrite (bind_ok _ _ _ _ _ (deref_run _ _ _ Ho)).
Qed.

Lemma ensure_connected_healthy s this ip username password :
  healthy s this -> ensure_connected this ip username password s = (s, Ok tt).
Proof.
  intros (o & Ho & Hc). unfold ensure_connected.
  rewrite (bind_ok _ _ _ _ _ (isConnected_run _ _ _ Ho)). now rewrite Hc.
Qed.

Lemma connect_reuse s this o ip username password retries :
  heap s !! this = Some o ->
  connections o !! _getConnectionKey ip username = Some (ssh o) ->
  nssh_isConnected (ssh o) (net s) = true ->
  connect this ip username password retries s = (s, Ok tt).
Proof.
  intros Ho Hk Hc. unfold connect.
  rewrite (bind_ok _ _ _ _ _ (deref_run _ _ _ Ho)). rewrite Hk.
  unfold client_isConnected. rewrite bind_assoc, bind_gets, Hc.
  rewrite bind_assoc. rewrite (bind_ok _ _ _ _ _ (set_ssh_same _ _ _ Ho)).
  reflexivity.
Qed.

(** What a connection loop that returns leaves behind. *)
Lemma connect_loop_post this key ip username password retries fuel :
  forall attempts s,
    attempts < retries -> retries <= attempts + fuel ->
    match connect_loop this key ip username password retries fuel attempts s with
    | (s1, Ok _) =>
        activeConnections s1 = activeConnections s
        /\ exists o, heap s1 !! this = Some o /\ connections o !! key = Some (ssh o)
    | (s1, Throw _) => activeConnections s1 = activeConnections s
    end.
Proof.
  induction fuel as [|fuel IH]; intros attempts s Hlt Hfuel; [lia|].
  simpl. apply Nat.ltb_lt in Hlt as Hlt'. rewrite Hlt'.
  unfold try_catch, deref, client_connect, lift_net, connections_set, sleep,
    mbind, M_bind, act, mret, M_ret, mthrow, M_throw.
  destruct (heap s !! this) as [o|] eqn:Ho; simpl.
  - destruct (nssh_connect (ssh o) _ (net s)) as [n [[]|e]] eqn:Hc; simpl.
    + split; [reflexivity|].
      eexists. split; [rewrite lookup_alter_eq, Ho; reflexivity|].
      simpl. apply lookup_insert_eq.
    + destruct (retries <=? S attempts)%nat eqn:E; simpl; [reflexivity|].
      apply Nat.leb_gt in E.
      match goal with
      | |- context [connect_loop _ _ _ _ _ _ _ _ ?s1] =>
          specialize (IH (S attempts) s1 E ltac:(lia));
          destruct (connect_loop this key ip username password retries fuel
                      (S attempts) s1) as [s2 [[]|e2]]
      end; exact IH.
  - destruct (retries <=? S attempts)%nat eqn:E; simpl; [reflexivity|].
    apply Nat.leb_gt in E.
    match goal with
    | |- context [connect_loop _ _ _ _ _ _ _ _ ?s1] =>
        specialize (IH (S attempts) s1 E ltac:(lia));
        destruct (connect_loop this key ip username password retries fuel
                    (S attempts) s1) as [s2 [[]|e2]]
    end; exact IH.
Qed.

Lemma connect_post this ip username password retries s :
  0 < retries ->
  match connect this ip username password retries s with
  | (s1, Ok _) =>
      activeConnections s1 = activeConnections s
      /\ exists o, heap s1 !! this = Some o
                   /\ connections o !! _getConnectionKey ip username = Some (ssh o)
  | (s1, Throw _) => activeConnections s1 = activeConnections s
  end.
Proof.
  intros Hpos. unfold connect.
  pose proof (connect_loop_post this (_getConnectionKey ip username) ip username
                password retries retries 0 s Hpos ltac:(lia)) as Hloop.
  unfold deref, client_isConnected, set_ssh, mbind, M_bind, act, gets, mret, M_ret.
  destruct (heap s !! this) as [o|] eqn:Ho; simpl; [|reflexivity].
  destruct (connections o !! _getConnectionKey ip username) as [c|] eqn:Hk; simpl.
  - destruct (nssh_isConnected c (net s)); simpl.
    + split; [reflexivity|]. eexists. split; [rewrite lookup_alter_eq, Ho; reflexivity|].
      exact Hk.
    + exact Hloop.
  - exact Hloop.
Qed.

Lemma ensure_connected_registry this ip username password s :
  activeConnections (fst (ensure_connected this ip username password s))
  = activeConnections s.
Proof.
  unfold ensure_connected, isConnected, deref, client_isConnected.
  pose proof (connect_post this ip username password 3 s ltac:(lia)) as Hc.
  unfold mbind, M_bind, gets. 
  destruct (heap s !! this) as [o|]; simpl; [|reflexivity].
  destruct (nssh_isConnected (ssh o) (net s)); simpl; [reflexivity|].
  destruct (connect this ip username password 3 s) as [s1 [[]|e]]; simpl;
    [apply Hc | exact Hc].
Qed.

Lemma acquire_session_inv ip username password s s1 this :
  acquire_session ip username password s = (s1, Ok this) ->
  activeConnections s1 !! (ip +:+ ":" +:+ username) = Some this.
Proof.
  unfold acquire_session. unfold mbind at 1. unfold M_bind.
  destruct (getSSHService ip username password s) as [s0 [x|e]] eqn:Hg; [|discriminate].
  apply getSSHService_registered in Hg.
  pose proof (ensure_connected_registry x ip username password s0) as Hr.
  unfold mbind, M_bind.
  destruct (ensure_connected x ip username password s0) as [s2 [[]|e]];
    [|discriminate].
  simpl in Hr. intros [= <- <-]. now rewrite Hr.
Qed.

Lemma open_session_inv ip username password s s1 this :
  open_session ip username password s = (s1, Ok this) ->
  activeConnections s1 !! (ip +:+ ":" +:+ username) = Some this
  /\ exists o, heap s1 !! this = Some o
               /\ connections o !! _getConnectionKey ip username = Some (ssh o).
Proof.
  unfold open_session. unfold mbind at 1. unfold M_bind.
  destruct (getSSHService ip username password s) as [s0 [x|e]] eqn:Hg; [|discriminate].
  apply getSSHService_registered in Hg.
  pose proof (connect_post x ip username password 3 s0 ltac:(lia)) as Hc.
  unfold mbind, M_bind.
  destruct (connect x ip username password 3 s0) as [s2 [[]|e]]; [|discriminate].
  destruct Hc as [Hr Ho]. intros [= <- <-]. split; [now rewrite Hr | exact Ho].
Qed.

Lemma acquire_session_reuse ip username password s this :
  activeConnections s !! (ip +:+ ":" +:+ username) = Some this ->
  healthy s this ->
  acquire_session ip username password s = (s, Ok this).
Proof.
  intros Hk Hh. unfold acquire_session.
  rewrite (bind_ok _ _ _ _ _ (getSSHService_existing _ _ _ password _ Hk)).
  now rewrite (bind_ok _ _ _ _ _ (ensure_connected_healthy _ _ ip username password Hh)).
Qed.

Lemma open_session_reuse ip username password s this o :
  activeConnections s !! (ip +:+ ":" +:+ username) = Some this ->
  heap s !! this = Some o ->
  connections o !! _getConnectionKey ip username = Some (ssh o) ->
  nssh_isConnected (ssh o) (net s) = true ->
  open_session ip username password s = (s, Ok this).
Proof.
  intros Hk Ho Hc Hl. unfold open_session.
  rewrite (bind_ok _ _ _ _ _ (getSSHService_existing _ _ _ password _ Hk)).
  now rewrite (bind_ok _ _ _ _ _ (connect_reuse _ _ _ ip username password 3 Ho Hc Hl)).
Qed.

(** C5.  A call that obtains the session of a key, made right after an
    earlier call for the same key returned the session [this] and while the
    liveness probe of [this] reports a connected client, returns [this] again
    and leaves the whole state as it is: the registry, the session objects,
    the outside world and the record of library calls, so that no transport
    connect is made.  This holds for the handlers that connect on demand and
    for the connect handler, which calls [connect] each time. *)
Theorem C5_second_call_reuses_healthy_session :
  forall (ip username password : string) (s s1 : Server Net) (this : nat),
    healthy s1 this ->
    (acquire_session ip username password s = (s1, Ok this) ->
     acquire_session ip username password s1 = (s1, Ok this))
    /\ (open_session ip username password s = (s1, Ok this) ->
        open_session ip username password s1 = (s1, Ok this)
        /\ acquire_session ip username password s1 = (s1, Ok this)).
Proof.
  intros ip username password s s1 this Hh. split.
  - intros H. apply acquire_session_inv in H. now apply acquire_session_reuse.
  - intros H. apply open_session_inv in H as (Hk & o & Ho & Hc). split.
    + destruct Hh as (o' & Ho' & Hl). rewrite Ho in Ho'. injection Ho' as <-.
      now apply (open_session_reuse _ _ _ _ _ o).
    + now apply acquire_session_reuse.
Qed.

(** C10.  While the registry holds a session for the key whose client is
    connected, the password of a request has no influence: two requests
    that differ only in the password get the same session and leave the
    state unchanged, so that nothing is authenticated with the new
    password.  For the connect handler this holds when the session object
    has recorded its client under the key, as [connect] tests. *)
Theorem C10_password_is_ignored_for_healthy_session :
  forall (ip username pw pw' : string) (s : Server Net) (this : nat) (o : SSHService),
    activeConnections s !! (ip +:+ ":" +:+ username) = Some this ->
    heap s !! this = Some o ->
    nssh_isConnected (ssh o) (net s) = true ->
    acquire_session ip username pw s = acquire_session ip username pw' s
    /\ acquire_session ip username pw' s = (s, Ok this)
    /\ (connections o !! _getConnectionKey ip username = Some (ssh o) ->
        open_session ip username pw s = open_session ip username pw' s
        /\ open_session ip username pw' s = (s, Ok this)).
Proof.
  intros ip username pw pw' s this o Hk Ho Hl.
  assert (Hh : healthy s this) by (exists o; auto).
  split; [|split].
  - now rewrite !(acquire_session_reuse _ _ _ _ this).
  - now apply acquire_session_reuse.
  - intros Hc. split.
    + now rewrite !(open_session_reuse _ _ _ _ this o).
    + now apply (open_session_reuse _ _ _ _ _ o).
Qed.

End SessionReuse.

(* ===================================================================== *)
(** ** Disconnecting *)
(* ===================================================================== *)

Section Disconnect.
Context {Net : Type} {lib : NodeSSHLib Net}.
Implicit Type s : Server Net.

Lemma disconnect_run s this o :
  heap s !! this = Some o ->
  disconnect this s
  = (if nssh_isConnected (ssh o) (net s) then disposed (ssh o) s else s, Ok tt).
Proof.
  intros Ho. unfold disconnect.
  rewrite (bind_ok _ _ _ _ _ (deref_run _ _ _ Ho)).
  unfold client_isConnected. rewrite bind_gets.
  destruct (nssh_isConnected (ssh o) (net s)); reflexivity.
Qed.

(** C8, as the code has it.  For a key without an entry, both the
    disconnect handler and [disconnectConnection] return normally and change
    nothing but the reply.  For a key with an entry, the handler disposes the
    client of the session when it is connected and always removes the entry
    from the registry; [disconnectConnection] disposes the client and
    removes the entry when the client is connected, and otherwise leaves the
    entry where it is. *)
Theorem C8_disconnect_by_key :
  forall (req : Request) (s : Server Net),
    Js.truthy (ip req) = true ->
    Js.truthy (username req) = true ->
    let key := ip req +:+ ":" +:+ username req in
    (activeConnections s !! key = None ->
     ssh_disconnect req s = (reply (JsonSuccess "Disconnected successfully") s, Ok tt))
    /\ (forall this o,
           activeConnections s !! key = Some this ->
           heap s !! this = Some o ->
           ssh_disconnect req s
           = (reply (JsonSuccess "Disconnected successfully")
                (with_activeConnections (delete key)
                   (if nssh_isConnected (ssh o) (net s) then disposed (ssh o) s else s)),
              Ok tt))
    /\ (forall this o,
           heap s !! this = Some o ->
           disconnectConnection this (ip req) (username req) s
           = match connections o !! key with
             | None => (s, Ok tt)
             | Some c =>
                 if nssh_isConnected c (net s)
                 then (forgotten this key (disposed c s), Ok tt)
                 else (s, Ok tt)
             end).
Proof.
  intros req s Hip Huser key. split; [|split].
  - intros Hk. unfold ssh_disconnect, try_catch. rewrite Hip, Huser. simpl.
    rewrite bind_gets. fold key. rewrite Hk. reflexivity.
  - intros this o Hk Ho. unfold ssh_disconnect, try_catch. rewrite Hip, Huser. simpl.
    rewrite bind_gets. fold key. rewrite Hk.
    unfold mbind at 1. unfold M_bind. unfold mbind at 1. unfold M_bind.
    rewrite (disconnect_run _ _ _ Ho). reflexivity.
  - intros this o Ho. unfold disconnectConnection.
    rewrite (bind_ok _ _ _ _ _ (deref_run _ _ _ Ho)).
    unfold _getConnectionKey. fold key.
    destruct (connections o !! key) as [c|]; [|reflexivity].
    unfold client_isConnected. rewrite bind_gets.
    destruct (nssh_isConnected c (net s)); reflexivity.
Qed.

End Disconnect.

(* ===================================================================== *)
(** ** The bound of [retry] *)
(* ===================================================================== *)

Section RetryBound.
Context {St : Type} {rt : Runtime St} {A : Type}.
Variable fn : M St A.
Variable hook : M St unit.
Hypothesis fn_fails : forall s, exists s' e, fn s = (s', Throw e).
Hypothesis hook_returns : forall s, exists s', hook s = (s', Ok tt).

(** The loop of [retry] on an operation that always fails, with a hook that
    returns, from any attempt counter below the limit: the operation is
    entered once per remaining attempt and the hook once less; the error
    thrown is the one of the last attempt. *)
Lemma retry_loop_exhausts retries fuel :
  forall attempts s ops recs,
    attempts < retries -> retries <= attempts + fuel ->
    exists s' e,
      Remote.retry_loop (Spy.counted_hook hook) (Spy.counted_operation fn)
                        retries fuel attempts (s, Spy.mkCalls ops recs)
      = ((s', Spy.mkCalls (ops + (retries - attempts))
                          (recs + (retries - attempts - 1))), Throw e)
      /\ Remote.retry_loop hook fn retries fuel attempts s = (s', Throw e)
      /\ exists s_before s_after,
          fn s_before = (s_after, Throw e)
          /\ s' = console_error "Max retry limit reached. Exiting."
                    (console_error_with ("Error occurred on attempt "
                                           +:+ Js.of_nat retries +:+ ":") e s_after).
Proof.
  induction fuel as [|fuel IH]; intros attempts s ops recs Hlt Hfuel; [lia|].
  simpl. apply Nat.ltb_lt in Hlt as Hlt'. rewrite Hlt'.
  destruct (fn_fails s) as (s1 & e1 & Hfn).
  unfold Remote.on_failure, Spy.counted_operation, Spy.counted_hook, try_catch,
    mbind, M_bind, act, mret, M_ret, mthrow, M_throw. simpl.
  rewrite Hfn. simpl.
  destruct (retries <=? S attempts)%nat eqn:E; simpl.
  - apply Nat.leb_le in E. assert (retries = S attempts) as -> by lia.
    exists (console_error "Max retry limit reached. Exiting."
              (console_error_with ("Error occurred on attempt "
                                     +:+ Js.of_nat (S attempts) +:+ ":") e1 s1)), e1.
    split; [|split].
    + f_equal. f_equal. f_equal; lia.
    + reflexivity.
    + exists s, s1. split; [exact Hfn|reflexivity].
  - apply Nat.leb_gt in E.
    destruct (hook_returns (console_error_with ("Error occurred on attempt "
                +:+ Js.of_nat (S attempts) +:+ ":") e1 s1)) as (s2 & Hhook).
    rewrite Hhook. simpl.
    match goal with
    | |- context [Remote.retry_loop hook fn retries fuel (S attempts) ?s3] =>
        destruct (IH (S attempts) s3 (S ops) (S recs) E ltac:(lia))
          as (s' & e & H1 & H2 & H3)
    end.
    exists s', e. split; [|split; [exact H2|exact H3]].
    eapply eq_trans; [exact H1|]. f_equal. f_equal. f_equal; lia.
Qed.

End RetryBound.

(** The bound that [retry] is written to keep, and keeps as long as the
    recovery hook returns: for every limit [N] of at least 1, an operation
    that fails on every attempt is entered exactly [N] times and the hook
    exactly [N - 1] times, and [retry] then throws the error of the last
    attempt, after printing it and the notice that the limit is reached. *)
Lemma retry_keeps_its_bound_while_the_hook_returns :
  forall (St : Type) (rt : Runtime St) (A : Type) (fn : M St A) (hook : M St unit)
         (N : nat) (s : St),
    1 <= N ->
    (forall s, exists s' e, fn s = (s', Throw e)) ->
    (forall s, exists s', hook s = (s', Ok tt)) ->
    exists s' e,
      Remote.retry (Spy.counted_hook hook) (Spy.counted_operation fn) N
                   (s, Spy.mkCalls 0 0)
      = ((s', Spy.mkCalls N (N - 1)), Throw e)
      /\ Remote.retry hook fn N s = (s', Throw e).
Proof.
  intros St rt A fn hook N s HN Hfn Hhook. unfold Remote.retry.
  destruct (retry_loop_exhausts fn hook Hfn Hhook N N 0 s 0 0 ltac:(lia) ltac:(lia))
    as (s' & e & H1 & H2 & _).
  exists s', e. split; [|exact H2].
  rewrite H1. f_equal. f_equal. f_equal; lia.
Qed.

(** When the recovery hook throws after the first failed attempt, [retry]
    is left at once with the error of the hook, whatever the limit. *)
Lemma retry_leaves_when_the_hook_throws
      {St : Type} {rt : Runtime St} {A : Type} (fn : M St A) (hook : M St unit)
      (N : nat) (s s1 s2 : St) (e e' : string) :
  2 <= N ->
  fn s = (s1, Throw e) ->
  hook (console_error_with ("Error occurred on attempt " +:+ Js.of_nat 1 +:+ ":") e s1)
  = (s2, Throw e') ->
  Remote.retry (Spy.counted_hook hook) (Spy.counted_operation fn) N (s, Spy.mkCalls 0 0)
  = ((s2, Spy.mkCalls 1 1), Throw e')
  /\ Remote.retry hook fn N s = (s2, Throw e').
Proof.
  intros HN Hfn Hhook. unfold Remote.retry. destruct N as [|[|n]]; [lia|lia|].
  split.
  - cbn [Remote.retry_loop Nat.ltb Nat.leb].
    unfold Remote.on_failure, Spy.counted_operation, Spy.counted_hook,
      try_catch, mbind, M_bind, act, mret, M_ret, mthrow, M_throw.
    cbn [fst snd]. rewrite Hfn. cbv beta iota. cbn [Nat.leb].
    cbn [console_error_with Spy.counted_runtime fst snd]. rewrite Hhook.
    reflexivity.
  - cbn [Remote.retry_loop Nat.ltb Nat.leb].
    unfold Remote.on_failure, try_catch, mbind, M_bind, act, mret, M_ret,
      mthrow, M_throw.
    rewrite Hfn. cbv beta iota. cbn [Nat.leb]. now rewrite Hhook.
Qed.

(** C2, at the input on which the code departs from it.  In the
    provisioning script the recovery hook of [retry] is [reconnectIfNeeded],
    which calls [connectToRaspberryPi] when the connection is lost, and
    [retry] awaits it inside its [catch] block.  When the first attempt of
    the operation fails, the connection is lost and that reconnection gives
    up, [retry] is left at once, whatever its limit of at least 2: the
    operation has been entered once, not [N] times, the hook once, and the
    error thrown is the one of the reconnection, not the failure of the
    operation. *)
Theorem C2_failed_reconnection_cuts_retry_short :
  forall (Net : Type) (lib : NodeSSHLib Net) (A : Type)
         (connectToRaspberryPi : M (Remote.Script Net) unit)
         (fn : M (Remote.Script Net) A) (N : nat)
         (s s1 s2 : Remote.Script Net) (e e' : string),
    2 <= N ->
    fn s = (s1, Throw e) ->
    nssh_isConnected Remote.ssh (Remote.net s1) = false ->
    connectToRaspberryPi
      (console_log "SSH connection lost. Attempting to reconnect..."
         (console_error_with ("Error occurred on attempt " +:+ Js.of_nat 1 +:+ ":") e s1))
    = (s2, Throw e') ->
    Remote.retry (Spy.counted_hook (Remote.reconnectIfNeeded connectToRaspberryPi))
                 (Spy.counted_operation fn) N (s, Spy.mkCalls 0 0)
    = ((s2, Spy.mkCalls 1 1), Throw e')
    /\ Remote.retry (Remote.reconnectIfNeeded connectToRaspberryPi) fn N s
       = (s2, Throw e').
Proof.
  intros Net lib A connectToRaspberryPi fn N s s1 s2 e e' HN Hfn Hdown Hconn.
  assert (Hhook : Remote.reconnectIfNeeded connectToRaspberryPi
                    (console_error_with ("Error occurred on attempt "
                                           +:+ Js.of_nat 1 +:+ ":") e s1)
                  = (s2, Throw e')).
  { unfold Remote.reconnectIfNeeded. rewrite bind_gets.
    cbn [console_error_with Remote.script_runtime Remote.net]. rewrite Hdown.
    unfold mbind, M_bind, act. exact Hconn. }
  exact (retry_leaves_when_the_hook_throws fn _ N s s1 s2 e e' HN Hfn Hhook).
Qed.

(* ===================================================================== *)
(** ** The statements at concrete runs *)
(* ===================================================================== *)

Import Scenario.

(** Settles an equation between closed terms by evaluation. *)
Ltac by_run := vm_compute; reflexivity.

Lemma C9_witness :
  written (res (fst (executeCommandWithStream (lib := lib_of hub_chatty)
                       1 "ls /" None onStdout onStderr (connected hub_chatty))))
  = [EvStdout "bin etc usr"; EvStderr "warning: locale not set"].
Proof.
  edestruct (C9_stream_callbacks_once_after_completion (lib := lib_of hub_chatty)
               1 "ls /" None (fun _ => mret tt) (fun _ => mret tt)
               (connected hub_chatty)) as (_ & H & _).
  - by_run.
  - by_run.
  - rewrite H. by_run.
Defined.

Lemma C3_witness :
  written (res (fst (run_pipeline (lib := lib_of hub_without_archive) run0
                       (connected hub_without_archive))))
  = [EvStep 1 "Creating directory...";
     EvStep 2 "Checking for download tools...";
     EvInfo "Using curl for download...";
     EvStep 2 "Downloading repository...";
     EvError "Download failed - archive file not found after download"].
Proof.
  edestruct (C3_missing_archive_fails_the_run (lib := lib_of hub_without_archive)
               run0 (connected hub_without_archive)) as (_ & _ & H).
  - by_run.
  - by_run.
  - by_run.
  - by_run.
  - by_run.
  - rewrite H. by_run.
Defined.

Lemma C6_witness :
  written (res (fst (run_pipeline (lib := lib_of hub_without_manifest) run0
                       (connected hub_without_manifest))))
  = [EvStep 1 "Creating directory...";
     EvStep 2 "Checking for download tools...";
     EvInfo "Using curl for download...";
     EvStep 2 "Downloading repository...";
     EvStep 3 "Extracting archive...";
     EvStep 4 "Installing dependencies...";
     EvInfo "No package.json found, skipping dependency installation";
     EvStep 5 "Running hub-setup.js...";
     EvSuccess "Setup completed successfully!"]
  /\ effects (fst (run_pipeline (lib := lib_of hub_without_manifest) run0
                     (connected hub_without_manifest)))
     = effects (fst (reach_install (lib := lib_of hub_without_manifest) run0
                       (connected hub_without_manifest)))
       ++ [SshExec 0 (test_f_command (extractedDir run0 +:+ "/package.json")) None;
           SshExec 0 (runCmd run0) None].
Proof.
  edestruct (C6_missing_manifest_skips_install (lib := lib_of hub_without_manifest)
               run0 (connected hub_without_manifest)) as (_ & _ & _ & _ & H).
  - by_run.
  - by_run.
  - by_run.
  - by_run.
  - by_run.
  - rewrite (H _ eq_refl). split; by_run.
Defined.



Lemma C5_witness :
  acquire_session (lib := lib_of Sim.capable_hub) "10.1.4.215" "root" "x"
                  (connected Sim.capable_hub)
  = (connected Sim.capable_hub, Ok 1).
Proof.
  refine (proj1 (C5_second_call_reuses_healthy_session (lib := lib_of Sim.capable_hub)
                   "10.1.4.215" "root" "x" Sim.empty_server
                   (connected Sim.capable_hub) 1 _) _).
  - eexists. split; by_run.
  - by_run.
Defined.

Lemma C10_witness :
  acquire_session (lib := lib_of Sim.capable_hub) "10.1.4.215" "root" "x"
                  (connected Sim.capable_hub)
  = acquire_session (lib := lib_of Sim.capable_hub) "10.1.4.215" "root" "another"
                    (connected Sim.capable_hub)
  /\ effects (fst (acquire_session (lib := lib_of Sim.capable_hub)
                     "10.1.4.215" "root" "another" (connected Sim.capable_hub)))
     = effects (connected Sim.capable_hub).
Proof.
  edestruct (C10_password_is_ignored_for_healthy_session (lib := lib_of Sim.capable_hub)
               "10.1.4.215" "root" "x" "another" (connected Sim.capable_hub))
    as (H1 & H2 & _).
  - by_run.
  - by_run.
  - by_run.
  - split; [exact H1 | now rewrite H2].
Defined.

Lemma C8_witness :
  activeConnections
    (fst (ssh_disconnect (lib := lib_of Sim.capable_hub) req0 (connected Sim.capable_hub)))
  = delete "10.1.4.215:root" (activeConnections (connected Sim.capable_hub))
  /\ effects
       (fst (ssh_disconnect (lib := lib_of Sim.capable_hub) req0 (connected Sim.capable_hub)))
     = effects (connected Sim.capable_hub) ++ [SshDispose 0]
  /\ ssh_disconnect (lib := lib_of Sim.capable_hub) (Sim.request "10.9.9.9" "root" "x")
                    (connected Sim.capable_hub)
     = (reply (JsonSuccess "Disconnected successfully") (connected Sim.capable_hub), Ok tt).
Proof.
  destruct (C8_disconnect_by_key (lib := lib_of Sim.capable_hub) req0
              (connected Sim.capable_hub) eq_refl eq_refl) as (_ & H & _).
  destruct (C8_disconnect_by_key (lib := lib_of Sim.capable_hub)
              (Sim.request "10.9.9.9" "root" "x")
              (connected Sim.capable_hub) eq_refl eq_refl) as (H0 & _ & _).
  erewrite H; [|by_run|by_run]. split; [by_run|split; [by_run|]].
  apply H0. by_run.
Defined.

(** A session object that has recorded its client under the key and whose
    client is no longer connected keeps the entry when
    [disconnectConnection] is called for the key. *)
Lemma C8_counterexample :
  (exists o, heap dropped !! 1 = Some o
             /\ connections o !! _getConnectionKey "10.1.4.215" "root" = Some 0)
  /\ disconnectConnection (lib := lib_of Sim.capable_hub) 1 "10.1.4.215" "root" dropped
     = (dropped, Ok tt).
Proof.
  split; [eexists; split; by_run | by_run].
Qed.

(** The provisioning script with its connection lost, while connection
    attempts fail and succeed in turn.  The command fails in every state, yet
    [retry] with limit 5 enters it once, enters [reconnectIfNeeded] once, and
    throws the error of the reconnection: every connection that a nested
    [connectToRaspberryPi] makes is undone by the next attempt of the level
    above it, which gives up at its own limit. *)
Lemma C2_witness :
  (forall s, exists s' e,
        Remote.exec_operation (lib := Flaky.flaky_lib warning_answer)
                              "pm2 save --force" None s = (s', Throw e))
  /\ exists s',
      Remote.retry
        (Spy.counted_hook
           (Remote.reconnectIfNeeded (lib := Flaky.flaky_lib warning_answer)
              (Remote.connectToRaspberryPi (lib := Flaky.flaky_lib warning_answer)
                 (mthrow "unreached") 2)))
        (Spy.counted_operation
           (Remote.exec_operation (lib := Flaky.flaky_lib warning_answer)
                                  "pm2 save --force" None))
        5 (flapping, Spy.mkCalls 0 0)
      = ((s', Spy.mkCalls 1 1), Throw "connect ETIMEDOUT").
Proof.
  split.
  - intros [[[|] rest] out]; do 2 eexists; reflexivity.
  - edestruct (C2_failed_reconnection_cuts_retry_short
                 Flaky.World (Flaky.flaky_lib warning_answer) string
                 (Remote.connectToRaspberryPi (lib := Flaky.flaky_lib warning_answer)
                    (mthrow "unreached") 2)
                 (Remote.exec_operation (lib := Flaky.flaky_lib warning_answer)
                                        "pm2 save --force" None)
                 5 flapping) as [H _].
    + lia.
    + by_run.
    + by_run.
    + by_run.
    + eexists. exact H.
Defined.

(** With a hook that returns, an operation that always fails and a limit of
    3, the operation is entered three times and the hook twice. *)
Example retry_bound_with_a_returning_hook :
  exists s' e,
    Remote.retry (Spy.counted_hook (mret tt))
                 (Spy.counted_operation (mthrow "boom" : M (list string) unit)) 3
                 ([], Spy.mkCalls 0 0)
    = ((s', Spy.mkCalls 3 2), Throw e).
Proof.
  destruct (retry_keeps_its_bound_while_the_hook_returns
              (list string) printing unit (mthrow "boom") (mret tt) 3 [])
    as (s' & e & H & _).
  - lia.
  - intros s. exists s, "boom". reflexivity.
  - intros s. exists s. reflexivity.
  - exists s', e. exact H.
Qed.

(* ===================================================================== *)
(** ** Standard error and the exit code in the two scripts *)
(* ===================================================================== *)

(** C4, at the input on which the code departs from it.  In the script that
    provisions the hub over SSH, the operation retried by
    [execCommandWithRetries] throws the standard-error text of a command
    that completed with exit code 0 whenever that text is not empty. *)
Theorem C4_remote_script_throws_on_stderr_with_zero_exit :
  forall (Net : Type) (lib : NodeSSHLib Net) (command : string) (cwd : option string)
         (s : Remote.Script Net) (n : Net) (result : CommandResult),
    nssh_execCommand Remote.ssh command cwd (Remote.net s) = (n, Ok result) ->
    code result = 0%Z ->
    Js.truthy (stderr result) = true ->
    Remote.exec_operation command cwd s
    = (Remote.mkScript n (Remote.output s), Throw (stderr result)).
Proof.
  intros Net lib command cwd s n result Hx _ Herr.
  unfold Remote.exec_operation, Remote.lift_net, mbind, M_bind.
  now rewrite Hx, Herr.
Qed.

Lemma C4_witness :
  Remote.exec_operation (lib := Flaky.flaky_lib warning_answer) "npm i -g pm2" None
                        (Remote.mkScript (Flaky.mkWorld true []) [])
  = (Remote.mkScript (Flaky.mkWorld true []) [], Throw "npm WARN deprecated").
Proof.
  apply (C4_remote_script_throws_on_stderr_with_zero_exit _
           (Flaky.flaky_lib warning_answer) "npm i -g pm2" None
           (Remote.mkScript (Flaky.mkWorld true []) []) (Flaky.mkWorld true [])
           warning_answer); reflexivity.
Defined.

(** With the connection up throughout, [execCommandWithRetries] runs such a
    command five times and gives up with the warning as its error. *)
Example remote_script_gives_up_on_warning :
  snd (Remote.execCommandWithRetries (lib := Flaky.flaky_lib warning_answer)
         (Remote.reconnectIfNeeded (lib := Flaky.flaky_lib warning_answer)
            (mthrow "unreached"))
         "npm i -g pm2" None (Remote.mkScript (Flaky.mkWorld true []) []))
  = Throw "npm WARN deprecated"
  /\ length (List.filter (fun o => match o with Remote.Error _ => true | _ => false end)
               (Remote.output
                  (fst (Remote.execCommandWithRetries
                          (lib := Flaky.flaky_lib warning_answer)
                          (Remote.reconnectIfNeeded (lib := Flaky.flaky_lib warning_answer)
                             (mthrow "unreached"))
                          "npm i -g pm2" None
                          (Remote.mkScript (Flaky.mkWorld true []) [])))))
     = 6.
Proof. split; by_run. Qed.

(** The script that runs on the hub does what C4 says: with exit code 0 the
    operation returns the standard output, whatever the standard error. *)
Lemma local_script_accepts_stderr_with_zero_exit
      {St : Type} {rt : Runtime St} {zx : Local.ZxShell St}
      (command : string) (s s1 : St) (result : Local.ProcessOutput) :
  Local.sh_c_nothrow command s = (s1, result) ->
  Local.exitCode result = 0%Z ->
  Local.exec_operation command None s = (s1, Ok (Local.stdout result)).
Proof.
  intros Hx Hcode. unfold Local.exec_operation. rewrite Hx, Hcode. simpl.
  now rewrite andb_false_r.
Qed.

(* ===================================================================== *)
(** ** The loops never run out of fuel; the other retry loops *)
(* ===================================================================== *)

Section Fuel.
Context {St : Type} {rt : Runtime St} {A : Type}.

(** Any fuel of at least the number of attempts left gives the same run:
    the bound on the iterations of the embedding is never what ends the
    loop. *)
Lemma remote_retry_loop_fuel (hook : M St unit) (fn : M St A) retries :
  forall fuel fuel' attempts s,
    retries - attempts <= fuel -> retries - attempts <= fuel' ->
    Remote.retry_loop hook fn retries fuel attempts s
    = Remote.retry_loop hook fn retries fuel' attempts s.
Proof.
  induction fuel as [|fuel IH]; intros fuel' attempts s H1 H2.
  - assert (Hge : (attempts <? retries)%nat = false) by (apply Nat.ltb_ge; lia).
    destruct fuel'; simpl; [reflexivity | now rewrite Hge].
  - destruct fuel' as [|fuel'].
    + assert (Hge : (attempts <? retries)%nat = false) by (apply Nat.ltb_ge; lia).
      simpl. now rewrite Hge.
    + simpl. destruct (attempts <? retries)%nat eqn:E; [|reflexivity].
      unfold Remote.on_failure, try_catch, mbind, M_bind, act, mret, M_ret,
        mthrow, M_throw.
      destruct (fn s) as [s1 [v|e]]; [reflexivity|].
      destruct (retries <=? S attempts)%nat eqn:E2; [reflexivity|].
      destruct (hook _) as [s2 [[]|e2]]; [|reflexivity].
      apply IH; lia.
Qed.

Lemma local_retry_loop_fuel (fn : M St A) retries :
  forall fuel fuel' attempts s,
    retries - attempts <= fuel -> retries - attempts <= fuel' ->
    Local.retry_loop fn retries fuel attempts s
    = Local.retry_loop fn retries fuel' attempts s.
Proof.
  induction fuel as [|fuel IH]; intros fuel' attempts s H1 H2.
  - assert (Hge : (attempts <? retries)%nat = false) by (apply Nat.ltb_ge; lia).
    destruct fuel'; simpl; [reflexivity | now rewrite Hge].
  - destruct fuel' as [|fuel'].
    + assert (Hge : (attempts <? retries)%nat = false) by (apply Nat.ltb_ge; lia).
      simpl. now rewrite Hge.
    + simpl. destruct (attempts <? retries)%nat eqn:E; [|reflexivity].
      unfold Local.on_failure, try_catch, mbind, M_bind, act, mret, M_ret,
        mthrow, M_throw.
      destruct (fn s) as [s1 [v|e]]; [reflexivity|].
      destruct (retries <=? S attempts)%nat eqn:E2; [reflexivity|].
      apply IH; lia.
Qed.

End Fuel.

Section ConnectBound.
Context {Net : Type} {lib : NodeSSHLib Net}.
Implicit Type s : Server Net.

Lemma connect_loop_fuel this key ip username password retries :
  forall fuel fuel' attempts s,
    retries - attempts <= fuel -> retries - attempts <= fuel' ->
    connect_loop this key ip username password retries fuel attempts s
    = connect_loop this key ip username password retries fuel' attempts s.
Proof.
  induction fuel as [|fuel IH]; intros fuel' attempts s H1 H2.
  - assert (Hge : (attempts <? retries)%nat = false) by (apply Nat.ltb_ge; lia).
    destruct fuel'; simpl; [reflexivity | now rewrite Hge].
  - destruct fuel' as [|fuel'].
    + assert (Hge : (attempts <? retries)%nat = false) by (apply Nat.ltb_ge; lia).
      simpl. now rewrite Hge.
    + simpl. destruct (attempts <? retries)%nat eqn:E; [|reflexivity].
      unfold try_catch, deref, client_connect, lift_net, connections_set, sleep,
        mbind, M_bind, act, mret, M_ret, mthrow, M_throw.
      destruct (heap s !! this) as [o|]; simpl.
      * destruct (nssh_connect (ssh o) _ (net s)) as [n [[]|e]]; simpl; [reflexivity|].
        destruct (retries <=? S attempts)%nat eqn:E2; simpl; [reflexivity|].
        apply IH; lia.
      * destruct (retries <=? S attempts)%nat eqn:E2; simpl; [reflexivity|].
        apply IH; lia.
Qed.

(** The loop of [connect] when the transport rejects every attempt: the
    library is asked to connect once per attempt left, with a pause of two
    seconds between attempts, and the error thrown wraps the message of the
    last rejection. *)
Lemma connect_loop_exhausts this key ip username password retries fuel :
  (forall c config n, exists n' e, nssh_connect c config n = (n', Throw e)) ->
  forall attempts s o,
    heap s !! this = Some o ->
    attempts < retries -> retries <= attempts + fuel ->
    exists s' e,
      connect_loop this key ip username password retries fuel attempts s
      = (s', Throw ("Failed to connect after " +:+ Js.of_nat retries
                      +:+ " attempts: " +:+ e))
      /\ heap s' = heap s
      /\ length (List.filter is_connect (effects s'))
         = length (List.filter is_connect (effects s)) + (retries - attempts)
      /\ length (List.filter is_sleep (effects s'))
         = length (List.filter is_sleep (effects s)) + (retries - attempts - 1).
Proof.
  intros Hrej. induction fuel as [|fuel IH]; intros attempts s o Ho Hlt Hfuel; [lia|].
  simpl. apply Nat.ltb_lt in Hlt as Hlt'. rewrite Hlt'.
  unfold try_catch, deref, client_connect, lift_net, connections_set, sleep,
    mbind, M_bind, act, mret, M_ret, mthrow, M_throw.
  rewrite Ho. simpl.
  destruct (Hrej (ssh o) {| cfg_host := ip; cfg_username := username;
                            cfg_password := password;
                            cfg_readyTimeout := Some 20000%Z |} (net s))
    as (n & e & Hc).
  rewrite Hc. simpl.
  destruct (retries <=? S attempts)%nat eqn:E; simpl.
  - apply Nat.leb_le in E. exists (with_net n (record_effect
        (SshConnect (ssh o) {| cfg_host := ip; cfg_username := username;
                               cfg_password := password;
                               cfg_readyTimeout := Some 20000%Z |}) s)), e.
    split; [reflexivity|split; [reflexivity|]]. simpl.
    rewrite !List.filter_app, !length_app. simpl. split; lia.
  - apply Nat.leb_gt in E.
    match goal with
    | |- context [connect_loop _ _ _ _ _ _ _ _ ?s1] =>
        destruct (IH (S attempts) s1 o Ho E ltac:(lia))
          as (s' & e' & H1 & H2 & H3 & H4)
    end.
    exists s', e'. split; [exact H1|split; [exact H2|]].
    rewrite H3, H4. simpl.
    rewrite !List.filter_app, !length_app. simpl. split; lia.
Qed.

End ConnectBound.

(* ===================================================================== *)
(** ** How the handlers obtain their session *)
(* ===================================================================== *)

Section HandlersAcquire.
Context {Net : Type} {lib : NodeSSHLib Net}.
Implicit Type s : Server Net.

(** The one-click setup handler obtains its session by [acquire_session]. *)
Lemma download_and_run_acquires req s :
  Js.truthy (ip req) = true -> Js.truthy (username req) = true ->
  Js.truthy (password req) = true ->
  download_and_run req s
  = try_catch
      (sshService ← acquire_session (ip req) (username req) (password req);
       set_sse_headers;;
       run_pipeline
         {| sshService := sshService;
            hubBasePath := Js.or_else (basePath req) (cfg_basePath getDefaultRepoConfig);
            repoOwner := Js.or_else (owner req) (cfg_owner getDefaultRepoConfig);
            repoName := Js.or_else (repo req) (cfg_repo getDefaultRepoConfig);
            repoBranch := Js.or_else (branch req) (cfg_branch getDefaultRepoConfig) |})
      (fun error => res_status_json 500 (JsonError error)) s.
Proof.
  intros H1 H2 H3. unfold download_and_run, acquire_session, try_catch.
  rewrite H1, H2, H3. simpl. unfold mbind, M_bind.
  destruct (getSSHService _ _ _ s) as [s1 [x|e]]; [|reflexivity].
  destruct (ensure_connected _ _ _ _ s1) as [s2 [[]|e]]; reflexivity.
Qed.

(** The streaming command handler does the same. *)
Lemma execute_stream_acquires req s :
  Js.truthy (ip req) = true -> Js.truthy (username req) = true ->
  Js.truthy (password req) = true -> Js.truthy (command req) = true ->
  execute_stream req s
  = try_catch
      (sshService ← acquire_session (ip req) (username req) (password req);
       set_sse_headers;;
       res_write (EvConnected "Connected to hub");;
       stream_command sshService (command req) (cwd req))
      (fun error => res_status_json 500 (JsonError error)) s.
Proof.
  intros H1 H2 H3 H4. unfold execute_stream, acquire_session, try_catch.
  rewrite H1, H2, H3, H4. simpl. unfold mbind, M_bind.
  destruct (getSSHService _ _ _ s) as [s1 [x|e]]; [|reflexivity].
  destruct (ensure_connected _ _ _ _ s1) as [s2 [[]|e]]; reflexivity.
Qed.

(** The connect handler obtains its session by [open_session]. *)
Lemma ssh_connect_opens req s :
  Js.truthy (ip req) = true -> Js.truthy (username req) = true ->
  Js.truthy (password req) = true ->
  ssh_connect req s
  = try_catch
      (open_session (ip req) (username req) (password req);;
       res_json (JsonSuccess "Connected successfully"))
      (fun error => res_status_json 500 (JsonError error)) s.
Proof.
  intros H1 H2 H3. unfold ssh_connect, open_session, try_catch.
  rewrite H1, H2, H3. simpl. unfold mbind, M_bind.
  destruct (getSSHService _ _ _ s) as [s1 [x|e]]; [|reflexivity].
  destruct (connect _ _ _ _ _ s1) as [s2 [[]|e]]; reflexivity.
Qed.

End HandlersAcquire.

(* ===================================================================== *)
(** ** The recovery hook of the provisioning script *)
(* ===================================================================== *)

Section Reconnect.
Context {Net : Type} {lib : NodeSSHLib Net}.
Implicit Type s : Remote.Script Net.

(** While the client is connected the hook returns at once and changes
    nothing. *)
Lemma reconnectIfNeeded_connected (connectToRaspberryPi : M (Remote.Script Net) unit) s :
  nssh_isConnected Remote.ssh (Remote.net s) = true ->
  Remote.reconnectIfNeeded connectToRaspberryPi s = (s, Ok tt).
Proof.
  intros H. unfold Remote.reconnectIfNeeded. rewrite bind_gets. now rewrite H.
Qed.

(** While the hub cannot be reached, every level of reconnection makes one
    attempt and then nests a further reconnection: whatever the depth, the
    calls nested beyond it are reached, and no level gets to its limit. *)
Lemma reconnection_nests_without_bound (marker : string) :
  (forall c config n, exists n' e, nssh_connect c config n = (n', Throw e)) ->
  (forall n, nssh_isConnected Remote.ssh n = false) ->
  forall depth s,
  exists s',
    Remote.connectToRaspberryPi (mthrow marker) depth s = (s', Throw marker)
    /\ length (List.filter
                 (fun o => match o with
                           | Remote.Log text => String.prefix "Connecting" text
                           | _ => false
                           end) (Remote.output s'))
       = length (List.filter
                   (fun o => match o with
                             | Remote.Log text => String.prefix "Connecting" text
                             | _ => false
                             end) (Remote.output s)) + depth.
Proof.
  intros Hrej Hdown. induction depth as [|depth IH]; intros s.
  - exists s. split; [reflexivity|lia].
  - simpl. unfold Remote.retry, RETRY_LIMIT. simpl.
    unfold Remote.on_failure, Remote.connect_operation, Remote.lift_net,
      Remote.reconnectIfNeeded, try_catch, mbind, M_bind, act, gets, mret, M_ret,
      mthrow, M_throw.
    cbn [Remote.net Remote.output console_log console_error console_error_with
         Remote.script_runtime].
    destruct (Hrej Remote.ssh
                {| cfg_host := Remote.MEDIA_HUB_IP; cfg_username := "root";
                   cfg_password := "keus123"; cfg_readyTimeout := None |}
                (Remote.net s)) as (n & e & Hc).
    rewrite Hc. cbn [Nat.leb]. cbv beta iota.
    cbn [Remote.net Remote.output]. rewrite Hdown.
    match goal with
    | |- context [Remote.connectToRaspberryPi _ depth ?s1] =>
        destruct (IH s1) as (s' & H1 & H2)
    end.
    exists s'. unfold mthrow, M_throw in H1. rewrite H1. split; [reflexivity|].
    rewrite H2. cbn [Remote.output].
    rewrite !List.filter_app, !length_app. simpl. lia.
Qed.

End Reconnect.

(* ===================================================================== *)
(** ** Requests that lack a required field *)
(* ===================================================================== *)

Section Validation.
Context {Net : Type} {lib : NodeSSHLib Net}.
Implicit Type s : Server Net.

(** A request whose body has been parsed and in which a required field is
    missing or empty is answered with status 400 and the message of the
    handler, and nothing else happens: the registry, the session objects,
    the outside world, the record of library calls and the event stream are
    as before. *)
Theorem invalid_request_is_refused_untouched :
  forall (req : Request) (s : Server Net),
    (Js.truthy (ip req) && Js.truthy (username req) && Js.truthy (password req) = false ->
     download_and_run req s
     = (answered 400 (JsonError "IP, username, and password are required") s, Ok tt)
     /\ ssh_connect req s
        = (answered 400 (JsonError "IP, username, and password are required") s, Ok tt))
    /\ (Js.truthy (ip req) && Js.truthy (username req) && Js.truthy (password req)
        && Js.truthy (command req) = false ->
        execute_stream req s
        = (answered 400 (JsonError "IP, username, password, and command are required") s,
           Ok tt))
    /\ (Js.truthy (ip req) && Js.truthy (username req) = false ->
        ssh_disconnect req s
        = (answered 400 (JsonError "IP and username are required") s, Ok tt)).
Proof.
  intros req s. split; [|split].
  - intros H. unfold download_and_run, ssh_connect, try_catch.
    destruct (Js.truthy (ip req)), (Js.truthy (username req)),
      (Js.truthy (password req)); try discriminate; split; reflexivity.
  - intros H. unfold execute_stream, try_catch.
    destruct (Js.truthy (ip req)), (Js.truthy (username req)),
      (Js.truthy (password req)), (Js.truthy (command req));
      try discriminate; reflexivity.
  - intros H. unfold ssh_disconnect, try_catch.
    destruct (Js.truthy (ip req)), (Js.truthy (username req));
      try discriminate; reflexivity.
Qed.

End Validation.

Lemma invalid_request_is_refused_untouched_witness :
  effects (fst (download_and_run (lib := lib_of Sim.capable_hub)
                  (Sim.request "10.1.4.215" EmptyString "x") (connected Sim.capable_hub)))
  = effects (connected Sim.capable_hub)
  /\ statusCode (res (fst (ssh_disconnect (lib := lib_of Sim.capable_hub)
                             (Sim.request EmptyString "root" "x")
                             (connected Sim.capable_hub))))
     = 400.
Proof.
  destruct (invalid_request_is_refused_untouched (lib := lib_of Sim.capable_hub)
              (Sim.request "10.1.4.215" EmptyString "x") (connected Sim.capable_hub))
    as ([H1 _] & _ & _); [reflexivity|].
  destruct (invalid_request_is_refused_untouched (lib := lib_of Sim.capable_hub)
              (Sim.request EmptyString "root" "x") (connected Sim.capable_hub))
    as (_ & _ & H3).
  rewrite H1, (H3 eq_refl). split; reflexivity.
Defined.

(* ===================================================================== *)
(** ** Detection of the download tool *)
(* ===================================================================== *)

Section DetectTool.
Context {Net : Type} {lib : NodeSSHLib Net}.
Implicit Type s : Server Net.

Lemma executeCommand_or_null_run s this o cmd n out :
  heap s !! this = Some o ->
  nssh_execCommand (ssh o) cmd None (net s) = (n, out) ->
  executeCommand_or_null this cmd s
  = (exec_state (ssh o) cmd None n s,
     Ok (match out with Ok r => Some r | Throw _ => None end)).
Proof.
  intros Ho Hx. unfold executeCommand_or_null, try_catch.
  unfold mbind, M_bind. rewrite (executeCommand_run _ _ _ _ _ _ _ Ho Hx).
  destruct out; reflexivity.
Qed.

Lemma tool_found_probe out :
  tool_found (match out with Ok r => Some r | Throw _ => None end) = probe_found out.
Proof. destruct out; reflexivity. Qed.

Lemma executeCommand_or_null_returns this cmd s :
  exists s' r, executeCommand_or_null this cmd s = (s', Ok r).
Proof.
  unfold executeCommand_or_null, try_catch, mbind, M_bind.
  destruct (executeCommand this cmd None s) as [s1 [r|e]]; eauto.
Qed.

(** [detectDownloadTool] never throws.  It probes for curl first and
    answers curl when that probe completes with exit code 0 and a standard
    output that is not blank, without probing for wget at all; otherwise it
    probes for wget, and answers wget or, when that probe fails too, null.
    A probe the SSH layer rejects counts as a tool that is not there. *)
Theorem detectDownloadTool_prefers_curl :
  forall (this : nat) (s : Server Net),
    (exists s' tool, detectDownloadTool this s = (s', Ok tool))
    /\ forall (o : SSHService) (n1 n2 : Net) (out1 out2 : Res CommandResult),
        heap s !! this = Some o ->
        nssh_execCommand (ssh o) "which curl" None (net s) = (n1, out1) ->
        nssh_execCommand (ssh o) "which wget" None n1 = (n2, out2) ->
        let s1 := exec_state (ssh o) "which curl" None n1 s in
        let s2 := exec_state (ssh o) "which wget" None n2 s1 in
        detectDownloadTool this s
        = if probe_found out1 then (s1, Ok (Some "curl"))
          else if probe_found out2 then (s2, Ok (Some "wget"))
          else (s2, Ok None).
Proof.
  intros this s. split.
  - unfold detectDownloadTool.
    destruct (executeCommand_or_null_returns this "which curl" s) as (s1 & r1 & H1).
    rewrite (bind_ok _ _ _ _ _ H1).
    destruct (tool_found r1); [eauto|].
    destruct (executeCommand_or_null_returns this "which wget" s1) as (s2 & r2 & H2).
    rewrite (bind_ok _ _ _ _ _ H2).
    destruct (tool_found r2); eauto.
  - intros o n1 n2 out1 out2 Ho H1 H2 s1 s2. unfold detectDownloadTool.
    rewrite (bind_ok _ _ _ _ _ (executeCommand_or_null_run _ _ _ _ _ _ Ho H1)).
    rewrite tool_found_probe. destruct (probe_found out1); [reflexivity|].
    assert (Ho1 : heap s1 !! this = Some o) by exact Ho.
    assert (H2' : nssh_execCommand (ssh o) "which wget" None (net s1) = (n2, out2))
      by exact H2.
    rewrite (bind_ok _ _ _ _ _ (executeCommand_or_null_run _ _ _ _ _ _ Ho1 H2')).
    rewrite tool_found_probe. destruct (probe_found out2); reflexivity.
Qed.

End DetectTool.

Lemma detectDownloadTool_prefers_curl_witness :
  snd (detectDownloadTool (lib := lib_of Sim.capable_hub) 1 (connected Sim.capable_hub))
  = Ok (Some "curl")
  /\ effects (fst (detectDownloadTool (lib := lib_of Sim.capable_hub) 1
                     (connected Sim.capable_hub)))
     = effects (connected Sim.capable_hub) ++ [SshExec 0 "which curl" None].
Proof.
  destruct (detectDownloadTool_prefers_curl (lib := lib_of Sim.capable_hub) 1
              (connected Sim.capable_hub)) as [_ H].
  erewrite H; cycle 1.
  - by_run.
  - by_run.
  - by_run.
  - split; by_run.
Defined.

(* ===================================================================== *)
(** ** The existence probe *)
(* ===================================================================== *)

Lemma prefix_spec (p s : string) :
  String.prefix p s = true <-> exists post, s = p +:+ post.
Proof.
  revert s. induction p as [|a p IH]; intros s.
  - split; [intros _; now exists s | intros _; now destruct s].
  - destruct s as [|b s]; simpl.
    + split; [discriminate | intros [post H]; discriminate].
    + destruct (Ascii.ascii_dec a b) as [->|Hne].
      * rewrite IH. split; intros [post H]; exists post.
        -- change (String b s = String b (p +:+ post)). congruence.
        -- change (String b s = String b (p +:+ post)) in H. congruence.
      * split; [discriminate | intros [post H]].
        change (String b s = String a (p +:+ post)) in H. congruence.
Qed.

Lemma includes_unfold (hay needle : string) :
  Js.includes hay needle
  = if String.prefix needle hay then true
    else match hay with
         | EmptyString => false
         | String _ rest => Js.includes rest needle
         end.
Proof. destruct hay; reflexivity. Qed.

Lemma includes_spec (hay needle : string) :
  Js.includes hay needle = true <-> exists pre post, hay = pre +:+ needle +:+ post.
Proof.
  split.
  - induction hay as [|c hay IH]; rewrite includes_unfold.
    + destruct (String.prefix needle EmptyString) eqn:E; [|discriminate].
      intros _. apply prefix_spec in E as [post E]. now exists EmptyString, post.
    + destruct (String.prefix needle (String c hay)) eqn:E.
      * intros _. apply prefix_spec in E as [post E]. now exists EmptyString, post.
      * intros H. destruct (IH H) as (pre & post & ->).
        now exists (String c pre), post.
  - intros (pre & post & ->). induction pre as [|c pre IH]; rewrite includes_unfold.
    + assert (E : String.prefix needle (needle +:+ post) = true)
        by (apply prefix_spec; now exists post).
      change (EmptyString +:+ needle +:+ post) with (needle +:+ post).
      now rewrite E.
    + change (String c pre +:+ needle +:+ post)
        with (String c (pre +:+ needle +:+ post)).
      destruct (String.prefix needle (String c (pre +:+ needle +:+ post)));
        [reflexivity | exact IH].
Qed.

Section ExistenceProbe.
Context {Net : Type} {lib : NodeSSHLib Net}.
Implicit Type s : Server Net.

(** The existence probe never throws.  It answers that the file is there
    exactly when the probe command completed and the word exists occurs
    somewhere in its standard output; the exit code is not read, and a probe
    the SSH layer rejects counts as a file that is not there. *)
Theorem file_exists_reads_only_the_output :
  forall (this : nat) (path : string) (s : Server Net) (o : SSHService)
         (n : Net) (out : Res CommandResult),
    heap s !! this = Some o ->
    nssh_execCommand (ssh o) (test_f_command path) None (net s) = (n, out) ->
    (exists found, snd (file_exists this path s) = Ok found)
    /\ (snd (file_exists this path s) = Ok true
        <-> exists r pre post, out = Ok r /\ stdout r = pre +:+ "exists" +:+ post).
Proof.
  intros this path s o n out Ho Hx.
  rewrite (file_exists_run _ _ _ _ _ _ Ho Hx). simpl. split; [eauto|].
  destruct out as [r|e]; simpl.
  - split.
    + intros [= H]. apply includes_spec in H as (pre & post & H). eauto.
    + intros (r' & pre & post & [= <-] & H). f_equal. apply includes_spec. eauto.
  - split; [discriminate | intros (r & pre & post & H & _); discriminate].
Qed.

End ExistenceProbe.

Lemma file_exists_reads_only_the_output_witness :
  snd (file_exists (lib := lib_of hub_chatty) 1 "/data/hub-setup/repo.tar.gz"
         (connected hub_chatty))
  = Ok false.
Proof.
  destruct (file_exists_reads_only_the_output (lib := lib_of hub_chatty) 1
              "/data/hub-setup/repo.tar.gz" (connected hub_chatty)
              (mkService 0 {[ "10.1.4.215:root" := 0 ]}) [0]
              (hub_chatty (test_f_command "/data/hub-setup/repo.tar.gz")))
    as [[found H] _].
  - by_run.
  - by_run.
  - rewrite H. revert H. vm_compute. intros [= <-]. reflexivity.
Defined.

(* ===================================================================== *)
(** ** Outcomes of [connect] *)
(* ===================================================================== *)

Section ConnectOutcomes.
Context {Net : Type} {lib : NodeSSHLib Net}.
Implicit Type s : Server Net.

Lemma connect_enters_loop this ip username password retries s o :
  heap s !! this = Some o ->
  nothing_to_reuse o (_getConnectionKey ip username) (net s) ->
  connect this ip username password retries s
  = connect_loop this (_getConnectionKey ip username) ip username password
                 retries retries 0 s.
Proof.
  intros Ho Hn. unfold connect, nothing_to_reuse in *.
  rewrite (bind_ok _ _ _ _ _ (deref_run _ _ _ Ho)).
  destruct (connections o !! _getConnectionKey ip username) as [c|].
  - unfold client_isConnected. rewrite bind_assoc, bind_gets, Hn. reflexivity.
  - reflexivity.
Qed.

Lemma connect_rejected this ip username password retries s o :
  (forall c config n, exists n' e, nssh_connect c config n = (n', Throw e)) ->
  heap s !! this = Some o ->
  nothing_to_reuse o (_getConnectionKey ip username) (net s) ->
  1 <= retries ->
  exists s' e,
    connect this ip username password retries s
    = (s', Throw ("Failed to connect after " +:+ Js.of_nat retries
                    +:+ " attempts: " +:+ e))
    /\ heap s' = heap s
    /\ activeConnections s' = activeConnections s
    /\ res s' = res s
    /\ length (List.filter is_connect (effects s'))
       = length (List.filter is_connect (effects s)) + retries
    /\ length (List.filter is_sleep (effects s'))
       = length (List.filter is_sleep (effects s)) + (retries - 1).
Proof.
  intros Hrej Ho Hn Hpos.
  rewrite (connect_enters_loop _ _ _ _ _ _ _ Ho Hn).
  destruct (connect_loop_exhausts this (_getConnectionKey ip username) ip username
              password retries retries Hrej 0 s o Ho ltac:(lia) ltac:(lia))
    as (s' & e & H1 & H2 & H3 & H4).
  exists s', e. rewrite H1. split; [reflexivity|]. split; [exact H2|].
  pose proof (connect_loop_post this (_getConnectionKey ip username) ip username
                password retries retries 0 s ltac:(lia) ltac:(lia)) as Hp.
  rewrite H1 in Hp. split; [exact Hp|].
  split; [|split; [rewrite H3; lia | rewrite H4; lia]].
  clear - H1. revert H1. generalize 0 at 1 as attempts. generalize retries at 2 as fuel.
  intros fuel. revert s. induction fuel as [|fuel IH]; intros s attempts; simpl.
  - discriminate.
  - destruct (attempts <? retries)%nat; [|discriminate].
    unfold try_catch, deref, client_connect, lift_net, connections_set, sleep,
      mbind, M_bind, act, mret, M_ret, mthrow, M_throw.
    destruct (heap s !! this) as [o|]; simpl.
    + destruct (nssh_connect (ssh o) _ (net s)) as [n [[]|e0]]; simpl; [discriminate|].
      destruct (retries <=? S attempts)%nat; simpl.
      * intros [= <- _]. reflexivity.
      * intros H. apply IH in H. exact H.
    + destruct (retries <=? S attempts)%nat; simpl.
      * intros [= <- _]. reflexivity.
      * intros H. apply IH in H. exact H.
Qed.

End ConnectOutcomes.

Section ConnectTheorems.
Context {Net : Type} {lib : NodeSSHLib Net}.
Implicit Type s : Server Net.


(** With a limit of 0 nothing is attempted: [connect] returns normally
    although the session object has nothing to reuse, and leaves the whole
    state as it is; [retry], in both scripts, returns [undefined] without
    entering the operation. *)
Theorem zero_limit_attempts_nothing :
  forall (this : nat) (ip username password : string) (s : Server Net) (o : SSHService),
    heap s !! this = Some o ->
    nothing_to_reuse o (_getConnectionKey ip username) (net s) ->
    connect this ip username password 0 s = (s, Ok tt)
    /\ (forall (St : Type) (rt : Runtime St) (A : Type) (hook : M St unit)
               (fn : M St A) (st : St),
           Remote.retry hook fn 0 st = (st, Ok None)
           /\ Local.retry fn 0 st = (st, Ok None)).
Proof.
  intros this ip username password s o Ho Hn. split.
  - now rewrite (connect_enters_loop _ _ _ _ _ _ _ Ho Hn).
  - intros St rt A hook fn st. split; reflexivity.
Qed.

(** When [connect], called with a limit of at least 1, returns normally,
    the session object holds its client under the key of the call, and the
    registry is as before. *)
Theorem connect_records_its_client :
  forall (this : nat) (ip username password : string) (retries : nat)
         (s s1 : Server Net),
    1 <= retries ->
    connect this ip username password retries s = (s1, Ok tt) ->
    activeConnections s1 = activeConnections s
    /\ exists o, heap s1 !! this = Some o
                 /\ connections o !! _getConnectionKey ip username = Some (ssh o).
Proof.
  intros this ip username password retries s s1 Hpos H.
  pose proof (connect_post this ip username password retries s ltac:(lia)) as Hp.
  now rewrite H in Hp.
Qed.

Lemma getSSHService_fresh s ip username password :
  activeConnections s !! (ip +:+ ":" +:+ username) = None ->
  getSSHService ip username password s
  = (with_activeConnections (insert (ip +:+ ":" +:+ username) (S (nextId s)))
       (with_nextId (S (S (nextId s)))
          (with_heap (insert (S (nextId s)) (mkService (nextId s) ∅)) s)),
     Ok (S (nextId s))).
Proof.
  intros H. unfold getSSHService. rewrite bind_gets, H.
  unfold new_SSHService. run_m. now rewrite lookup_insert_eq.
Qed.

(** A request for a key that has no session yet, made while the transport
    rejects every attempt: the one-click setup handler and the connect
    handler answer with status 500 and the message of [connect] after three
    attempts; no event is written and no header is set.  The session object
    created for the request stays in the registry. *)
Theorem unreachable_hub_is_answered_with_500 :
  forall (req : Request) (s : Server Net),
    Js.truthy (ip req) = true ->
    Js.truthy (username req) = true ->
    Js.truthy (password req) = true ->
    (forall c config n, exists n' e, nssh_connect c config n = (n', Throw e)) ->
    activeConnections s !! (ip req +:+ ":" +:+ username req) = None ->
    nssh_isConnected (nextId s) (net s) = false ->
    forall handler, handler = download_and_run \/ handler = ssh_connect ->
    exists s' e,
      handler req s = (s', Ok tt)
      /\ statusCode (res s') = 500
      /\ json (res s')
         = Some (JsonError ("Failed to connect after 3 attempts: " +:+ e))
      /\ written (res s') = written (res s)
      /\ headers (res s') = headers (res s)
      /\ activeConnections s'
         = <[ip req +:+ ":" +:+ username req := S (nextId s)]> (activeConnections s)
      /\ length (List.filter is_connect (effects s'))
         = length (List.filter is_connect (effects s)) + 3.
Proof.
  intros req s Hip Hu Hp Hrej Hnone Hdown handler Hh.
  pose proof (getSSHService_fresh s (ip req) (username req) (password req) Hnone) as Hg.
  set (s0 := with_activeConnections
               (insert (ip req +:+ ":" +:+ username req) (S (nextId s)))
               (with_nextId (S (S (nextId s)))
                  (with_heap (insert (S (nextId s)) (mkService (nextId s) ∅)) s))) in *.
  assert (Ho : heap s0 !! S (nextId s) = Some (mkService (nextId s) ∅))
    by apply lookup_insert_eq.
  destruct (connect_rejected (S (nextId s)) (ip req) (username req) (password req) 3
              s0 (mkService (nextId s) ∅) Hrej Ho I ltac:(lia))
    as (s1 & e & Hc & Hheap & Hact & Hres & Hn1 & Hn2).
  destruct Hh as [-> | ->].
  - exists (answered 500 (JsonError ("Failed to connect after 3 attempts: " +:+ e)) s1), e.
    split.
    + unfold download_and_run, try_catch. rewrite Hip, Hu, Hp. simpl.
      rewrite (bind_ok _ _ _ _ _ Hg). unfold ensure_connected.
      rewrite (bind_assoc (isConnected (S (nextId s)))).
      rewrite (bind_ok _ _ _ _ _ (isConnected_run _ _ _ Ho)).
      change (net s0) with (net s). cbn [ssh]. rewrite Hdown.
      rewrite (bind_throw _ _ _ _ _ Hc). reflexivity.
    + simpl. rewrite Hres, Hact. repeat split; try reflexivity. exact Hn1.
  - exists (answered 500 (JsonError ("Failed to connect after 3 attempts: " +:+ e)) s1), e.
    split.
    + unfold ssh_connect, try_catch. rewrite Hip, Hu, Hp. simpl.
      rewrite (bind_ok _ _ _ _ _ Hg).
      rewrite (bind_throw _ _ _ _ _ Hc). reflexivity.
    + simpl. rewrite Hres, Hact. repeat split; try reflexivity. exact Hn1.
Qed.

End ConnectTheorems.

Import Scenario2.

Lemma unreachable_rejects :
  forall c config n,
  exists n' e, nssh_connect (NodeSSHLib := unreachable) c config n = (n', Throw e).
Proof. intros c config n. do 2 eexists. reflexivity. Qed.


Lemma zero_limit_attempts_nothing_witness :
  connect (lib := unreachable) 1 "10.1.4.215" "root" "x" 0 registered
  = (registered, Ok tt).
Proof.
  refine (proj1 (zero_limit_attempts_nothing (lib := unreachable) 1 "10.1.4.215" "root" "x"
                   registered (mkService 0 ∅) _ _)).
  - by_run.
  - exact I.
Defined.

Lemma connect_records_its_client_witness :
  exists o, heap (connected Sim.capable_hub) !! 1 = Some o
            /\ connections o !! _getConnectionKey "10.1.4.215" "root" = Some (ssh o).
Proof.
  refine (proj2 (connect_records_its_client (lib := lib_of Sim.capable_hub)
                   1 "10.1.4.215" "root" "x" 3 registered (connected Sim.capable_hub)
                   _ _)).
  - lia.
  - by_run.
Defined.

Lemma unreachable_hub_is_answered_with_500_witness :
  exists s',
    download_and_run (lib := unreachable) req0 Sim.empty_server = (s', Ok tt)
    /\ statusCode (res s') = 500
    /\ written (res s') = [].
Proof.
  destruct (unreachable_hub_is_answered_with_500 (lib := unreachable) req0 Sim.empty_server
              eq_refl eq_refl eq_refl unreachable_rejects)
    with (handler := download_and_run (lib := unreachable))
    as (s' & e & H & H1 & _ & H2 & _).
  - by_run.
  - reflexivity.
  - now left.
  - exists s'. split; [exact H|split; [exact H1|exact H2]].
Defined.

(* ===================================================================== *)
(** ** What a computation may write *)
(* ===================================================================== *)

Section OnlyWrites.
Context {Net : Type} {lib : NodeSSHLib Net}.
Variable P : Event -> Prop.
Implicit Type s : Server Net.

Lemma only_writes_bind {A B} (m : M (Server Net) A) (k : A -> M (Server Net) B) :
  only_writes P m -> (forall a, only_writes P (k a)) -> only_writes P (m ≫= k).
Proof.
  intros Hm Hk s. destruct (Hm s) as (e1 & H1 & F1). unfold mbind, M_bind.
  destruct (m s) as [s1 [a|e]]; simpl in *; [|eauto].
  destruct (Hk a s1) as (e2 & H2 & F2). exists (e1 ++ e2). split.
  - rewrite H2, H1. now rewrite <- app_assoc.
  - apply Forall_app; auto.
Qed.

Lemma only_writes_try_catch {A} (m : M (Server Net) A) h :
  only_writes P m -> (forall e, only_writes P (h e)) -> only_writes P (try_catch m h).
Proof.
  intros Hm Hh s. destruct (Hm s) as (e1 & H1 & F1). unfold try_catch.
  destruct (m s) as [s1 [a|e]]; simpl in *; [eauto|].
  destruct (Hh e s1) as (e2 & H2 & F2). exists (e1 ++ e2). split.
  - rewrite H2, H1. now rewrite <- app_assoc.
  - apply Forall_app; auto.
Qed.

Lemma only_writes_nothing {A} (m : M (Server Net) A) :
  (forall s, written (res (fst (m s))) = written (res s)) -> only_writes P m.
Proof.
  intros H s. exists []. split; [now rewrite app_nil_r | constructor].
Qed.

Lemma only_writes_ret {A} (a : A) : only_writes P (mret a : M (Server Net) A).
Proof. now apply only_writes_nothing. Qed.

Lemma only_writes_throw {A} (e : string) : only_writes P (mthrow e : M (Server Net) A).
Proof. now apply only_writes_nothing. Qed.

Lemma only_writes_gets {A} (f : Server Net -> A) : only_writes P (gets f).
Proof. now apply only_writes_nothing. Qed.

Lemma only_writes_act (f : Server Net -> Server Net) :
  (forall s, written (res (f s)) = written (res s)) -> only_writes P (act f).
Proof. intros H. now apply only_writes_nothing. Qed.

Lemma only_writes_lift_net {A} (m : M Net A) : only_writes P (lift_net m).
Proof.
  apply only_writes_nothing. intros s. unfold lift_net.
  now destruct (m (net s)) as [n r].
Qed.

Lemma only_writes_deref this : only_writes P (deref (Net := Net) this).
Proof.
  apply only_writes_nothing. intros s. unfold deref. now destruct (heap s !! this).
Qed.

Lemma only_writes_res_write e : P e -> only_writes P (res_write (Net := Net) e).
Proof. intros H s. exists [e]. split; [reflexivity | now constructor]. Qed.

End OnlyWrites.

(** Splits a goal [only_writes P m] along the structure of [m]. *)
Ltac writes_step :=
  match goal with
  | |- only_writes _ (mbind _ _) => apply only_writes_bind; [|intros ?]
  | |- only_writes _ (try_catch _ _) => apply only_writes_try_catch; [|intros ?]
  | |- only_writes _ (mret _) => apply only_writes_ret
  | |- only_writes _ (mthrow _) => apply only_writes_throw
  | |- only_writes _ (gets _) => apply only_writes_gets
  | |- only_writes _ (lift_net _) => apply only_writes_lift_net
  | |- only_writes _ (deref _) => apply only_writes_deref
  | |- only_writes _ (res_write _) => apply only_writes_res_write; exact I
  | |- only_writes _ (act _) => apply only_writes_act; intros ?; reflexivity
  | |- only_writes _ (if ?b then _ else _) => destruct b
  | |- only_writes _ (match ?x with _ => _ end) => destruct x
  end.

Section OnlyWritesOfTheCode.
Context {Net : Type} {lib : NodeSSHLib Net}.
Variable P : Event -> Prop.

Lemma only_writes_connect_loop this key ip username password retries fuel attempts :
  only_writes P (connect_loop this key ip username password retries fuel attempts).
Proof.
  revert attempts. induction fuel as [|fuel IH]; intros attempts; simpl.
  - apply only_writes_ret.
  - destruct (attempts <? retries)%nat; [|apply only_writes_ret].
    apply only_writes_bind.
    + unfold client_connect, connections_set, sleep. repeat writes_step.
    + intros [a|]; [apply IH | apply only_writes_ret].
Qed.

Lemma only_writes_connect this ip username password retries :
  only_writes P (connect this ip username password retries).
Proof.
  unfold connect, client_isConnected, set_ssh. repeat writes_step.
  apply only_writes_connect_loop.
Qed.

Lemma only_writes_executeCommand this command cwd :
  only_writes P (executeCommand this command cwd).
Proof. unfold executeCommand, client_execCommand. repeat writes_step. Qed.

Lemma only_writes_isConnected this : only_writes P (isConnected this).
Proof. unfold isConnected, client_isConnected. repeat writes_step. Qed.

Lemma only_writes_getSSHService ip username password :
  only_writes P (getSSHService (Net := Net) ip username password).
Proof.
  unfold getSSHService. repeat writes_step.
  now apply only_writes_nothing.
Qed.

Lemma only_writes_ensure_connected this ip username password :
  only_writes P (ensure_connected this ip username password).
Proof.
  unfold ensure_connected. apply only_writes_bind; [apply only_writes_isConnected|].
  intros [|]; [apply only_writes_ret | apply only_writes_connect].
Qed.

Lemma only_writes_set_sse_headers : only_writes P (set_sse_headers (Net := Net)).
Proof. unfold set_sse_headers, res_setHeader. repeat writes_step. Qed.

Lemma only_writes_detectDownloadTool this : only_writes P (detectDownloadTool this).
Proof.
  unfold detectDownloadTool, executeCommand_or_null.
  repeat (writes_step || apply only_writes_executeCommand).
Qed.

Lemma only_writes_file_exists this path : only_writes P (file_exists this path).
Proof.
  unfold file_exists. repeat (writes_step || apply only_writes_executeCommand).
Qed.

Lemma only_writes_executeCommandWithStream this command cwd :
  (forall e, is_chunk e -> P e) ->
  only_writes P (executeCommandWithStream this command cwd onStdout onStderr).
Proof.
  intros HP.
  unfold executeCommandWithStream, client_execCommand, deliver, onStdout, onStderr.
  repeat (writes_step
          || (apply only_writes_res_write; apply HP; exact I)).
Qed.

Lemma only_writes_res_status_json status body :
  only_writes P (res_status_json (Net := Net) status body).
Proof. unfold res_status_json. writes_step. Qed.

End OnlyWritesOfTheCode.

(* ===================================================================== *)
(** ** The ordinals of the step events *)
(* ===================================================================== *)

Section StepOrdinals.
Context {Net : Type} {lib : NodeSSHLib Net}.
Implicit Type s : Server Net.

Lemma steps_of_app a b : steps_of (a ++ b) = steps_of a ++ steps_of b.
Proof. apply List.flat_map_app. Qed.

Lemma notes_have_no_step evs : Forall is_note evs -> steps_of evs = [].
Proof.
  induction 1 as [|e evs He _ IH]; [reflexivity|].
  unfold steps_of in *. simpl. rewrite IH. now destruct e.
Qed.

Lemma notes_are_not_terminal evs :
  Forall is_note evs -> Forall (fun e => is_terminal e = false) evs.
Proof.
  induction 1 as [|e evs He _ IH]; constructor; [now destruct e | exact IH].
Qed.

Lemma nothing_written evs : Forall (fun _ : Event => False) evs -> evs = [].
Proof. destruct 1; [reflexivity | contradiction]. Qed.

Lemma announces_notes {A} (m : M (Server Net) A) :
  only_writes is_note m -> announces [] m.
Proof.
  intros H s. destruct (H s) as (evs & Hw & F). exists evs, [].
  split; [exact Hw|]. split; [now apply notes_are_not_terminal|].
  split; [now rewrite notes_have_no_step | reflexivity].
Qed.

Lemma announces_bind {A B} l1 l2 (m : M (Server Net) A) (k : A -> M (Server Net) B) :
  announces l1 m -> (forall a, announces l2 (k a)) -> announces (l1 ++ l2) (m ≫= k).
Proof.
  intros Hm Hk s. destruct (Hm s) as (e1 & r1 & H1 & F1 & L1 & O1).
  unfold mbind, M_bind. destruct (m s) as [s1 [a|e]]; simpl in *.
  - rewrite (O1 a eq_refl), app_nil_r in L1. subst l1.
    destruct (Hk a s1) as (e2 & r2 & H2 & F2 & L2 & O2).
    exists (e1 ++ e2), r2. rewrite H2, H1, steps_of_app, L2, <- !app_assoc.
    split; [reflexivity|]. split; [apply Forall_app; auto|]. split; [reflexivity|exact O2].
  - exists e1, (r1 ++ l2). rewrite L1, <- app_assoc.
    split; [exact H1|]. split; [exact F1|]. split; [reflexivity|discriminate].
Qed.

Lemma announces_step {A} n message (m : M (Server Net) A) :
  only_writes is_note m -> announces [n] (res_write (EvStep n message);; m).
Proof.
  intros H s. unfold res_write. rewrite bind_act.
  destruct (H (write (EvStep n message) s)) as (evs & Hw & F).
  exists (EvStep n message :: evs), []. rewrite Hw. simpl. rewrite <- app_assoc.
  split; [reflexivity|]. split.
  - constructor; [reflexivity | now apply notes_are_not_terminal].
  - split; [|reflexivity].
    change (steps_of (EvStep n message :: evs)) with (n :: steps_of evs).
    now rewrite notes_have_no_step.
Qed.

Lemma chunks_are_notes e : is_chunk e -> is_note e.
Proof. now destruct e. Qed.

Lemma announces_stages r : announces [1; 2; 2; 3; 4; 5] (stages r).
Proof.
  unfold stages.
  apply (announces_bind [1] [2; 2; 3; 4; 5]).
  { apply announces_step.
    repeat (writes_step || apply only_writes_executeCommand). }
  intros _. apply (announces_bind [2] [2; 3; 4; 5]).
  { apply announces_step.
    repeat (writes_step || apply only_writes_detectDownloadTool). }
  intros tool. apply (announces_bind [2] [3; 4; 5]).
  { apply announces_step.
    repeat (writes_step
            || (apply only_writes_executeCommandWithStream; apply chunks_are_notes)). }
  intros _. apply (announces_bind [] [3; 4; 5]).
  { apply announces_notes. unfold verify_archive.
    repeat (writes_step || apply only_writes_file_exists). }
  intros _. apply (announces_bind [3] [4; 5]).
  { apply announces_step.
    repeat (writes_step
            || (apply only_writes_executeCommandWithStream; apply chunks_are_notes)). }
  intros _. apply (announces_bind [4] [5]).
  { apply announces_step.
    repeat (writes_step || apply only_writes_file_exists
            || (apply only_writes_executeCommandWithStream; apply chunks_are_notes)). }
  intros _. apply announces_step.
  repeat (writes_step
          || (apply only_writes_executeCommandWithStream; apply chunks_are_notes)).
Qed.

Lemma reports_run_pipeline r : reports [1; 2; 2; 3; 4; 5] (run_pipeline r).
Proof.
  intros s. rewrite run_pipeline_result.
  destruct (announces_stages r s) as (evs & rest & Hw & F & L & O).
  destruct (stages r s) as [s1 [[]|e]]; simpl in *.
  - exists (evs ++ [EvSuccess "Setup completed successfully!"]), rest.
    rewrite Hw, <- app_assoc, steps_of_app. simpl. rewrite app_nil_r.
    split; [reflexivity|]. split; [exact L|]. intros _. now apply (O tt).
  - exists (evs ++ [EvError e]), rest.
    rewrite Hw, <- app_assoc, steps_of_app. simpl. rewrite app_nil_r.
    split; [reflexivity|]. split; [exact L|]. rewrite last_snoc. discriminate.
Qed.

Lemma reports_silent {A} l (m : M (Server Net) A) :
  only_writes (fun _ => False) m -> reports l m.
Proof.
  intros H s. destruct (H s) as (evs & Hw & F). apply nothing_written in F. subst evs.
  exists [], l. split; [exact Hw|]. split; [reflexivity|discriminate].
Qed.

Lemma reports_bind {A B} l (m : M (Server Net) A) (k : A -> M (Server Net) B) :
  only_writes (fun _ => False) m -> (forall a, reports l (k a)) -> reports l (m ≫= k).
Proof.
  intros Hm Hk s. destruct (Hm s) as (e1 & H1 & F1). apply nothing_written in F1.
  subst e1. rewrite app_nil_r in H1. unfold mbind, M_bind.
  destruct (m s) as [s1 [a|e]]; simpl in *.
  - destruct (Hk a s1) as (evs & rest & Hw & L & O). exists evs, rest.
    rewrite Hw, H1. auto.
  - exists [], l. rewrite H1, app_nil_r. split; [reflexivity|].
    split; [reflexivity|discriminate].
Qed.

Lemma reports_try_catch {A} l (m : M (Server Net) A) h :
  reports l m -> (forall e, only_writes (fun _ => False) (h e)) ->
  reports l (try_catch m h).
Proof.
  intros Hm Hh s. destruct (Hm s) as (evs & rest & Hw & L & O). unfold try_catch.
  destruct (m s) as [s1 [a|e]]; simpl in *.
  - exists evs, rest. auto.
  - destruct (Hh e s1) as (e2 & H2 & F2). apply nothing_written in F2. subst e2.
    rewrite app_nil_r in H2. exists evs, rest. rewrite H2. auto.
Qed.

(** In the event stream of every request to the one-click setup endpoint,
    the ordinals of the step events, in the order written, are a beginning
    of 1, 2, 2, 3, 4, 5 (so they never decrease and no stage is announced
    before an earlier one); when the last event is the success event they
    are all six. *)
Theorem step_ordinals_follow_the_stages :
  forall (req : Request) (s : Server Net),
  exists rest,
    [1; 2; 2; 3; 4; 5]
    = steps_of (written (res (serve download_and_run req s))) ++ rest
    /\ (last (written (res (serve download_and_run req s)))
        = Some (EvSuccess "Setup completed successfully!") -> rest = []).
Proof.
  intros req s.
  assert (H : reports [1; 2; 2; 3; 4; 5] (download_and_run req)).
  { unfold download_and_run.
    apply reports_try_catch; [|intros e; apply only_writes_res_status_json].
    destruct (_ || _).
    - apply reports_silent, only_writes_res_status_json.
    - apply reports_bind; [apply only_writes_getSSHService|intros this].
      apply reports_bind; [apply only_writes_ensure_connected|intros _].
      apply reports_bind; [apply only_writes_set_sse_headers|intros _].
      apply reports_run_pipeline. }
  unfold serve. destruct (H (with_res (fun _ => fresh_response) s))
    as (evs & rest & Hw & L & O).
  simpl in Hw. rewrite Hw. exists rest. auto.
Qed.

End StepOrdinals.

(* ===================================================================== *)
(** ** Session objects and the registry *)
(* ===================================================================== *)

Section Evolving.
Context {Net : Type} {lib : NodeSSHLib Net}.
Implicit Type s : Server Net.

Lemma evolves_same s s' :
  activeConnections s' = activeConnections s -> heap s' = heap s ->
  nextId s' = nextId s -> evolves s s'.
Proof.
  intros Ha Hh Hn. split; [exact Ha|split; [exact Hn|]]. intros this. rewrite Hh.
  destruct (heap s !! this) as [o|]; [|reflexivity].
  exists o. split; [reflexivity|]. intros Hal. auto.
Qed.

Lemma evolves_refl s : evolves s s.
Proof. now apply evolves_same. Qed.

Lemma evolves_trans s1 s2 s3 : evolves s1 s2 -> evolves s2 s3 -> evolves s1 s3.
Proof.
  intros (Ha & Hn & H12) (Ha' & Hn' & H23). split; [congruence|split; [congruence|]].
  intros this. specialize (H12 this). specialize (H23 this).
  destruct (heap s1 !! this) as [o1|].
  - destruct H12 as (o2 & Ho2 & K12). rewrite Ho2 in H23.
    destruct H23 as (o3 & Ho3 & K23). exists o3. split; [exact Ho3|].
    intros Hal. destruct (K12 Hal) as (E1 & Al2 & Kept1).
    destruct (K23 Al2) as (E2 & Al3 & Kept2).
    split; [congruence|split; [exact Al3|]]. auto.
  - now rewrite H12 in H23.
Qed.

(** Replacing the object [this] by one with the same client and at least
    the same entries. *)
Lemma evolves_alter s s' this o f :
  activeConnections s' = activeConnections s -> nextId s' = nextId s ->
  heap s' = alter f this (heap s) ->
  heap s !! this = Some o ->
  (aliased o ->
   ssh (f o) = ssh o /\ aliased (f o)
   /\ forall key c, connections o !! key = Some c -> connections (f o) !! key = Some c) ->
  evolves s s'.
Proof.
  intros Ha Hn Hh Ho Hf. split; [exact Ha|split; [exact Hn|]]. intros t. rewrite Hh.
  destruct (decide (t = this)) as [->|Hne].
  - rewrite Ho, lookup_alter_eq, Ho. simpl. eauto.
  - rewrite lookup_alter_ne by congruence.
    destruct (heap s !! t) as [o'|]; [|reflexivity]. exists o'. auto.
Qed.

Lemma evolving_bind {A B} (m : M (Server Net) A) (k : A -> M (Server Net) B) :
  evolving m -> (forall a, evolving (k a)) -> evolving (m ≫= k).
Proof.
  intros Hm Hk s. specialize (Hm s). unfold mbind, M_bind.
  destruct (m s) as [s1 [a|e]]; simpl in *; auto.
  eapply evolves_trans; [exact Hm | apply Hk].
Qed.

Lemma evolving_try_catch {A} (m : M (Server Net) A) h :
  evolving m -> (forall e, evolving (h e)) -> evolving (try_catch m h).
Proof.
  intros Hm Hh s. specialize (Hm s). unfold try_catch.
  destruct (m s) as [s1 [a|e]]; simpl in *; auto.
  eapply evolves_trans; [exact Hm | apply Hh].
Qed.

Lemma evolving_ret {A} (a : A) : evolving (mret a : M (Server Net) A).
Proof. intros s. apply evolves_refl. Qed.

Lemma evolving_throw {A} (e : string) : evolving (mthrow e : M (Server Net) A).
Proof. intros s. apply evolves_refl. Qed.

Lemma evolving_gets {A} (f : Server Net -> A) : evolving (gets f).
Proof. intros s. apply evolves_refl. Qed.

Lemma evolving_act (f : Server Net -> Server Net) :
  (forall s, activeConnections (f s) = activeConnections s) ->
  (forall s, heap (f s) = heap s) ->
  (forall s, nextId (f s) = nextId s) ->
  evolving (act f).
Proof. intros H1 H2 H3 s. apply evolves_same; simpl; auto. Qed.

Lemma evolving_lift_net {A} (m : M Net A) : evolving (lift_net m).
Proof.
  intros s. unfold lift_net. destruct (m (net s)) as [n r]. now apply evolves_same.
Qed.

Lemma evolving_deref this : evolving (deref (Net := Net) this).
Proof. intros s. unfold deref. destruct (heap s !! this); apply evolves_refl. Qed.

End Evolving.

(** Splits a goal [evolving m] along the structure of [m]. *)
Ltac evolving_step :=
  match goal with
  | |- evolving (mbind _ _) => apply evolving_bind; [|intros ?]
  | |- evolving (try_catch _ _) => apply evolving_try_catch; [|intros ?]
  | |- evolving (mret _) => apply evolving_ret
  | |- evolving (mthrow _) => apply evolving_throw
  | |- evolving (gets _) => apply evolving_gets
  | |- evolving (lift_net _) => apply evolving_lift_net
  | |- evolving (deref _) => apply evolving_deref
  | |- evolving (act _) => apply evolving_act; intros ?; reflexivity
  | |- evolving (if ?b then _ else _) => destruct b
  | |- evolving (match ?x with _ => _ end) => destruct x
  end.

Section EvolvingOfTheCode.
Context {Net : Type} {lib : NodeSSHLib Net}.
Implicit Type s : Server Net.

Lemma evolving_res_write e : evolving (res_write (Net := Net) e).
Proof. unfold res_write. evolving_step. Qed.

Lemma evolving_res_end : evolving (res_end (Net := Net)).
Proof. unfold res_end. evolving_step. Qed.

Lemma evolving_res_status_json status body :
  evolving (res_status_json (Net := Net) status body).
Proof. unfold res_status_json. evolving_step. Qed.

Lemma evolving_res_json body : evolving (res_json (Net := Net) body).
Proof. unfold res_json. evolving_step. Qed.

Lemma evolving_set_sse_headers : evolving (set_sse_headers (Net := Net)).
Proof. unfold set_sse_headers, res_setHeader. repeat evolving_step. Qed.

Lemma evolving_executeCommand this command cwd :
  evolving (executeCommand this command cwd).
Proof. unfold executeCommand, client_execCommand. repeat evolving_step. Qed.

Lemma evolving_executeCommandWithStream this command cwd :
  evolving (executeCommandWithStream this command cwd onStdout onStderr).
Proof.
  unfold executeCommandWithStream, client_execCommand, deliver, onStdout, onStderr.
  repeat (evolving_step || apply evolving_res_write).
Qed.

Lemma evolving_isConnected this : evolving (isConnected this).
Proof. unfold isConnected, client_isConnected. repeat evolving_step. Qed.

Lemma evolving_disconnect this : evolving (disconnect this).
Proof.
  unfold disconnect, client_isConnected, client_dispose. repeat evolving_step.
Qed.

Lemma evolving_detectDownloadTool this : evolving (detectDownloadTool this).
Proof.
  unfold detectDownloadTool, executeCommand_or_null.
  repeat (evolving_step || apply evolving_executeCommand).
Qed.

Lemma evolving_file_exists this path : evolving (file_exists this path).
Proof.
  unfold file_exists. repeat (evolving_step || apply evolving_executeCommand).
Qed.

Lemma evolving_run_pipeline r : evolving (run_pipeline r).
Proof.
  unfold run_pipeline, pipeline_body, create_target_directory, detect_transfer_tool,
    fetch_archive, verify_archive, extract_archive, install_dependencies,
    execute_setup_script.
  repeat (evolving_step || apply evolving_res_write || apply evolving_res_end
          || apply evolving_executeCommand || apply evolving_executeCommandWithStream
          || apply evolving_detectDownloadTool || apply evolving_file_exists).
Qed.

Lemma evolving_stream_command this command cwd :
  evolving (stream_command this command cwd).
Proof.
  unfold stream_command.
  repeat (evolving_step || apply evolving_res_write || apply evolving_res_end
          || apply evolving_executeCommandWithStream).
Qed.

Lemma recording_keeps_alias (o : SSHService) (key : string) :
  aliased o ->
  ssh (mkService (ssh o) (<[key:=ssh o]> (connections o))) = ssh o
  /\ aliased (mkService (ssh o) (<[key:=ssh o]> (connections o)))
  /\ forall key' c, connections o !! key' = Some c ->
                    connections (mkService (ssh o) (<[key:=ssh o]> (connections o)))
                    !! key' = Some c.
Proof.
  intros Hal. split; [reflexivity|split].
  - intros key' c. simpl. destruct (decide (key = key')) as [->|Hne].
    + rewrite lookup_insert_eq. congruence.
    + rewrite lookup_insert_ne by exact Hne. apply Hal.
  - intros key' c Hc. simpl. destruct (decide (key = key')) as [->|Hne].
    + rewrite lookup_insert_eq. f_equal. symmetry. eapply Hal, Hc.
    + now rewrite lookup_insert_ne.
Qed.

Lemma evolving_connect_loop this key ip username password retries fuel attempts :
  evolving (connect_loop this key ip username password retries fuel attempts).
Proof.
  revert attempts. induction fuel as [|fuel IH]; intros attempts s; simpl.
  - apply evolves_refl.
  - destruct (attempts <? retries)%nat; [|apply evolves_refl].
    unfold try_catch, deref, client_connect, lift_net, connections_set, sleep,
      mbind, M_bind, act, mret, M_ret, mthrow, M_throw.
    destruct (heap s !! this) as [o|] eqn:Ho; simpl.
    + destruct (nssh_connect (ssh o) _ (net s)) as [n [[]|e]]; simpl.
      * eapply (evolves_alter s _ this o); try reflexivity; [exact Ho|].
        apply recording_keeps_alias.
      * destruct (retries <=? S attempts)%nat; simpl.
        -- now apply evolves_same.
        -- eapply evolves_trans; [|apply IH]. now apply evolves_same.
    + destruct (retries <=? S attempts)%nat; simpl.
      * apply evolves_refl.
      * eapply evolves_trans; [|apply IH]. now apply evolves_same.
Qed.

Lemma evolving_connect this ip username password retries :
  evolving (connect this ip username password retries).
Proof.
  intros s. unfold connect.
  pose proof (evolving_connect_loop this (_getConnectionKey ip username) ip username
                password retries retries 0 s) as Hloop.
  unfold deref, client_isConnected, set_ssh, mbind, M_bind, act, gets, mret, M_ret.
  destruct (heap s !! this) as [o|] eqn:Ho; simpl; [|apply evolves_refl].
  destruct (connections o !! _getConnectionKey ip username) as [c|] eqn:Hk; simpl.
  - destruct (nssh_isConnected c (net s)); simpl; [|exact Hloop].
    eapply (evolves_alter s _ this o); try reflexivity; [exact Ho|].
    intros Hal. rewrite (Hal _ _ Hk). destruct o as [c0 conns]. simpl in *.
    split; [reflexivity|split; [exact Hal|auto]].
  - exact Hloop.
Qed.

Lemma evolving_ensure_connected this ip username password :
  evolving (ensure_connected this ip username password).
Proof.
  unfold ensure_connected. apply evolving_bind; [apply evolving_isConnected|].
  intros [|]; [apply evolving_ret | apply evolving_connect].
Qed.

End EvolvingOfTheCode.

Section RegistryInvariant.
Context {Net : Type} {lib : NodeSSHLib Net}.
Implicit Type s : Server Net.

Lemma registry_ok_evolves s s' : registry_ok s -> evolves s s' -> registry_ok s'.
Proof.
  intros [Hreg Hfresh Hkey Hsess Hal] (Hac & Hid & Hheap).
  assert (Hback : forall this o', heap s' !! this = Some o' ->
            exists o, heap s !! this = Some o /\ ssh o' = ssh o /\ aliased o').
  { intros this o' Ho'. specialize (Hheap this).
    destruct (heap s !! this) as [o|] eqn:Ho; [|congruence].
    destruct Hheap as (o1 & H1 & H2). rewrite Ho' in H1. injection H1 as <-.
    destruct (H2 (Hal _ _ Ho)) as (? & ? & _). eauto. }
  split.
  - intros key this Hk. rewrite Hac in Hk. destruct (Hreg _ _ Hk) as [o Ho].
    specialize (Hheap this). rewrite Ho in Hheap. destruct Hheap as (o' & -> & _). eauto.
  - intros this o' Ho'. destruct (Hback _ _ Ho') as (o & Ho & -> & _).
    rewrite Hid. eauto.
  - intros k1 k2 this. rewrite Hac. apply Hkey.
  - intros t1 t2 o1 o2 H1 H2 Heq.
    destruct (Hback _ _ H1) as (p1 & Hp1 & E1 & _).
    destruct (Hback _ _ H2) as (p2 & Hp2 & E2 & _).
    eapply Hsess; eauto. congruence.
  - intros this o' Ho'. now destruct (Hback _ _ Ho') as (_ & _ & _ & ?).
Qed.

Lemma keeps_ok_evolving {A} (m : M (Server Net) A) : evolving m -> keeps_ok m.
Proof. intros H s Hs. eapply registry_ok_evolves; [exact Hs|apply H]. Qed.

Lemma keeps_ok_bind {A B} (m : M (Server Net) A) (k : A -> M (Server Net) B) :
  keeps_ok m -> (forall a, keeps_ok (k a)) -> keeps_ok (mbind k m).
Proof.
  intros Hm Hk s Hs. unfold mbind, M_bind. specialize (Hm s Hs).
  destruct (m s) as [s1 [a|e]]; simpl in *; [now apply Hk|exact Hm].
Qed.

Lemma keeps_ok_try_catch {A} (m : M (Server Net) A) (h : string -> M (Server Net) A) :
  keeps_ok m -> (forall e, keeps_ok (h e)) -> keeps_ok (try_catch m h).
Proof.
  intros Hm Hh s Hs. unfold try_catch. specialize (Hm s Hs).
  destruct (m s) as [s1 [a|e]]; simpl in *; [exact Hm|now apply Hh].
Qed.

Lemma keeps_ok_getSSHService ip username password :
  keeps_ok (getSSHService (Net := Net) ip username password).
Proof.
  intros s Hs.
  destruct (activeConnections s !! (ip +:+ ":" +:+ username)) as [this|] eqn:Hk.
  - now rewrite (getSSHService_existing _ _ _ password _ Hk).
  - rewrite (getSSHService_fresh _ _ _ password Hk). simpl.
    destruct Hs as [Hreg Hfresh Hkey Hsess Hal].
    assert (Hnew : heap s !! S (nextId s) = None).
    { destruct (heap s !! S (nextId s)) as [o|] eqn:Ho; [|reflexivity].
      apply Hfresh in Ho. lia. }
    split; simpl.
    + intros key this. destruct (decide (ip +:+ ":" +:+ username = key)) as [<-|Hne].
      * rewrite lookup_insert_eq. intros [= <-]. rewrite lookup_insert_eq. eauto.
      * rewrite lookup_insert_ne by exact Hne. intros Hl.
        destruct (Hreg _ _ Hl) as [o Ho].
        rewrite lookup_insert_ne by (intros <-; congruence). eauto.
    + intros this o. destruct (decide (S (nextId s) = this)) as [<-|Hne].
      * rewrite lookup_insert_eq. intros [= <-]. simpl. lia.
      * rewrite lookup_insert_ne by exact Hne. intros Ho.
        apply Hfresh in Ho. lia.
    + intros k1 k2 this.
      destruct (decide (ip +:+ ":" +:+ username = k1)) as [<-|Hn1];
        destruct (decide (ip +:+ ":" +:+ username = k2)) as [<-|Hn2];
        rewrite ?lookup_insert_eq, ?lookup_insert_ne by assumption; auto.
      * intros [= <-] Hl. destruct (Hreg _ _ Hl) as [o Ho]. congruence.
      * intros Hl [= <-]. destruct (Hreg _ _ Hl) as [o Ho]. congruence.
      * apply Hkey.
    + intros t1 t2 o1 o2.
      destruct (decide (S (nextId s) = t1)) as [<-|Hn1];
        destruct (decide (S (nextId s) = t2)) as [<-|Hn2];
        rewrite ?lookup_insert_eq, ?lookup_insert_ne by assumption; auto.
      * intros [= <-] Ho. simpl. apply Hfresh in Ho. lia.
      * intros Ho [= <-]. simpl. apply Hfresh in Ho. lia.
      * apply Hsess.
    + intros this o. destruct (decide (S (nextId s) = this)) as [<-|Hne].
      * rewrite lookup_insert_eq. intros [= <-] key c. simpl.
        now rewrite lookup_empty.
      * rewrite lookup_insert_ne by exact Hne. apply Hal.
Qed.

Lemma registry_ok_forget s key :
  registry_ok s -> registry_ok (with_activeConnections (delete key) s).
Proof.
  intros [Hreg Hfresh Hkey Hsess Hal]. split; simpl; auto.
  - intros k this Hl. apply lookup_delete_Some in Hl as [_ Hl]. eauto.
  - intros k1 k2 this H1 H2. apply lookup_delete_Some in H1 as [_ H1].
    apply lookup_delete_Some in H2 as [_ H2]. eauto.
Qed.

Lemma registry_ok_with_res s f : registry_ok s -> registry_ok (with_res f s).
Proof. intros [Hreg Hfresh Hkey Hsess Hal]. now split. Qed.

Lemma registry_ok_with_net s n : registry_ok s -> registry_ok (with_net n s).
Proof. intros [Hreg Hfresh Hkey Hsess Hal]. now split. Qed.

Lemma registry_ok_start (net0 : Net) :
  registry_ok (mkServer ∅ ∅ 0 net0 [] fresh_response).
Proof.
  split; simpl; intros *; rewrite ?lookup_empty; congruence.
Qed.

Ltac keeps_step :=
  match goal with
  | |- keeps_ok (mbind _ _) => apply keeps_ok_bind; [|intros ?]
  | |- keeps_ok (try_catch _ _) => apply keeps_ok_try_catch; [|intros ?]
  | |- keeps_ok (getSSHService _ _ _) => apply keeps_ok_getSSHService
  | |- keeps_ok (if ?b then _ else _) => destruct b
  | |- keeps_ok (match ?x with _ => _ end) => destruct x
  | |- keeps_ok _ =>
      apply keeps_ok_evolving;
      first [ apply evolving_res_status_json | apply evolving_res_json
            | apply evolving_ensure_connected | apply evolving_connect
            | apply evolving_set_sse_headers | apply evolving_run_pipeline
            | apply evolving_stream_command | apply evolving_res_write
            | apply evolving_disconnect | apply evolving_ret | apply evolving_gets ]
  end.

Lemma keeps_ok_download_and_run req : keeps_ok (download_and_run (Net := Net) req).
Proof. unfold download_and_run. repeat keeps_step. Qed.

Lemma keeps_ok_execute_stream req : keeps_ok (execute_stream (Net := Net) req).
Proof. unfold execute_stream. repeat keeps_step. Qed.

Lemma keeps_ok_ssh_connect req : keeps_ok (ssh_connect (Net := Net) req).
Proof. unfold ssh_connect. repeat keeps_step. Qed.

Lemma keeps_ok_ssh_disconnect req : keeps_ok (ssh_disconnect (Net := Net) req).
Proof.
  unfold ssh_disconnect. repeat keeps_step.
  intros s Hs. unfold act. simpl. now apply registry_ok_forget.
Qed.

Lemma keeps_ok_endpoint handler req : endpoint handler -> keeps_ok (handler req).
Proof.
  intros []; [apply keeps_ok_download_and_run | apply keeps_ok_execute_stream
             | apply keeps_ok_ssh_connect | apply keeps_ok_ssh_disconnect].
Qed.

Lemma reachable_registry_ok s : reachable s -> registry_ok s.
Proof.
  induction 1 as [net0|handler req s _ IH Hh|n s _ IH].
  - apply registry_ok_start.
  - unfold serve. apply keeps_ok_endpoint; [exact Hh|].
    now apply registry_ok_with_res.
  - now apply registry_ok_with_net.
Qed.

End RegistryInvariant.

Section Sessions.
Context {Net : Type} {lib : NodeSSHLib Net}.
Implicit Type s : Server Net.

(** In every state the server can reach from its start, by requests to the
    four endpoints that use the registry and changes of the network, two
    different keys of the registry name two different session objects with
    two different clients, both objects exist, and every entry of the
    [connections] map of a session object is the one client of that object. *)
Theorem sessions_are_never_shared :
  forall (s : Server Net) (k1 k2 : string) (t1 t2 : nat),
    reachable s ->
    activeConnections s !! k1 = Some t1 ->
    activeConnections s !! k2 = Some t2 ->
    k1 <> k2 ->
    t1 <> t2
    /\ exists o1 o2,
        heap s !! t1 = Some o1 /\ heap s !! t2 = Some o2
        /\ ssh o1 <> ssh o2
        /\ (forall key c, connections o1 !! key = Some c -> c = ssh o1)
        /\ (forall key c, connections o2 !! key = Some c -> c = ssh o2).
Proof.
  intros s k1 k2 t1 t2 Hr H1 H2 Hne.
  destruct (reachable_registry_ok s Hr) as [Hreg Hfresh Hkey Hsess Hal].
  assert (Ht : t1 <> t2) by (intros <-; apply Hne; eapply Hkey; eauto).
  split; [exact Ht|].
  destruct (Hreg _ _ H1) as [o1 Ho1]. destruct (Hreg _ _ H2) as [o2 Ho2].
  exists o1, o2. repeat split; auto.
  - intros Heq. apply Ht. eapply Hsess; eauto.
  - apply (Hal _ _ Ho1).
  - apply (Hal _ _ Ho2).
Qed.

(** A session object has one client for all its keys.  After two calls of
    [connect] for two hosts have returned, on an object whose entries were
    its own client, both keys hold that same client; and as long as that
    client is connected, a further [connect] for the first host returns at
    once without any call of the library, whatever the password and the
    limit. *)
Theorem one_client_serves_every_key :
  forall (this : nat) (ipA userA pwA ipB userB pwB : string) (nA nB : nat)
         (s s1 s2 : Server Net) (o : SSHService),
    heap s !! this = Some o ->
    aliased o ->
    1 <= nA -> 1 <= nB ->
    connect this ipA userA pwA nA s = (s1, Ok tt) ->
    connect this ipB userB pwB nB s1 = (s2, Ok tt) ->
    exists o2,
      heap s2 !! this = Some o2 /\ ssh o2 = ssh o
      /\ connections o2 !! _getConnectionKey ipA userA = Some (ssh o)
      /\ connections o2 !! _getConnectionKey ipB userB = Some (ssh o)
      /\ (nssh_isConnected (ssh o) (net s2) = true ->
          forall pw n, connect this ipA userA pw n s2 = (s2, Ok tt)).
Proof.
  intros this ipA userA pwA ipB userB pwB nA nB s s1 s2 o Ho Hal HnA HnB HA HB.
  pose proof (evolving_connect this ipA userA pwA nA s) as (_ & _ & E1).
  rewrite HA in E1. simpl in E1. specialize (E1 this). rewrite Ho in E1.
  destruct E1 as (o1 & Ho1 & E1). destruct (E1 Hal) as (Hssh1 & Hal1 & _).
  pose proof (connect_post this ipA userA pwA nA s ltac:(lia)) as PA.
  rewrite HA in PA. destruct PA as (_ & o1' & Ho1' & HkA).
  rewrite Ho1 in Ho1'. injection Ho1' as <-.
  pose proof (evolving_connect this ipB userB pwB nB s1) as (_ & _ & E2).
  rewrite HB in E2. simpl in E2. specialize (E2 this). rewrite Ho1 in E2.
  destruct E2 as (o2 & Ho2 & E2). destruct (E2 Hal1) as (Hssh2 & Hal2 & Hkept).
  pose proof (connect_post this ipB userB pwB nB s1 ltac:(lia)) as PB.
  rewrite HB in PB. destruct PB as (_ & o2' & Ho2' & HkB).
  rewrite Ho2 in Ho2'. injection Ho2' as <-.
  assert (Hs : ssh o2 = ssh o) by congruence.
  exists o2. split; [exact Ho2|split; [exact Hs|]].
  assert (HA2 : connections o2 !! _getConnectionKey ipA userA = Some (ssh o)).
  { rewrite (Hkept _ _ HkA). congruence. }
  split; [exact HA2|split; [congruence|]].
  intros Hc pw n. apply (connect_reuse s2 this o2); [exact Ho2|congruence|congruence].
Qed.

End Sessions.

Lemma sessions_are_never_shared_witness :
  1 <> 3
  /\ exists o1 o2,
      heap Scenario3.two_hubs !! 1 = Some o1 /\ heap Scenario3.two_hubs !! 3 = Some o2
      /\ ssh o1 <> ssh o2.
Proof.
  destruct (sessions_are_never_shared (lib := lib_of Sim.capable_hub)
              Scenario3.two_hubs "10.1.4.215:root" "10.1.4.216:pi" 1 3)
    as (Hne & o1 & o2 & H1 & H2 & Hs & _).
  - unfold Scenario3.two_hubs.
    apply reachable_serve; [apply reachable_serve|]; [|constructor|constructor].
    apply (reachable_start (lib := lib_of Sim.capable_hub) []).
  - by_run.
  - by_run.
  - discriminate.
  - split; [exact Hne|]. exists o1, o2. auto.
Defined.

Lemma one_client_serves_every_key_witness :
  exists (s2 : Server (list nat)) o2,
    heap s2 !! 1 = Some o2
    /\ connections o2 !! _getConnectionKey "10.1.4.215" "root" = Some 0
    /\ connections o2 !! _getConnectionKey "10.1.4.216" "pi" = Some 0.
Proof.
  edestruct (one_client_serves_every_key (lib := lib_of Sim.capable_hub)
               1 "10.1.4.215" "root" "x" "10.1.4.216" "pi" "y" 3 3 registered)
    with (o := mkService 0 ∅)
    as (o2 & H1 & _ & HA & HB & _).
  - by_run.
  - intros key c H. simpl in H. now rewrite lookup_empty in H.
  - lia.
  - lia.
  - by_run.
  - by_run.
  - eexists _, o2. split; [exact H1|split; [exact HA|exact HB]].
Defined.

Section Keys.
Context {Net : Type} {lib : NodeSSHLib Net}.
Implicit Type s : Server Net.

Lemma append_assoc (a b c : string) : (a +:+ b) +:+ c = a +:+ (b +:+ c).
Proof.
  induction a as [|x a IH]; [reflexivity|].
  change (String x ((a +:+ b) +:+ c) = String x (a +:+ (b +:+ c))). now f_equal.
Qed.

Lemma includes_head (c : ascii) (rest needle : string) :
  Js.includes (String c rest) needle = false -> Js.includes rest needle = false.
Proof.
  rewrite includes_unfold. now destruct (String.prefix needle (String c rest)).
Qed.

Lemma includes_leading_colon (rest : string) : Js.includes (String ":" rest) ":" = true.
Proof. apply includes_spec. now exists EmptyString, rest. Qed.

Lemma key_splits_at_the_first_colon (ip1 ip2 u1 u2 : string) :
  Js.includes ip1 ":" = false -> Js.includes ip2 ":" = false ->
  ip1 +:+ ":" +:+ u1 = ip2 +:+ ":" +:+ u2 -> ip1 = ip2 /\ u1 = u2.
Proof.
  revert ip2. induction ip1 as [|c1 r1 IH]; intros [|c2 r2] H1 H2 E; simpl in E.
  - injection E as E. now split.
  - injection E as Ec _. subst c2. now rewrite includes_leading_colon in H2.
  - injection E as Ec _. subst c1. now rewrite includes_leading_colon in H1.
  - injection E as Ec E. subst c2.
    destruct (IH r2 (includes_head _ _ _ H1) (includes_head _ _ _ H2) E) as [-> ->].
    now split.
Qed.

(** Hosts whose addresses contain no colon have keys of their own: two
    different pairs of address and user give two different keys, and
    obtaining the session of the one leaves the registry entry of the other
    as it was. *)
Theorem plain_hosts_have_keys_of_their_own :
  forall (ip1 u1 ip2 u2 : string),
    Js.includes ip1 ":" = false ->
    Js.includes ip2 ":" = false ->
    (ip1 <> ip2 \/ u1 <> u2) ->
    _getConnectionKey ip1 u1 <> _getConnectionKey ip2 u2
    /\ forall (password : string) (s : Server Net),
        activeConnections (fst (getSSHService ip1 u1 password s)) !! (ip2 +:+ ":" +:+ u2)
        = activeConnections s !! (ip2 +:+ ":" +:+ u2).
Proof.
  intros ip1 u1 ip2 u2 H1 H2 Hne.
  assert (Hk : ip1 +:+ ":" +:+ u1 <> ip2 +:+ ":" +:+ u2).
  { intros E. destruct (key_splits_at_the_first_colon _ _ _ _ H1 H2 E). tauto. }
  split; [exact Hk|]. intros password s.
  destruct (activeConnections s !! (ip1 +:+ ":" +:+ u1)) as [this|] eqn:Hl.
  - now rewrite (getSSHService_existing _ _ _ password _ Hl).
  - rewrite (getSSHService_fresh _ _ _ password Hl). simpl.
    now rewrite lookup_insert_ne.
Qed.

(** A colon in the address or in the user name can make two different
    requests meet in one key: the session obtained for address [a:b] and
    user [c] is the session that a later request for address [a] and user
    [b:c] obtains, without a new session object and whatever its password. *)
Theorem colon_in_host_shares_a_session :
  forall (a b c password password' : string) (s s1 : Server Net) (this : nat),
    getSSHService (a +:+ ":" +:+ b) c password s = (s1, Ok this) ->
    _getConnectionKey (a +:+ ":" +:+ b) c = _getConnectionKey a (b +:+ ":" +:+ c)
    /\ getSSHService a (b +:+ ":" +:+ c) password' s1 = (s1, Ok this).
Proof.
  intros a b c password password' s s1 this H.
  assert (E : (a +:+ ":" +:+ b) +:+ ":" +:+ c = a +:+ ":" +:+ (b +:+ ":" +:+ c)).
  { rewrite append_assoc. f_equal. }
  split; [exact E|].
  apply getSSHService_registered in H.
  apply getSSHService_existing. rewrite <- E. exact H.
Qed.

End Keys.

Lemma plain_hosts_have_keys_of_their_own_witness :
  _getConnectionKey "10.1.4.215" "root" <> _getConnectionKey "10.1.4.216" "root".
Proof.
  refine (proj1 (plain_hosts_have_keys_of_their_own (Net := list nat)
                   "10.1.4.215" "root" "10.1.4.216" "root" _ _ _)).
  - reflexivity.
  - reflexivity.
  - left. discriminate.
Defined.

Lemma colon_in_host_shares_a_session_witness :
  getSSHService "10.1.4.215" "22:root" "other"
    (fst (getSSHService "10.1.4.215:22" "root" "x"
            Sim.empty_server))
  = (fst (getSSHService "10.1.4.215:22" "root" "x"
            Sim.empty_server), Ok 1).
Proof.
  refine (proj2 (colon_in_host_shares_a_session (Net := list nat)
                   "10.1.4.215" "22" "root" "x" "other" Sim.empty_server _ 1 _)).
  by_run.
Defined.

Section RetryWithinLimit.
Context {St : Type} {rt : Runtime St} {A : Type}.
Variable fn : M St A.
Variable hook : M St unit.

(** The loop of the [retry] of the provisioning script, for any operation
    and any hook, from any attempt counter. *)
Lemma remote_retry_loop_within retries fuel :
  forall attempts s ops recs,
    retries <= attempts + fuel ->
    exists s' calls r,
      Remote.retry_loop (Spy.counted_hook hook) (Spy.counted_operation fn)
                        retries fuel attempts (s, Spy.mkCalls ops recs)
      = ((s', calls), r)
      /\ Remote.retry_loop hook fn retries fuel attempts s = (s', r)
      /\ match r with
         | Ok None =>
             retries <= attempts
             /\ Spy.operations calls = ops /\ Spy.recoveries calls = recs
         | Ok (Some _) =>
             exists k, Spy.operations calls = ops + S k
                       /\ Spy.recoveries calls = recs + k
                       /\ attempts + S k <= retries
         | Throw _ =>
             (Spy.operations calls = ops + (retries - attempts)
              /\ S (Spy.recoveries calls) = recs + (retries - attempts)
              /\ attempts < retries)
             \/ (exists k, Spy.operations calls = ops + S k
                           /\ Spy.recoveries calls = recs + S k
                           /\ attempts + S k < retries)
         end.
Proof.
  induction fuel as [|fuel IH]; intros attempts s ops recs Hfuel.
  - simpl. exists s, (Spy.mkCalls ops recs), (Ok None).
    repeat split; simpl; auto; lia.
  - simpl. destruct (attempts <? retries)%nat eqn:Hlt.
    2:{ apply Nat.ltb_ge in Hlt. exists s, (Spy.mkCalls ops recs), (Ok None).
        repeat split; simpl; auto. }
    apply Nat.ltb_lt in Hlt.
    unfold Remote.on_failure, Spy.counted_operation, Spy.counted_hook, try_catch,
      mbind, M_bind, act, mret, M_ret, mthrow, M_throw. simpl.
    destruct (fn s) as [s1 [v|e1]] eqn:Hfn; simpl.
    + exists s1, (Spy.mkCalls (S ops) recs), (Ok (Some v)).
      split; [reflexivity|split; [reflexivity|]].
      exists 0. simpl. repeat split; lia.
    + destruct (retries <=? S attempts)%nat eqn:E; simpl.
      * apply Nat.leb_le in E. eexists _, (Spy.mkCalls (S ops) recs), (Throw e1).
        split; [reflexivity|split; [reflexivity|]].
        left. simpl. repeat split; lia.
      * apply Nat.leb_gt in E.
        destruct (hook _) as [s2 [[]|e2]] eqn:Hhook; simpl.
        -- match goal with
           | |- context [Remote.retry_loop hook fn retries fuel (S attempts) ?s3] =>
               destruct (IH (S attempts) s3 (S ops) (S recs) ltac:(lia))
                 as (s' & calls & r & H1 & H2 & H3)
           end.
           exists s', calls, r. split; [exact H1|split; [exact H2|]].
           destruct r as [[v|]|e].
           ++ destruct H3 as (k & Ho & Hr & Hk). exists (S k). repeat split; lia.
           ++ lia.
           ++ destruct H3 as [(Ho & Hr & Hk)|(k & Ho & Hr & Hk)].
              ** left. repeat split; lia.
              ** right. exists (S k). repeat split; lia.
        -- eexists _, (Spy.mkCalls (S ops) (S recs)), (Throw e2).
           split; [reflexivity|split; [reflexivity|]].
           right. exists 0. simpl. repeat split; lia.
Qed.

(** The loop of the [retry] of the script that runs on the hub. *)
Lemma local_retry_loop_within retries fuel :
  forall attempts s waited ops recs,
    retries <= attempts + fuel ->
    exists s' waited' calls r,
      Local.retry_loop (Spy.counted_operation (Meter.metered fn))
                       retries fuel attempts ((s, waited), Spy.mkCalls ops recs)
      = (((s', waited'), calls), r)
      /\ Local.retry_loop fn retries fuel attempts s = (s', r)
      /\ match r with
         | Ok None =>
             retries <= attempts /\ Spy.operations calls = ops /\ waited' = waited
         | Ok (Some _) =>
             exists k, Spy.operations calls = ops + S k
                       /\ waited' = (waited + RETRY_DELAY_MS * Z.of_nat k)%Z
                       /\ attempts + S k <= retries
         | Throw _ =>
             Spy.operations calls = ops + (retries - attempts)
             /\ (waited' + RETRY_DELAY_MS
                 = waited + RETRY_DELAY_MS * Z.of_nat (retries - attempts))%Z
             /\ attempts < retries
         end.
Proof.
  induction fuel as [|fuel IH]; intros attempts s waited ops recs Hfuel.
  - simpl. exists s, waited, (Spy.mkCalls ops recs), (Ok None).
    repeat split; simpl; auto; lia.
  - simpl. destruct (attempts <? retries)%nat eqn:Hlt.
    2:{ apply Nat.ltb_ge in Hlt. exists s, waited, (Spy.mkCalls ops recs), (Ok None).
        repeat split; simpl; auto. }
    apply Nat.ltb_lt in Hlt.
    unfold Local.on_failure, Spy.counted_operation, Meter.metered, try_catch,
      mbind, M_bind, act, mret, M_ret, mthrow, M_throw. simpl.
    destruct (fn s) as [s1 [v|e1]] eqn:Hfn; simpl.
    + exists s1, waited, (Spy.mkCalls (S ops) recs), (Ok (Some v)).
      split; [reflexivity|split; [reflexivity|]].
      exists 0. simpl. repeat split; lia.
    + destruct (retries <=? S attempts)%nat eqn:E; simpl.
      * apply Nat.leb_le in E. eexists _, waited, (Spy.mkCalls (S ops) recs), (Throw e1).
        split; [reflexivity|split; [reflexivity|]].
        simpl. replace (retries - attempts) with 1 by lia.
        unfold RETRY_DELAY_MS. repeat split; lia.
      * apply Nat.leb_gt in E.
        match goal with
        | |- context [Local.retry_loop fn retries fuel (S attempts) ?s3] =>
            destruct (IH (S attempts) s3 (waited + RETRY_DELAY_MS)%Z (S ops) recs
                        ltac:(lia))
              as (s' & w' & calls & r & H1 & H2 & H3)
        end.
        exists s', w', calls, r. split; [exact H1|split; [exact H2|]].
        destruct r as [[v|]|e].
        -- destruct H3 as (k & Ho & Hw & Hk). exists (S k).
           unfold RETRY_DELAY_MS in *. repeat split; lia.
        -- lia.
        -- destruct H3 as (Ho & Hw & Hk). unfold RETRY_DELAY_MS in *.
           repeat split; lia.
Qed.

(** Where the outcome of [retry] comes from, in the provisioning script: a
    value is the value of an attempt that returned, and the state is the one
    that attempt left. *)
Lemma remote_retry_loop_origin retries fuel :
  forall attempts s,
    match Remote.retry_loop hook fn retries fuel attempts s with
    | (s', Ok (Some v)) => exists s0, fn s0 = (s', Ok v)
    | _ => True
    end.
Proof.
  induction fuel as [|fuel IH]; intros attempts s; simpl; [exact I|].
  destruct (attempts <? retries)%nat; [|exact I].
  unfold Remote.on_failure, try_catch, mbind, M_bind, act, mret, M_ret, mthrow, M_throw.
  destruct (fn s) as [s1 [v|e1]] eqn:Hfn; simpl.
  - now exists s.
  - destruct (retries <=? S attempts)%nat; simpl; [exact I|].
    destruct (hook _) as [s2 [[]|e2]]; simpl; [apply IH|exact I].
Qed.

(** Where the outcome of the local [retry] comes from: a value is the value
    of an attempt that returned, an error is the error of an attempt that
    threw. *)
Lemma local_retry_loop_origin retries fuel :
  forall attempts s,
    match Local.retry_loop fn retries fuel attempts s with
    | (s', Ok (Some v)) => exists s0, fn s0 = (s', Ok v)
    | (s', Ok None) => True
    | (s', Throw e) => exists s0 s1, fn s0 = (s1, Throw e)
    end.
Proof.
  induction fuel as [|fuel IH]; intros attempts s; simpl; [exact I|].
  destruct (attempts <? retries)%nat; [|exact I].
  unfold Local.on_failure, try_catch, mbind, M_bind, act, mret, M_ret, mthrow, M_throw.
  destruct (fn s) as [s1 [v|e1]] eqn:Hfn; simpl.
  - now exists s.
  - destruct (retries <=? S attempts)%nat; simpl.
    + now exists s, s1.
    + apply IH.
Qed.

End RetryWithinLimit.

(** [retry] of the provisioning script, for any operation, any recovery
    hook and any limit [N]: the operation is entered at most [N] times and
    the hook at most [N - 1] times, never more often than the operation.
    The loop ends without an attempt, leaving the state as it is, only when
    the limit is 0; when [retry] returns after an attempt, it returns what
    that attempt returned, in the state that attempt left, and the hook was
    entered once less than the operation; when it throws, either the
    operation was entered [N] times and the hook [N - 1] times, or the hook
    itself threw before the limit.  Counting changes neither the final
    state nor the outcome. *)
Theorem retry_stays_within_its_limit :
  forall (St : Type) (rt : Runtime St) (A : Type) (fn : M St A) (hook : M St unit)
         (N : nat) (s : St),
    exists s' calls r,
      Remote.retry (Spy.counted_hook hook) (Spy.counted_operation fn) N
                   (s, Spy.mkCalls 0 0)
      = ((s', calls), r)
      /\ Remote.retry hook fn N s = (s', r)
      /\ Spy.operations calls <= N
      /\ Spy.recoveries calls <= N - 1
      /\ Spy.recoveries calls <= Spy.operations calls
      /\ match r with
         | Ok None => N = 0 /\ Spy.operations calls = 0 /\ s' = s
         | Ok (Some v) =>
             Spy.operations calls = S (Spy.recoveries calls)
             /\ exists s0, fn s0 = (s', Ok v)
         | Throw _ =>
             (Spy.operations calls = N /\ S (Spy.recoveries calls) = N)
             \/ (Spy.recoveries calls = Spy.operations calls /\ Spy.operations calls < N)
         end.
Proof.
  intros St rt A fn hook N s. unfold Remote.retry.
  destruct (remote_retry_loop_within fn hook N N 0 s 0 0 ltac:(lia))
    as (s' & calls & r & H1 & H2 & H3).
  pose proof (remote_retry_loop_origin fn hook N N 0 s) as Ho. rewrite H2 in Ho.
  exists s', calls, r. split; [exact H1|split; [exact H2|]].
  destruct r as [[v|]|e].
  - destruct H3 as (k & Hops & Hr & Hk).
    split; [lia|split; [lia|split; [lia|split; [lia|exact Ho]]]].
  - destruct H3 as (Hn & Hops & Hr). assert (N = 0) by lia. subst N.
    simpl in H2. injection H2 as <-. repeat split; lia.
  - destruct H3 as [(Hops & Hr & Hk)|(k & Hops & Hr & Hk)].
    + repeat split; try lia.
    + repeat split; try lia.
Qed.

(** [retry] of the script that runs on the hub, for any operation and any
    limit [N]: the operation is entered at most [N] times, and the script
    pauses for [RETRY_DELAY_MS] between two attempts and at no other time,
    so that the pauses add up to 3000 ms times one less than the number of
    attempts.  The loop ends without an attempt, leaving the state as it is,
    only when the limit is 0; when [retry] returns after an attempt, it
    returns what that attempt returned, in the state that attempt left; and
    it throws only after [N] attempts, and then the error of an attempt. *)
Theorem local_retry_pauses_between_attempts :
  forall (St : Type) (rt : Runtime St) (A : Type) (fn : M St A) (N : nat) (s : St),
    exists s' waited calls r,
      Local.retry (Spy.counted_operation (Meter.metered fn)) N
                  ((s, 0%Z), Spy.mkCalls 0 0)
      = (((s', waited), calls), r)
      /\ Local.retry fn N s = (s', r)
      /\ Spy.operations calls <= N
      /\ waited = (3000 * Z.of_nat (Spy.operations calls - 1))%Z
      /\ match r with
         | Ok None => N = 0 /\ Spy.operations calls = 0 /\ s' = s
         | Ok (Some v) => 1 <= Spy.operations calls /\ exists s0, fn s0 = (s', Ok v)
         | Throw e =>
             Spy.operations calls = N /\ 1 <= N
             /\ exists s0 s1, fn s0 = (s1, Throw e)
         end.
Proof.
  intros St rt A fn N s. unfold Local.retry.
  destruct (local_retry_loop_within fn N N 0 s 0%Z 0 0 ltac:(lia))
    as (s' & w' & calls & r & H1 & H2 & H3).
  pose proof (local_retry_loop_origin fn N N 0 s) as Ho. rewrite H2 in Ho.
  exists s', w', calls, r. split; [exact H1|split; [exact H2|]].
  unfold RETRY_DELAY_MS in H3.
  destruct r as [[v|]|e].
  - destruct H3 as (k & Hops & Hw & Hk). rewrite Hops.
    replace (0 + S k - 1) with k by lia.
    split; [lia|split; [lia|split; [lia|exact Ho]]].
  - destruct H3 as (Hn & Hops & Hw). assert (N = 0) by lia. subst N.
    simpl in H2. injection H2 as <-. rewrite Hops. simpl. repeat split; lia.
  - destruct H3 as (Hops & Hw & Hk). rewrite Hops.
    replace (0 + (N - 0) - 1) with (N - 1) by lia.
    split; [lia|split; [lia|split; [lia|split; [lia|exact Ho]]]].
Qed.

Section Unreachable.
Context {Net : Type} {lib : NodeSSHLib Net}.

(** What one level of reconnection prints while the hub cannot be
    reached. *)
Lemma first_attempt_message (e : string) :
  String.prefix "Error occurred on attempt 1: "
                (("Error occurred on attempt " +:+ Js.of_nat 1 +:+ ":")
                   +:+ " Error: " +:+ e) = true.
Proof. apply prefix_spec. now exists ("Error: " +:+ e). Qed.

(** While the hub cannot be reached, [connectToRaspberryPi] neither returns
    nor gives up: at every depth of nesting the next nested call is
    reached.  Each level has then made its first attempt only and printed
    three lines (the attempt, its failure as attempt 1, the lost
    connection); no level reports that the limit is reached, and the script
    never pauses between two attempts. *)
Theorem unreachable_hub_is_retried_without_pause :
  forall (marker : string) (depth : nat) (s : Remote.Script Net),
    (forall config n,
        nssh_isConnected Remote.ssh n = false ->
        exists n' e, nssh_connect Remote.ssh config n = (n', Throw e)
                     /\ nssh_isConnected Remote.ssh n' = false) ->
    nssh_isConnected Remote.ssh (Remote.net s) = false ->
    exists s' added,
      Remote.connectToRaspberryPi (mthrow marker) depth s = (s', Throw marker)
      /\ Remote.output s' = Remote.output s ++ added
      /\ length added = 3 * depth
      /\ Forall (fun o => match o with
                          | Remote.Wait _ => False
                          | Remote.Error text =>
                              String.prefix "Error occurred on attempt 1: " text = true
                          | Remote.Log _ => True
                          end) added.
Proof.
  intros marker depth s Hrej. revert s.
  induction depth as [|depth IH]; intros s Hdown.
  - exists s, []. split; [reflexivity|]. split; [now rewrite app_nil_r|now split].
  - simpl. unfold Remote.retry, RETRY_LIMIT. simpl.
    unfold Remote.on_failure, Remote.connect_operation, Remote.lift_net,
      Remote.reconnectIfNeeded, try_catch, mbind, M_bind, act, gets, mret, M_ret,
      mthrow, M_throw.
    cbn [Remote.net Remote.output console_log console_error console_error_with
         Remote.script_runtime].
    destruct (Hrej {| cfg_host := Remote.MEDIA_HUB_IP; cfg_username := "root";
                      cfg_password := "keus123"; cfg_readyTimeout := None |}
                (Remote.net s) Hdown) as (n & e & Hc & Hn).
    rewrite Hc. cbn [Nat.leb]. cbv beta iota.
    cbn [Remote.net Remote.output]. rewrite Hn.
    match goal with
    | |- context [Remote.connectToRaspberryPi _ depth ?s1] =>
        destruct (IH s1 Hn) as (s' & added & H1 & H2 & H3 & H4)
    end.
    unfold mthrow, M_throw in H1. rewrite H1.
    eexists s', (_ :: _ :: _ :: added). split; [reflexivity|].
    split; [|split].
    + rewrite H2. cbn [Remote.output]. rewrite <- !app_assoc. reflexivity.
    + simpl. lia.
    + constructor; [exact I|]. constructor; [apply first_attempt_message|].
      constructor; [exact I|exact H4].
Qed.

End Unreachable.

Lemma unreachable_stays_down (config : ConnectConfig) (n : list nat) :
  nssh_isConnected (NodeSSHLib := unreachable) Remote.ssh n = false ->
  exists n' e, nssh_connect (NodeSSHLib := unreachable) Remote.ssh config n = (n', Throw e)
               /\ nssh_isConnected (NodeSSHLib := unreachable) Remote.ssh n' = false.
Proof.
  intros _. eexists _, _. split; [reflexivity|].
  induction n as [|x n IH]; [reflexivity|].
  simpl. destruct x; simpl; exact IH.
Qed.

Lemma unreachable_hub_is_retried_without_pause_witness :
  exists s' added,
    Remote.connectToRaspberryPi (lib := unreachable) (mthrow "deeper") 2
                                (Remote.mkScript [] [])
    = (s', Throw "deeper")
    /\ Remote.output s' = added
    /\ length added = 6.
Proof.
  destruct (unreachable_hub_is_retried_without_pause (lib := unreachable)
              "deeper" 2 (Remote.mkScript [] []))
    as (s' & added & H1 & H2 & H3 & _).
  - apply unreachable_stays_down.
  - reflexivity.
  - exists s', added. split; [exact H1|split; [exact H2|exact H3]].
Defined.

Section AfterDisconnect.
Context {Net : Type} {lib : NodeSSHLib Net}.
Implicit Type s : Server Net.

(** A handler that looks its session up first and never touches the
    registry afterwards. *)
Lemma after_lookup_evolves {A} (lookup : M (Server Net) nat)
      (rest : nat -> M (Server Net) A) (failed : string -> M (Server Net) A) s :
  (forall this, evolving (rest this)) -> (forall e, evolving (failed e)) ->
  evolves (fst (lookup s)) (fst (try_catch (this ← lookup; rest this) failed s)).
Proof.
  intros Hrest Hfailed. unfold try_catch, mbind, M_bind.
  destruct (lookup s) as [s0 [this|e]]; simpl.
  - pose proof (Hrest this s0) as H.
    destruct (rest this s0) as [s1 [a|e]]; simpl in *; [exact H|].
    eapply evolves_trans; [exact H|apply Hfailed].
  - apply Hfailed.
Qed.

Lemma acquiring_handler_evolves (handler : Request -> M (Server Net) unit) req s :
  Js.truthy (ip req) = true -> Js.truthy (username req) = true ->
  Js.truthy (password req) = true ->
  handler = download_and_run \/ handler = ssh_connect
  \/ (handler = execute_stream /\ Js.truthy (command req) = true) ->
  evolves (fst (getSSHService (ip req) (username req) (password req) s))
          (fst (handler req s)).
Proof.
  intros Hip Hu Hp [->|[->|[-> Hc]]].
  - unfold download_and_run. rewrite Hip, Hu, Hp. simpl.
    apply after_lookup_evolves; [intros this|intros e; apply evolving_res_status_json].
    repeat (evolving_step || apply evolving_ensure_connected
            || apply evolving_set_sse_headers || apply evolving_run_pipeline).
  - unfold ssh_connect. rewrite Hip, Hu, Hp. simpl.
    apply after_lookup_evolves; [intros this|intros e; apply evolving_res_status_json].
    repeat (evolving_step || apply evolving_connect || apply evolving_res_json).
  - unfold execute_stream. rewrite Hip, Hu, Hp, Hc. simpl.
    apply after_lookup_evolves; [intros this|intros e; apply evolving_res_status_json].
    repeat (evolving_step || apply evolving_ensure_connected
            || apply evolving_set_sse_headers || apply evolving_res_write
            || apply evolving_stream_command).
Qed.

Lemma ssh_disconnect_forgets req s this o :
  Js.truthy (ip req) = true -> Js.truthy (username req) = true ->
  activeConnections s !! (ip req +:+ ":" +:+ username req) = Some this ->
  heap s !! this = Some o ->
  activeConnections (fst (ssh_disconnect req s))
  = delete (ip req +:+ ":" +:+ username req) (activeConnections s)
  /\ nextId (fst (ssh_disconnect req s)) = nextId s.
Proof.
  intros Hip Hu Hk Ho.
  assert (E : ssh_disconnect req s
              = (reply (JsonSuccess "Disconnected successfully")
                   (with_activeConnections (delete (ip req +:+ ":" +:+ username req))
                      (if nssh_isConnected (ssh o) (net s) then disposed (ssh o) s
                       else s)),
                 Ok tt)).
  { unfold ssh_disconnect, try_catch. rewrite Hip, Hu. simpl.
    rewrite bind_gets, Hk.
    unfold mbind at 1. unfold M_bind. unfold mbind at 1. unfold M_bind.
    now rewrite (disconnect_run _ _ _ Ho). }
  rewrite E. simpl. destruct (nssh_isConnected (ssh o) (net s)); split; reflexivity.
Qed.

(** After the disconnect handler has served a request for a host that had
    a session, the host has none; and the next request for it, to any of the
    three endpoints that obtain a session, gets a new session object with a
    new client, never the one that was disconnected. *)
Theorem a_disconnected_host_gets_a_new_session :
  forall (handler : Request -> M (Server Net) unit) (req : Request)
         (s : Server Net) (this : nat),
    reachable s ->
    Js.truthy (ip req) = true ->
    Js.truthy (username req) = true ->
    Js.truthy (password req) = true ->
    handler = download_and_run \/ handler = ssh_connect
    \/ (handler = execute_stream /\ Js.truthy (command req) = true) ->
    activeConnections s !! (ip req +:+ ":" +:+ username req) = Some this ->
    let key := ip req +:+ ":" +:+ username req in
    let s1 := serve ssh_disconnect req s in
    let s2 := serve handler req s1 in
    activeConnections s1 !! key = None
    /\ exists old this' new,
        heap s !! this = Some old
        /\ activeConnections s2 !! key = Some this'
        /\ heap s2 !! this' = Some new
        /\ this' <> this /\ ssh new <> ssh old.
Proof.
  intros handler req s this Hr Hip Hu Hp Hh Hk key s1 s2.
  destruct (reachable_registry_ok s Hr) as [Hreg Hfresh _ _ _].
  destruct (Hreg _ _ Hk) as [old Hold]. destruct (Hfresh _ _ Hold) as [Hlt1 Hlt2].
  destruct (ssh_disconnect_forgets req (with_res (fun _ => fresh_response) s) this old
              Hip Hu Hk Hold) as [Hact Hid].
  fold (serve ssh_disconnect req s) in Hact, Hid. fold s1 in Hact, Hid.
  simpl in Hact, Hid.
  assert (Hnone : activeConnections s1 !! key = None)
    by (rewrite Hact; apply lookup_delete_eq).
  split; [exact Hnone|].
  pose proof (acquiring_handler_evolves handler req
                (with_res (fun _ => fresh_response) s1) Hip Hu Hp Hh) as He.
  rewrite (getSSHService_fresh (with_res (fun _ => fresh_response) s1) _ _
             (password req) Hnone) in He.
  fold (serve handler req s1) in He. fold s2 in He.
  destruct He as (Ha & _ & Hheap). simpl in Ha, Hheap.
  specialize (Hheap (S (nextId s1))). rewrite lookup_insert_eq in Hheap.
  destruct Hheap as (new & Hnew & Hal).
  destruct Hal as (Hssh & _); [intros k c; simpl; now rewrite lookup_empty|].
  exists old, (S (nextId s1)), new. simpl in Hssh.
  repeat split; auto.
  - rewrite Ha. apply lookup_insert_eq.
  - lia.
  - lia.
Qed.

End AfterDisconnect.

Lemma a_disconnected_host_gets_a_new_session_witness :
  activeConnections
    (serve (ssh_connect (lib := lib_of Sim.capable_hub)) req0
       (serve (ssh_disconnect (lib := lib_of Sim.capable_hub)) req0
          (serve (ssh_connect (lib := lib_of Sim.capable_hub)) req0 Sim.empty_server)))
  !! "10.1.4.215:root" <> Some 1.
Proof.
  destruct (a_disconnected_host_gets_a_new_session (lib := lib_of Sim.capable_hub)
              (ssh_connect (lib := lib_of Sim.capable_hub)) req0
              (serve (ssh_connect (lib := lib_of Sim.capable_hub)) req0 Sim.empty_server) 1)
    as (_ & old & this' & new & _ & H & _ & Hne & _).
  - apply reachable_serve; [|constructor].
    apply (reachable_start (lib := lib_of Sim.capable_hub) []).
  - reflexivity.
  - reflexivity.
  - reflexivity.
  - right. now left.
  - by_run.
  - intros E. apply Hne. pose proof (eq_trans (eq_sym H) E) as E'. now injection E'.
Defined.

Section Within.
Context {Net : Type} {lib : NodeSSHLib Net}.
Variable R : Server Net -> Server Net -> Prop.
Context {R_trans : Transitive R} {R_res : ResOnly R}.

Lemma within_quiet {A} (m : M (Server Net) A) :
  (forall s, res (fst (m s)) = res s) -> within R m.
Proof. intros H s. apply res_only, H. Qed.

Lemma within_bind {A B} (m : M (Server Net) A) (k : A -> M (Server Net) B) :
  within R m -> (forall a, within R (k a)) -> within R (mbind k m).
Proof.
  intros Hm Hk s. specialize (Hm s). unfold mbind, M_bind.
  destruct (m s) as [s1 [a|e]]; simpl in *; auto.
  etransitivity; [exact Hm|apply Hk].
Qed.

Lemma within_try_catch {A} (m : M (Server Net) A) h :
  within R m -> (forall e, within R (h e)) -> within R (try_catch m h).
Proof.
  intros Hm Hh s. specialize (Hm s). unfold try_catch.
  destruct (m s) as [s1 [a|e]]; simpl in *; auto.
  etransitivity; [exact Hm|apply Hh].
Qed.

Lemma within_ret {A} (a : A) : within R (mret a : M (Server Net) A).
Proof. now apply within_quiet. Qed.

Lemma within_throw {A} (e : string) : within R (mthrow e : M (Server Net) A).
Proof. now apply within_quiet. Qed.

Lemma within_gets {A} (f : Server Net -> A) : within R (gets f).
Proof. now apply within_quiet. Qed.

Lemma within_act (f : Server Net -> Server Net) :
  (forall s, res (f s) = res s) -> within R (act f).
Proof. intros H. apply within_quiet. exact H. Qed.

Lemma within_lift_net {A} (m : M Net A) : within R (lift_net m).
Proof.
  apply within_quiet. intros s. unfold lift_net. now destruct (m (net s)).
Qed.

Lemma within_deref this : within R (deref this).
Proof.
  apply within_quiet. intros s. unfold deref. now destruct (heap s !! this).
Qed.

Lemma within_new_SSHService : within R (new_SSHService (Net := Net)).
Proof. now apply within_quiet. Qed.

Lemma within_res_write `{!Streaming R} e : within R (res_write e).
Proof. intros s. apply streaming. Qed.

End Within.

Ltac within_step :=
  match goal with
  | |- Transitive _ => exact _
  | |- ResOnly _ => exact _
  | |- Streaming _ => exact _
  | |- res _ = res _ => reflexivity
  | |- forall _, _ => intros ?
  | |- within _ (mbind _ _) => apply within_bind
  | |- within _ (try_catch _ _) => apply within_try_catch
  | |- within _ (mret _) => apply within_ret
  | |- within _ (mthrow _) => apply within_throw
  | |- within _ (gets _) => apply within_gets
  | |- within _ (lift_net _) => apply within_lift_net
  | |- within _ (deref _) => apply within_deref
  | |- within _ new_SSHService => apply within_new_SSHService
  | |- within _ (res_write _) => apply within_res_write
  | |- within _ (act _) => apply within_act
  | |- within _ (if ?b then _ else _) => destruct b
  | |- within _ (match ?x with _ => _ end) => destruct x
  end.

Section WithinOfTheCode.
Context {Net : Type} {lib : NodeSSHLib Net}.
Variable R : Server Net -> Server Net -> Prop.
Context {R_trans : Transitive R} {R_res : ResOnly R}.

Lemma within_connect_loop this key ip username password retries fuel attempts :
  within R (connect_loop this key ip username password retries fuel attempts).
Proof.
  revert attempts. induction fuel as [|fuel IH]; intros attempts; simpl.
  - repeat within_step.
  - unfold client_connect, connections_set, sleep.
    repeat (within_step || apply IH).
Qed.

Lemma within_connect this ip username password retries :
  within R (connect this ip username password retries).
Proof.
  unfold connect, client_isConnected, set_ssh.
  repeat (within_step || apply within_connect_loop).
Qed.

Lemma within_isConnected this : within R (isConnected this).
Proof. unfold isConnected, client_isConnected. repeat within_step. Qed.

Lemma within_ensure_connected this ip username password :
  within R (ensure_connected this ip username password).
Proof.
  unfold ensure_connected.
  repeat (within_step || apply within_isConnected || apply within_connect).
Qed.

Lemma within_getSSHService ip username password :
  within R (getSSHService ip username password).
Proof. unfold getSSHService. repeat within_step. Qed.

Lemma within_disconnect this : within R (disconnect this).
Proof.
  unfold disconnect, client_isConnected, client_dispose. repeat within_step.
Qed.

Lemma within_executeCommand this command cwd :
  within R (executeCommand this command cwd).
Proof. unfold executeCommand, client_execCommand. repeat within_step. Qed.

Context {R_stream : Streaming R}.

Lemma within_executeCommandWithStream this command cwd :
  within R (executeCommandWithStream this command cwd onStdout onStderr).
Proof.
  unfold executeCommandWithStream, client_execCommand, deliver, onStdout, onStderr.
  repeat within_step.
Qed.

Lemma within_stages r : within R (stages r).
Proof.
  unfold stages, create_target_directory, detect_transfer_tool, fetch_archive,
    verify_archive, extract_archive, install_dependencies, execute_setup_script,
    detectDownloadTool, executeCommand_or_null, file_exists.
  repeat (within_step || apply within_executeCommand
          || apply within_executeCommandWithStream).
Qed.

End WithinOfTheCode.

Section OneAnswer.
Context {Net : Type} {lib : NodeSSHLib Net}.
Implicit Type s : Server Net.

#[local] Instance same_res_trans : Transitive (same_res (Net := Net)).
Proof. intros s1 s2 s3 H1 H2. unfold same_res in *. congruence. Qed.

#[local] Instance same_res_res_only : ResOnly (same_res (Net := Net)).
Proof. intros s s' H. exact H. Qed.

#[local] Instance same_head_trans : Transitive (same_head (Net := Net)).
Proof.
  intros s1 s2 s3 (A1 & B1 & C1 & D1) (A2 & B2 & C2 & D2).
  unfold same_head. repeat split; congruence.
Qed.

#[local] Instance same_head_res_only : ResOnly (same_head (Net := Net)).
Proof. intros s s' H. unfold same_head. now rewrite H. Qed.

#[local] Instance same_head_streaming : Streaming (same_head (Net := Net)).
Proof. intros e s. unfold same_head. simpl. auto. Qed.

(** From a response that carries the stream headers and nothing else, the
    pipeline completes an event stream. *)
Lemma run_pipeline_answers r s :
  res s = mkResponse 200 sse_headers None [] false ->
  ended_in_one_form (res (fst (run_pipeline r s))).
Proof.
  intros Hs. rewrite run_pipeline_result.
  pose proof (within_stages same_head r s) as (A & B & C & D).
  pose proof (progress_stages r s) as (evs & Hw & F).
  rewrite Hs in A, B, C, D, Hw. simpl in A, B, C, D, Hw.
  destruct (stages r s) as [s1 [[]|e]]; simpl in *.
  - split; [reflexivity|right]. repeat split; auto.
    exists evs, (EvSuccess "Setup completed successfully!"). rewrite Hw. auto.
  - split; [reflexivity|right]. repeat split; auto.
    exists evs, (EvError e). rewrite Hw. auto.
Qed.

Lemma stream_command_answers this command cwd s evs :
  res s = mkResponse 200 sse_headers None evs false ->
  Forall (fun e => is_terminal e = false) evs ->
  ended_in_one_form (res (fst (stream_command this command cwd s))).
Proof.
  intros Hs Hevs.
  pose proof (within_executeCommandWithStream same_head this command cwd s)
    as (A & B & C & D).
  pose proof (progress_executeCommandWithStream this command cwd s) as (more & Hw & F).
  rewrite Hs in A, B, C, D, Hw. simpl in A, B, C, D, Hw.
  unfold stream_command, try_catch, mbind, M_bind.
  destruct (executeCommandWithStream this command cwd onStdout onStderr s)
    as [s1 [z|e]]; simpl in *.
  - split; [reflexivity|right]. repeat split; auto.
    exists (evs ++ more), (EvDone "Command completed"). rewrite Hw.
    split; [reflexivity|split; [reflexivity|now apply Forall_app]].
  - split; [reflexivity|right]. repeat split; auto.
    exists (evs ++ more), (EvError e). rewrite Hw.
    split; [reflexivity|split; [reflexivity|now apply Forall_app]].
Qed.

Lemma json_answers status body s :
  res s = fresh_response ->
  status = 200 \/ status = 400 \/ status = 500 ->
  ended_in_one_form (res (fst (res_status_json status body s))).
Proof.
  intros Hs Hst. unfold res_status_json, act. simpl. rewrite Hs. simpl.
  split; [reflexivity|left]. exists body. auto.
Qed.

Lemma sse_headers_set s :
  res s = fresh_response ->
  set_sse_headers s
  = (with_res (fun _ => mkResponse 200 sse_headers None [] false) s, Ok tt).
Proof.
  intros Hs. unfold set_sse_headers, res_setHeader, mbind, M_bind, act, with_res.
  simpl. now rewrite Hs.
Qed.

Ltac json_case status st :=
  eexists; split; [reflexivity|];
  let Hs := fresh "Hs" in
  intros Hs; eapply (json_answers status _ st); [congruence|auto].

Lemma download_and_run_answers req s :
  exists s', download_and_run req s = (s', Ok tt)
             /\ (res s = fresh_response -> ended_in_one_form (res s')).
Proof.
  unfold download_and_run, try_catch.
  destruct (negb (Js.truthy (ip req)) || negb (Js.truthy (username req))
            || negb (Js.truthy (password req))).
  { json_case 400 s. }
  unfold mbind at 1. unfold M_bind.
  pose proof (within_getSSHService same_res (ip req) (username req) (password req) s)
    as Hg. unfold same_res in Hg.
  destruct (getSSHService (ip req) (username req) (password req) s) as [s1 [this|e]];
    simpl in Hg.
  2:{ json_case 500 s1. }
  unfold mbind at 1. unfold M_bind.
  pose proof (within_ensure_connected same_res this (ip req) (username req)
                (password req) s1) as He. unfold same_res in He.
  destruct (ensure_connected this (ip req) (username req) (password req) s1)
    as [s2 [[]|e]]; simpl in He.
  2:{ json_case 500 s2. }
  unfold mbind at 1. unfold M_bind.
  destruct (set_sse_headers s2) as [s3 out3] eqn:Hh.
  match goal with
  | |- context [run_pipeline ?r] =>
      pose proof (run_pipeline_closed_once r s3) as [_ Hout];
      pose proof (run_pipeline_answers r s3) as Hans;
      destruct (run_pipeline r s3) as [s4 out] eqn:Hp
  end.
  simpl in Hout, Hans. subst out.
  assert (Hfresh : res s = fresh_response -> set_sse_headers s2
            = (with_res (fun _ => mkResponse 200 sse_headers None [] false) s2, Ok tt))
    by (intros Hs; apply sse_headers_set; congruence).
  assert (Hok : out3 = Ok tt).
  { revert Hh. unfold set_sse_headers, res_setHeader, mbind, M_bind, act.
    now intros [= _ <-]. }
  subst out3. exists s4. split; [reflexivity|].
  intros Hs. rewrite (Hfresh Hs) in Hh. injection Hh as <-. now apply Hans.
Qed.

Lemma execute_stream_answers req s :
  exists s', execute_stream req s = (s', Ok tt)
             /\ (res s = fresh_response -> ended_in_one_form (res s')).
Proof.
  unfold execute_stream, try_catch.
  destruct (negb (Js.truthy (ip req)) || negb (Js.truthy (username req))
            || negb (Js.truthy (password req)) || negb (Js.truthy (command req))).
  { json_case 400 s. }
  unfold mbind at 1. unfold M_bind.
  pose proof (within_getSSHService same_res (ip req) (username req) (password req) s)
    as Hg. unfold same_res in Hg.
  destruct (getSSHService (ip req) (username req) (password req) s) as [s1 [this|e]];
    simpl in Hg.
  2:{ json_case 500 s1. }
  unfold mbind at 1. unfold M_bind.
  pose proof (within_ensure_connected same_res this (ip req) (username req)
                (password req) s1) as He. unfold same_res in He.
  destruct (ensure_connected this (ip req) (username req) (password req) s1)
    as [s2 [[]|e]]; simpl in He.
  2:{ json_case 500 s2. }
  unfold mbind at 1. unfold M_bind.
  destruct (set_sse_headers s2) as [s3 out3] eqn:Hh.
  assert (Hfresh : res s = fresh_response -> set_sse_headers s2
            = (with_res (fun _ => mkResponse 200 sse_headers None [] false) s2, Ok tt))
    by (intros Hs; apply sse_headers_set; congruence).
  assert (Hok : out3 = Ok tt).
  { revert Hh. unfold set_sse_headers, res_setHeader, mbind, M_bind, act.
    now intros [= _ <-]. }
  subst out3. unfold mbind at 1. unfold M_bind. unfold res_write at 1. unfold act.
  pose proof (stream_command_closed_once this (command req) (cwd req)
                (write (EvConnected "Connected to hub") s3)) as [_ Hout].
  pose proof (stream_command_answers this (command req) (cwd req)
                (write (EvConnected "Connected to hub") s3)
                [EvConnected "Connected to hub"]) as Hans.
  destruct (stream_command this (command req) (cwd req)
              (write (EvConnected "Connected to hub") s3)) as [s4 out] eqn:Hp.
  simpl in Hout, Hans. subst out. exists s4. split; [reflexivity|].
  intros Hs. rewrite (Hfresh Hs) in Hh. injection Hh as <-.
  apply Hans; [reflexivity|]. now repeat constructor.
Qed.

Lemma ssh_connect_answers req s :
  exists s', ssh_connect req s = (s', Ok tt)
             /\ (res s = fresh_response -> ended_in_one_form (res s')).
Proof.
  unfold ssh_connect, try_catch.
  destruct (negb (Js.truthy (ip req)) || negb (Js.truthy (username req))
            || negb (Js.truthy (password req))).
  { json_case 400 s. }
  unfold mbind at 1. unfold M_bind.
  pose proof (within_getSSHService same_res (ip req) (username req) (password req) s)
    as Hg. unfold same_res in Hg.
  destruct (getSSHService (ip req) (username req) (password req) s) as [s1 [this|e]];
    simpl in Hg.
  2:{ json_case 500 s1. }
  unfold mbind at 1. unfold M_bind.
  pose proof (within_connect same_res this (ip req) (username req)
                (password req) 3 s1) as He. unfold same_res in He.
  destruct (connect this (ip req) (username req) (password req) 3 s1)
    as [s2 [[]|e]]; simpl in He.
  2:{ json_case 500 s2. }
  eexists. split; [reflexivity|]. intros Hs.
  unfold reply. simpl.
  assert (E : res s2 = fresh_response) by congruence. rewrite E.
  split; [reflexivity|left]. eexists. simpl. auto.
Qed.

Lemma ssh_disconnect_answers req s :
  exists s', ssh_disconnect req s = (s', Ok tt)
             /\ (res s = fresh_response -> ended_in_one_form (res s')).
Proof.
  unfold ssh_disconnect, try_catch.
  destruct (negb (Js.truthy (ip req)) || negb (Js.truthy (username req))).
  { json_case 400 s. }
  rewrite bind_gets.
  destruct (activeConnections s !! (ip req +:+ ":" +:+ username req)) as [this|].
  - unfold mbind at 1. unfold M_bind. unfold mbind at 1. unfold M_bind.
    pose proof (within_disconnect same_res this s) as Hd. unfold same_res in Hd.
    destruct (disconnect this s) as [s1 [[]|e]]; simpl in Hd.
    + eexists. split; [reflexivity|]. intros Hs. unfold reply. simpl.
      assert (E : res s1 = fresh_response) by congruence. rewrite E.
      split; [reflexivity|left]. eexists. simpl. auto.
    + json_case 500 s1.
  - eexists. split; [reflexivity|]. intros Hs. unfold reply. simpl. rewrite Hs.
    split; [reflexivity|left]. eexists. simpl. auto.
Qed.

(** No handler of the four endpoints throws, and each leaves the response
    ended in one of two forms, never a mixture of them: a JSON body (status
    200, 400 or 500) with no event and no stream header, or an event stream
    with status 200 and the three stream headers in which exactly one event
    is terminal, the last one.  Every call of the library returns here, as
    it does in the whole model: a command that never completes is not among
    the runs. *)
Theorem every_response_ends_in_one_form :
  forall (req : Request) (s : Server Net),
    (ended_in_one_form (res (serve download_and_run req s))
     /\ snd (download_and_run req s) = Ok tt)
    /\ (ended_in_one_form (res (serve execute_stream req s))
        /\ snd (execute_stream req s) = Ok tt)
    /\ (ended_in_one_form (res (serve ssh_connect req s))
        /\ snd (ssh_connect req s) = Ok tt)
    /\ (ended_in_one_form (res (serve ssh_disconnect req s))
        /\ snd (ssh_disconnect req s) = Ok tt).
Proof.
  intros req s. unfold serve.
  destruct (download_and_run_answers req (with_res (fun _ => fresh_response) s))
    as (a1 & E1 & A1).
  destruct (download_and_run_answers req s) as (b1 & F1 & _).
  destruct (execute_stream_answers req (with_res (fun _ => fresh_response) s))
    as (a2 & E2 & A2).
  destruct (execute_stream_answers req s) as (b2 & F2 & _).
  destruct (ssh_connect_answers req (with_res (fun _ => fresh_response) s))
    as (a3 & E3 & A3).
  destruct (ssh_connect_answers req s) as (b3 & F3 & _).
  destruct (ssh_disconnect_answers req (with_res (fun _ => fresh_response) s))
    as (a4 & E4 & A4).
  destruct (ssh_disconnect_answers req s) as (b4 & F4 & _).
  rewrite E1, E2, E3, E4, F1, F2, F3, F4. simpl.
  specialize (A1 eq_refl). specialize (A2 eq_refl).
  specialize (A3 eq_refl). specialize (A4 eq_refl). auto 10.
Qed.

End OneAnswer.

Section LocalCommand.
Context {St : Type} {rt : Runtime St}.

Context {zx : Local.ZxShell St}.

(** The command line that the local [execCommandWithRetries] hands to the
    shell. *)
Lemma local_exec_operation_cases command cwd s :
  exists line s1 result,
    Local.sh_c_nothrow line s = (s1, result)
    /\ (line = command \/ exists dir, cwd = Some dir /\ Js.truthy dir = true
                                     /\ line = "cd " +:+ dir +:+ " && " +:+ command)
    /\ Local.exec_operation command cwd s
       = (s1, if Js.truthy (Local.stderr result)
                 && negb (Z.eqb (Local.exitCode result) 0)
              then Throw (Local.stderr result) else Ok (Local.stdout result)).
Proof.
  unfold Local.exec_operation. destruct cwd as [dir|].
  - destruct (Js.truthy dir) eqn:Hd.
    + destruct (Local.sh_c_nothrow ("cd " +:+ dir +:+ " && " +:+ command) s)
        as [s1 result] eqn:Hx.
      exists ("cd " +:+ dir +:+ " && " +:+ command), s1, result.
      split; [exact Hx|split; [right; now exists dir|]].
      now destruct (_ && _).
    + destruct (Local.sh_c_nothrow command s) as [s1 result] eqn:Hx.
      exists command, s1, result. split; [exact Hx|split; [now left|]].
      now destruct (_ && _).
  - destruct (Local.sh_c_nothrow command s) as [s1 result] eqn:Hx.
    exists command, s1, result. split; [exact Hx|split; [now left|]].
    now destruct (_ && _).
Qed.

(** The [execCommandWithRetries] of the script that runs on the hub never
    returns [undefined].  What it returns is the standard output of a shell
    run that printed nothing on standard error or exited with code 0, and
    the state is the one that run left; what it throws is the standard error
    of a shell run that printed on standard error and exited with another
    code.  A run that exits with another code and prints nothing on standard
    error therefore counts as a success.  The shell is given the command,
    after [cd] into the working directory when one is given. *)
Theorem local_command_fails_only_on_stderr_with_nonzero_exit :
  forall (command : string) (cwd : option string) (s : St),
    match Local.execCommandWithRetries command cwd s with
    | (s', Ok (Some out)) =>
        exists line s0 result,
          Local.sh_c_nothrow line s0 = (s', result)
          /\ out = Local.stdout result
          /\ (Local.stderr result = EmptyString \/ Local.exitCode result = 0%Z)
          /\ (line = command
              \/ exists dir, cwd = Some dir /\ Js.truthy dir = true
                             /\ line = "cd " +:+ dir +:+ " && " +:+ command)
    | (s', Ok None) => False
    | (s', Throw e) =>
        exists line s0 s1 result,
          Local.sh_c_nothrow line s0 = (s1, result)
          /\ e = Local.stderr result
          /\ Local.stderr result <> EmptyString
          /\ Local.exitCode result <> 0%Z
    end.
Proof.
  intros command cwd s. unfold Local.execCommandWithRetries, Local.retry.
  pose proof (local_retry_loop_origin (Local.exec_operation command cwd)
                RETRY_LIMIT RETRY_LIMIT 0 s) as Ho.
  destruct (local_retry_loop_within (Local.exec_operation command cwd)
              RETRY_LIMIT RETRY_LIMIT 0 s 0%Z 0 0 ltac:(lia))
    as (s' & w' & calls & r & _ & H2 & H3).
  rewrite H2 in Ho. rewrite H2.
  destruct r as [[out|]|e].
  - destruct Ho as (s0 & Hfn).
    destruct (local_exec_operation_cases command cwd s0)
      as (line & s1 & result & Hx & Hline & Hop).
    rewrite Hfn in Hop.
    destruct (Js.truthy (Local.stderr result)) eqn:Herr;
      destruct (Z.eqb (Local.exitCode result) 0) eqn:Hcode; simpl in Hop;
      try discriminate; injection Hop as <- ->;
      exists line, s0, result; repeat split; auto.
    + right. now apply Z.eqb_eq.
    + left. now destruct (Local.stderr result).
    + left. now destruct (Local.stderr result).
  - unfold RETRY_LIMIT in H3. lia.
  - destruct Ho as (s0 & s1' & Hfn).
    destruct (local_exec_operation_cases command cwd s0)
      as (line & s1 & result & Hx & Hline & Hop).
    rewrite Hfn in Hop.
    destruct (Js.truthy (Local.stderr result)) eqn:Herr;
      destruct (Z.eqb (Local.exitCode result) 0) eqn:Hcode; simpl in Hop;
      try discriminate. injection Hop as <- ->.
    exists line, s0, s1', result. repeat split; auto.
    + intros E. rewrite E in Herr. discriminate.
    + now apply Z.eqb_neq.
Qed.

End LocalCommand.

Section OnClient.
Context {Net : Type} {lib : NodeSSHLib Net}.
Variables c this : nat.
Implicit Type s : Server Net.

Lemma on_client_quiet {A} (m : M (Server Net) A) :
  (forall s, heap (fst (m s)) = heap s /\ effects (fst (m s)) = effects s) ->
  on_client c this m.
Proof.
  intros H s (o & Ho & Hc & Hal). destruct (H s) as [Hh He]. split.
  - exists o. now rewrite Hh.
  - exists []. now rewrite app_nil_r.
Qed.

Lemma on_client_bind {A B} (m : M (Server Net) A) (k : A -> M (Server Net) B) :
  on_client c this m -> (forall a, on_client c this (k a)) ->
  on_client c this (mbind k m).
Proof.
  intros Hm Hk s Hs. destruct (Hm s Hs) as (H1 & e1 & E1 & F1).
  unfold mbind, M_bind. destruct (m s) as [s1 [a|e]]; simpl in *.
  - destruct (Hk a s1 H1) as (H2 & e2 & E2 & F2). split; [exact H2|].
    exists (e1 ++ e2). rewrite E2, E1, app_assoc. split; [reflexivity|].
    now apply Forall_app.
  - split; [exact H1|]. now exists e1.
Qed.

Lemma on_client_try_catch {A} (m : M (Server Net) A) h :
  on_client c this m -> (forall e, on_client c this (h e)) ->
  on_client c this (try_catch m h).
Proof.
  intros Hm Hh s Hs. destruct (Hm s Hs) as (H1 & e1 & E1 & F1).
  unfold try_catch. destruct (m s) as [s1 [a|e]]; simpl in *.
  - split; [exact H1|]. now exists e1.
  - destruct (Hh e s1 H1) as (H2 & e2 & E2 & F2). split; [exact H2|].
    exists (e1 ++ e2). rewrite E2, E1, app_assoc. split; [reflexivity|].
    now apply Forall_app.
Qed.

(** Reading the object gives an object with the client [c]. *)
Lemma on_client_deref {A} (k : SSHService -> M (Server Net) A) :
  (forall o, ssh o = c -> aliased o -> on_client c this (k o)) ->
  on_client c this (mbind k (deref this)).
Proof.
  intros Hk s Hs. pose proof Hs as (o & Ho & Hc & Hal).
  unfold mbind, M_bind, deref. rewrite Ho. now apply Hk.
Qed.

Lemma on_client_ret {A} (a : A) : on_client c this (mret a : M (Server Net) A).
Proof. now apply on_client_quiet. Qed.

Lemma on_client_throw {A} (e : string) : on_client c this (mthrow e : M (Server Net) A).
Proof. now apply on_client_quiet. Qed.

Lemma on_client_gets {A} (f : Server Net -> A) : on_client c this (gets f).
Proof. now apply on_client_quiet. Qed.

Lemma on_client_act (f : Server Net -> Server Net) :
  (forall s, heap (f s) = heap s) -> (forall s, effects (f s) = effects s) ->
  on_client c this (act f).
Proof. intros H1 H2. apply on_client_quiet. intros s. simpl. auto. Qed.

Lemma on_client_record (e : Effect) :
  uses c e -> on_client c this (act (record_effect (Net := Net) e)).
Proof.
  intros He s Hs. split; [exact Hs|]. exists [e]. split; [reflexivity|].
  now constructor.
Qed.

Lemma on_client_lift_net {A} (m : M Net A) : on_client c this (lift_net m).
Proof.
  apply on_client_quiet. intros s. unfold lift_net. now destruct (m (net s)).
Qed.

Lemma on_client_connections_set key :
  on_client c this (connections_set (Net := Net) this key c).
Proof.
  intros s (o & Ho & Hc & Hal). split; [|exists []; now rewrite app_nil_r].
  unfold connections_set, act, with_heap. simpl.
  exists (mkService (ssh o) (<[key:=c]> (connections o))). split.
  - simpl. now rewrite lookup_alter_eq, Ho.
  - subst c. destruct (recording_keeps_alias o key Hal) as (_ & H & _). now split.
Qed.

Lemma on_client_set_ssh : on_client c this (set_ssh (Net := Net) this c).
Proof.
  intros s (o & Ho & Hc & Hal). split; [|exists []; now rewrite app_nil_r].
  unfold set_ssh, act, with_heap. simpl. exists (mkService c (connections o)). split.
  - simpl. now rewrite lookup_alter_eq, Ho.
  - subst c. now split.
Qed.

End OnClient.

Ltac on_client_step :=
  match goal with
  | |- forall _, _ => intros ?
  | |- _ /\ _ => split
  | |- heap _ = heap _ => reflexivity
  | |- effects _ = effects _ => reflexivity
  | |- uses _ _ => simpl; auto
  | H : ssh ?o = ?c |- context [ssh ?o] => rewrite H
  | |- on_client _ _ (mbind _ (deref _)) => apply on_client_deref; intros ? ? ?
  | |- on_client _ _ (mbind _ _) => apply on_client_bind
  | |- on_client _ _ (try_catch _ _) => apply on_client_try_catch
  | |- on_client _ _ (mret _) => apply on_client_ret
  | |- on_client _ _ (mthrow _) => apply on_client_throw
  | |- on_client _ _ (gets _) => apply on_client_gets
  | |- on_client _ _ (lift_net _) => apply on_client_lift_net
  | |- on_client _ _ (connections_set _ _ _) => apply on_client_connections_set
  | |- on_client _ _ (set_ssh _ _) => apply on_client_set_ssh
  | |- on_client _ _ (act (record_effect _)) => apply on_client_record
  | |- on_client _ _ (act _) => apply on_client_act
  | |- on_client _ _ (if ?b then _ else _) => destruct b
  | |- on_client _ _ (match ?x with _ => _ end) => destruct x
  end.

Section OnClientOfTheCode.
Context {Net : Type} {lib : NodeSSHLib Net}.
Variables c this : nat.
Implicit Type s : Server Net.

Lemma on_client_connect_loop key ip username password retries fuel attempts :
  on_client c this (connect_loop this key ip username password retries fuel attempts).
Proof.
  revert attempts. induction fuel as [|fuel IH]; intros attempts; simpl.
  - repeat on_client_step.
  - unfold client_connect, sleep.
    repeat (on_client_step || apply IH).
Qed.

Lemma on_client_connect ip username password retries :
  on_client c this (connect this ip username password retries).
Proof.
  unfold connect. apply on_client_deref. intros o Hc Hal.
  apply on_client_bind; [|intros [|]; [apply on_client_ret|apply on_client_connect_loop]].
  destruct (connections o !! _getConnectionKey ip username) as [existing|] eqn:E;
    [|apply on_client_ret].
  rewrite (Hal _ _ E), Hc. unfold client_isConnected.
  repeat on_client_step.
Qed.

Lemma on_client_isConnected : on_client c this (isConnected this).
Proof. unfold isConnected, client_isConnected. repeat on_client_step. Qed.

Lemma on_client_ensure_connected ip username password :
  on_client c this (ensure_connected this ip username password).
Proof.
  unfold ensure_connected.
  apply on_client_bind; [apply on_client_isConnected|].
  intros [|]; [apply on_client_ret|apply on_client_connect].
Qed.

Lemma on_client_disconnect : on_client c this (disconnect this).
Proof.
  unfold disconnect, client_isConnected, client_dispose. repeat on_client_step.
Qed.

Lemma on_client_executeCommand command cwd :
  on_client c this (executeCommand this command cwd).
Proof. unfold executeCommand, client_execCommand. repeat on_client_step. Qed.

Lemma on_client_executeCommandWithStream command cwd :
  on_client c this (executeCommandWithStream this command cwd onStdout onStderr).
Proof.
  unfold executeCommandWithStream, client_execCommand, deliver, onStdout, onStderr,
    res_write.
  repeat on_client_step.
Qed.

Lemma on_client_run_pipeline r :
  sshService r = this -> on_client c this (run_pipeline r).
Proof.
  intros Hr.
  unfold run_pipeline, pipeline_body, create_target_directory, detect_transfer_tool,
    fetch_archive, verify_archive, extract_archive, install_dependencies,
    execute_setup_script, detectDownloadTool, executeCommand_or_null, file_exists.
  rewrite Hr. unfold res_write, res_end.
  repeat (on_client_step || apply on_client_executeCommand
          || apply on_client_executeCommandWithStream).
Qed.

Lemma on_client_stream_command command cwd :
  on_client c this (stream_command this command cwd).
Proof.
  unfold stream_command, res_write, res_end.
  repeat (on_client_step || apply on_client_executeCommandWithStream).
Qed.

End OnClientOfTheCode.

Section OwnClient.
Context {Net : Type} {lib : NodeSSHLib Net}.
Implicit Type s : Server Net.

Lemma try_catch_bind_ok {A B} (m : M (Server Net) A) (k : A -> M (Server Net) B) h
      s s1 a :
  m s = (s1, Ok a) -> try_catch (mbind k m) h s = try_catch (k a) h s1.
Proof. intros H. unfold try_catch, mbind, M_bind. now rewrite H. Qed.

Lemma guarded_effects {A} (rest : M (Server Net) A) (failed : string -> M (Server Net) A)
      s c this :
  serves c this s -> on_client c this rest ->
  (forall e s, effects (fst (failed e s)) = effects s) ->
  exists effs, effects (fst (try_catch rest failed s)) = effects s ++ effs
               /\ Forall (uses c) effs.
Proof.
  intros Hs Hrest Hfailed. destruct (Hrest s Hs) as (_ & effs & E & F).
  exists effs. split; [|exact F]. unfold try_catch.
  destruct (rest s) as [s1 [a|e]]; simpl in *; [exact E|].
  now rewrite Hfailed.
Qed.

(** The session that a request gets has the client [session_client]. *)
Lemma getSSHService_serves s ip username password :
  registry_ok s ->
  exists s1 this,
    getSSHService ip username password s = (s1, Ok this)
    /\ effects s1 = effects s
    /\ serves (session_client s (ip +:+ ":" +:+ username)) this s1.
Proof.
  intros [Hreg _ _ _ Hal]. unfold session_client.
  destruct (activeConnections s !! (ip +:+ ":" +:+ username)) as [this|] eqn:Hk.
  - exists s, this. split; [now apply getSSHService_existing|split; [reflexivity|]].
    destruct (Hreg _ _ Hk) as [o Ho]. rewrite Ho. exists o. eauto.
  - eexists _, _. split; [now apply getSSHService_fresh|split; [reflexivity|]].
    exists (mkService (nextId s) ∅). simpl. rewrite lookup_insert_eq.
    repeat split. intros key c. simpl. now rewrite lookup_empty.
Qed.

Ltac no_effects :=
  exists []; split; [symmetry; apply app_nil_r|constructor].

Lemma endpoint_effects (handler : Request -> M (Server Net) unit) req s :
  registry_ok s -> endpoint handler ->
  exists effs,
    effects (fst (handler req s)) = effects s ++ effs
    /\ Forall (uses (session_client s (ip req +:+ ":" +:+ username req))) effs.
Proof.
  intros Hok [].
  - unfold download_and_run.
    destruct (_ || _); [no_effects|].
    destruct (getSSHService_serves s (ip req) (username req) (password req) Hok)
      as (s1 & this & Hg & He & Hs).
    rewrite (try_catch_bind_ok _ _ _ _ _ _ Hg), <- He.
    apply (guarded_effects _ _ s1 _ this Hs); [|reflexivity].
    unfold set_sse_headers, res_setHeader.
    repeat (on_client_step || apply on_client_ensure_connected
            || (apply on_client_run_pipeline; reflexivity)).
  - unfold execute_stream.
    destruct (_ || _); [no_effects|].
    destruct (getSSHService_serves s (ip req) (username req) (password req) Hok)
      as (s1 & this & Hg & He & Hs).
    rewrite (try_catch_bind_ok _ _ _ _ _ _ Hg), <- He.
    apply (guarded_effects _ _ s1 _ this Hs); [|reflexivity].
    unfold set_sse_headers, res_setHeader, res_write.
    repeat (on_client_step || apply on_client_ensure_connected
            || apply on_client_stream_command).
  - unfold ssh_connect.
    destruct (_ || _); [no_effects|].
    destruct (getSSHService_serves s (ip req) (username req) (password req) Hok)
      as (s1 & this & Hg & He & Hs).
    rewrite (try_catch_bind_ok _ _ _ _ _ _ Hg), <- He.
    apply (guarded_effects _ _ s1 _ this Hs); [|reflexivity].
    unfold res_json.
    repeat (on_client_step || apply on_client_connect).
  - unfold ssh_disconnect.
    destruct (_ || _); [no_effects|].
    unfold session_client.
    destruct (activeConnections s !! (ip req +:+ ":" +:+ username req))
      as [this|] eqn:Hk.
    + destruct Hok as [Hreg _ _ _ Hal]. destruct (Hreg _ _ Hk) as [o Ho]. rewrite Ho.
      assert (Hs : serves (ssh o) this s) by (exists o; eauto).
      match goal with
      | |- context [try_catch ?body ?h s] =>
          assert (E : try_catch body h s
                      = try_catch
                          ((disconnect this;;
                            act (with_activeConnections
                                   (delete (ip req +:+ ":" +:+ username req))));;
                           res_json (JsonSuccess "Disconnected successfully")) h s)
            by (unfold try_catch, mbind, M_bind, gets; cbv beta zeta; now rewrite Hk)
      end.
      rewrite E. apply (guarded_effects _ _ s _ this Hs); [|reflexivity].
      unfold res_json.
      repeat (on_client_step || apply on_client_disconnect).
    + unfold try_catch, mbind, M_bind, gets. cbv beta zeta. rewrite Hk.
      no_effects.
Qed.

(** A request is served on the client of its own session and on no other.
    For every state the server can reach and every request to one of the
    four endpoints, every call of the library that the handler makes is a
    call on the client of the session of the request's key (the registered
    one, or the new one the request creates); and that client is the client
    of no session registered under another key. *)
Theorem requests_use_the_client_of_their_session :
  forall (handler : Request -> M (Server Net) unit) (req : Request) (s : Server Net),
    reachable s ->
    endpoint handler ->
    let key := ip req +:+ ":" +:+ username req in
    (exists effs,
        effects (serve handler req s) = effects s ++ effs
        /\ Forall (uses (session_client s key)) effs)
    /\ (forall k2 t2 o2,
           k2 <> key ->
           activeConnections s !! k2 = Some t2 -> heap s !! t2 = Some o2 ->
           ssh o2 <> session_client s key).
Proof.
  intros handler req s Hr Hh key. pose proof (reachable_registry_ok s Hr) as Hok.
  split.
  - apply (endpoint_effects handler req (with_res (fun _ => fresh_response) s));
      [now apply registry_ok_with_res|exact Hh].
  - destruct Hok as [Hreg Hfresh Hkey Hsess Hal].
    intros k2 t2 o2 Hne H2 Ho2. unfold session_client.
    destruct (activeConnections s !! key) as [this|] eqn:Hk.
    + destruct (Hreg _ _ Hk) as [o Ho]. rewrite Ho. intros E.
      apply Hne. apply (Hkey k2 key this); [|exact Hk].
      now rewrite <- (Hsess _ _ _ _ Ho2 Ho E).
    + apply Hfresh in Ho2. lia.
Qed.

End OwnClient.

Lemma requests_use_the_client_of_their_session_witness :
  exists effs,
    effects (serve (download_and_run (lib := lib_of Sim.capable_hub)) req0
               Scenario3.two_hubs)
    = effects Scenario3.two_hubs ++ effs
    /\ Forall (uses 0) effs.
Proof.
  refine (proj1 (requests_use_the_client_of_their_session
                   (lib := lib_of Sim.capable_hub)
                   (download_and_run (lib := lib_of Sim.capable_hub)) req0
                   Scenario3.two_hubs _ _)).
  - unfold Scenario3.two_hubs.
    apply reachable_serve; [apply reachable_serve|]; [|constructor|constructor].
    apply (reachable_start (lib := lib_of Sim.capable_hub) []).
  - constructor.
Defined.

(* ===================================================================== *)
(** ** The probes and the network set-up of the provisioning script *)
(* ===================================================================== *)

Lemma split_single (l : string) :
  JsString.single_line l = true -> JsString.split JsString.LF l = [l].
Proof.
  induction l as [|c l IH]; [reflexivity|]. simpl.
  destruct (Ascii.eqb c JsString.LF); [discriminate|]. simpl.
  intros H. now rewrite (IH H).
Qed.

Lemma split_first_line (l s : string) :
  JsString.single_line l = true ->
  JsString.split JsString.LF (l +:+ String JsString.LF s)
  = l :: JsString.split JsString.LF s.
Proof.
  induction l as [|c l IH]; intros H.
  - reflexivity.
  - simpl in H. change (String c l +:+ String JsString.LF s)
      with (String c (l +:+ String JsString.LF s)).
    cbn [JsString.split].
    destruct (Ascii.eqb c JsString.LF); [discriminate|]. simpl in H.
    now rewrite (IH H).
Qed.

Lemma split_join (lines : list string) :
  lines <> [] -> Forall (fun l => JsString.single_line l = true) lines ->
  JsString.split JsString.LF (JsString.join lines) = lines.
Proof.
  induction lines as [|l [|l2 rest] IH]; intros Hne HF; [congruence| |].
  - apply split_single. now inversion HF.
  - change (JsString.join (l :: l2 :: rest))
      with (l +:+ String JsString.LF (JsString.join (l2 :: rest))).
    inversion HF as [|? ? H1 H2]; subst.
    rewrite (split_first_line _ _ H1). f_equal. now apply IH.
Qed.

Lemma array_includes_In (l : list string) (x : string) :
  JsString.array_includes l x = true <-> In x l.
Proof.
  unfold JsString.array_includes. rewrite existsb_exists. split.
  - intros (y & Hy & E). apply String.eqb_eq in E. now subst.
  - intros H. exists x. split; [exact H|apply String.eqb_refl].
Qed.

Section RemoteToolsFacts.
Context {Net : Type} {lib : NodeSSHLib Net}.
Variable reconnect : M (Remote.Script Net) unit.

Lemma probe_answered {A} (fn : M (Remote.Script Net) A) s s1 a :
  fn s = (s1, Ok a) -> Remote.retry reconnect fn RETRY_LIMIT s = (s1, Ok (Some a)).
Proof.
  intros H. unfold Remote.retry, RETRY_LIMIT. simpl.
  unfold try_catch, mbind, M_bind. now rewrite H.
Qed.

Lemma retry_returns_a_value {A} (fn : M (Remote.Script Net) A) s s' :
  Remote.retry reconnect fn RETRY_LIMIT s <> (s', Ok None).
Proof.
  unfold Remote.retry.
  destruct (remote_retry_loop_within fn reconnect RETRY_LIMIT RETRY_LIMIT 0 s 0 0
              ltac:(lia)) as (s1 & calls & r & _ & H2 & H3).
  rewrite H2. intros [= -> ->]. unfold RETRY_LIMIT in H3. lia.
Qed.

(** The two probes of the provisioning script read the standard output of
    their command and nothing else.  When the SSH layer answers the
    command, the probe runs it once, prints nothing, never pauses and never
    reconnects, and answers whether the standard output contains the package
    name (or the words File exists), whatever the standard error and the exit
    code.  A probe never returns [undefined]. *)
Theorem remote_probes_read_only_the_output :
  forall (name : string) (s : Remote.Script Net) (n : Net) (r : CommandResult),
    (nssh_execCommand Remote.ssh ("npm list -g --depth=0 | grep " +:+ name) None
                      (Remote.net s) = (n, Ok r) ->
     RemoteTools.checkPackageInstalled reconnect name s
     = (Remote.mkScript n (Remote.output s), Ok (Some (Js.includes (stdout r) name))))
    /\ (nssh_execCommand Remote.ssh
          ("test -f " +:+ name +:+ " && echo " +:+ dq +:+ "File exists" +:+ dq) None
          (Remote.net s) = (n, Ok r) ->
        RemoteTools.checkFileExists reconnect name s
        = (Remote.mkScript n (Remote.output s),
           Ok (Some (Js.includes (stdout r) "File exists"))))
    /\ (forall s', RemoteTools.checkPackageInstalled reconnect name s <> (s', Ok None))
    /\ (forall s', RemoteTools.checkFileExists reconnect name s <> (s', Ok None)).
Proof.
  intros name s n r. repeat split.
  - intros H. apply probe_answered.
    unfold RemoteTools.package_probe, Remote.lift_net, mbind, M_bind. now rewrite H.
  - intros H. apply probe_answered.
    unfold RemoteTools.file_probe, Remote.lift_net, mbind, M_bind. now rewrite H.
  - intros s'. apply retry_returns_a_value.
  - intros s'. apply retry_returns_a_value.
Qed.

(** [createNetworkIfNotExists] never throws.  When the listing is rejected
    it only prints the failure.  When the listing is answered with lines, the
    network counts as existing exactly when its name is one of the lines,
    character for character: then nothing more is run; otherwise the network
    is created with [execCommandWithRetries], and a failure of that command
    is printed and not passed on. *)
Theorem createNetworkIfNotExists_creates_only_missing_networks :
  forall (name : string) (s : Remote.Script Net),
    (exists s', RemoteTools.createNetworkIfNotExists reconnect name s = (s', Ok tt))
    /\ (forall n e,
           nssh_execCommand Remote.ssh RemoteTools.list_networks None (Remote.net s)
           = (n, Throw e) ->
           RemoteTools.createNetworkIfNotExists reconnect name s
           = (console_error ("Failed to create or check network: "
                               +:+ JsString.error_text e)
                (Remote.mkScript n (Remote.output s)), Ok tt))
    /\ (forall n r lines,
           nssh_execCommand Remote.ssh RemoteTools.list_networks None (Remote.net s)
           = (n, Ok r) ->
           stdout r = JsString.join lines ->
           lines <> [] ->
           Forall (fun l => JsString.single_line l = true) lines ->
           let s1 := Remote.mkScript n (Remote.output s) in
           (In name lines ->
            RemoteTools.createNetworkIfNotExists reconnect name s
            = (console_log ("Network " +:+ dq +:+ name +:+ dq +:+ " already exists.") s1,
               Ok tt))
           /\ (~ In name lines ->
               RemoteTools.createNetworkIfNotExists reconnect name s
               = match Remote.execCommandWithRetries reconnect
                         ("podman network create " +:+ name) None
                         (console_log ("Creating network " +:+ dq +:+ name +:+ dq +:+ "...")
                            s1) with
                 | (s2, Ok _) =>
                     (console_log ("Network " +:+ dq +:+ name +:+ dq
                                     +:+ " created successfully.") s2, Ok tt)
                 | (s2, Throw e) =>
                     (console_error ("Failed to create or check network: "
                                       +:+ JsString.error_text e) s2, Ok tt)
                 end)).
Proof.
  intros name s. split; [|split].
  - unfold RemoteTools.createNetworkIfNotExists, try_catch.
    match goal with
    | |- context [let (_, _) := ?m s in _] => destruct (m s) as [s1 [[]|e]]
    end; eexists; reflexivity.
  - intros n e H. unfold RemoteTools.createNetworkIfNotExists, try_catch,
      Remote.lift_net, mbind, M_bind. now rewrite H.
  - intros n r lines H Hout Hne HF s1.
    assert (Hin : JsString.array_includes
                    (JsString.split JsString.LF (stdout r)) name = true
                  <-> In name lines).
    { rewrite Hout, (split_join lines Hne HF). apply array_includes_In. }
    split; intros Hname.
    + apply Hin in Hname.
      unfold RemoteTools.createNetworkIfNotExists, try_catch,
        Remote.lift_net, mbind, M_bind. rewrite H, Hname. reflexivity.
    + assert (Hf : JsString.array_includes
                     (JsString.split JsString.LF (stdout r)) name = false).
      { apply not_true_is_false. intros E. now apply Hname, Hin. }
      unfold RemoteTools.createNetworkIfNotExists, try_catch,
        Remote.lift_net, mbind, M_bind. rewrite H, Hf. unfold act. fold s1.
      destruct (Remote.execCommandWithRetries reconnect _ None _) as [s2 [v|e]];
        reflexivity.
Qed.

End RemoteToolsFacts.

Lemma remote_probes_read_only_the_output_witness :
  RemoteTools.checkFileExists (lib := lib_of Sim.capable_hub) (mthrow "unreached")
    "/data/keus-iot-platform/node-manager-1.0.0.tar.gz" Scenario4.online
  = (Scenario4.online, Ok (Some false)).
Proof.
  refine (proj1 (proj2 (remote_probes_read_only_the_output
                          (lib := lib_of Sim.capable_hub) (mthrow "unreached")
                          "/data/keus-iot-platform/node-manager-1.0.0.tar.gz"
                          Scenario4.online [0]
                          (mkResult ("exists" +:+ Sim.nl) EmptyString 0))) _).
  by_run.
Defined.

Lemma createNetworkIfNotExists_creates_only_missing_networks_witness :
  RemoteTools.createNetworkIfNotExists (lib := lib_of Scenario4.podman_hub)
    (mthrow "unreached") "kiotp-network" Scenario4.online
  = (console_log ("Network " +:+ dq +:+ "kiotp-network" +:+ dq +:+ " already exists.")
       Scenario4.online, Ok tt).
Proof.
  refine (proj1 (proj2 (proj2 (createNetworkIfNotExists_creates_only_missing_networks
                                 (lib := lib_of Scenario4.podman_hub) (mthrow "unreached")
                                 "kiotp-network" Scenario4.online))
                   [0] (mkResult ("podman" +:+ Sim.nl +:+ "kiotp-network") EmptyString 0)
                   ["podman"; "kiotp-network"] _ _ _ _) _).
  - by_run.
  - reflexivity.
  - discriminate.
  - repeat constructor.
  - simpl. auto.
Defined.
